(** * ryu-modern: the collections fixer and the modernization orchestrator

    A shallow embedding of [tools/fix_collections_imports.py] and
    [tools/ryu_modernize.py], and the properties of the rewrite rules, the
    backup naming, the ledger and the rollback protocol.

    Modelling conventions.
    - Text is a [string] of code points below 256 (Latin-1).  The character
      classes follow Python's [str.isspace], [str.isalnum] and the line
      boundaries of [str.splitlines] on that range.
    - A path is the string [str(path)], written relative to the repository
      root; [path.with_name(path.name + ext)] is the path string followed by
      [ext].  A file tree is a finite map from path strings to file contents
      (regular files only, each of them text that decodes).
    - The ledger file [.ryu-modernize-state.json] is kept apart from the
      tree, as the object its JSON text decodes to; [on_disk] looks a path up
      in both, and the statements about what a run leaves untouched are made
      with it.
    - One expression of [tools/ryu_modernize.py], the text of the new class
      block at lines 175-191, is not well formed: the name [newline] stands
      directly before a string literal.  The model gives it no value.  The one
      branch that needs it ends in [Unparsable], and nothing is proved about
      a run that reaches it; every other function of the file is embedded as
      it is written.
    - What a session reads from outside the tree (interpreter, installed
      packages, clock, outcome of the test command) is a parameter; the test
      command is taken not to write into the tree. *)

From Stdlib Require Import String Ascii List Arith Lia Bool.
From stdpp Require Import base option list gmap strings pretty.

Local Open Scope string_scope.

(** ** Characters and Python string methods *)

Module Py.

Definition code (c : ascii) : nat := nat_of_ascii c.

(** [str.isspace] on code points below 256; also the class [\s] of [re]. *)
Definition isspace (c : ascii) : bool :=
  let n := code c in
  (((9 <=? n) && (n <=? 13)) || ((28 <=? n) && (n <=? 32))
   || (n =? 133) || (n =? 160))%nat.

(** The class [\w] of [re] on code points below 256: [str.isalnum] or an
    underscore. *)
Definition isword (c : ascii) : bool :=
  let n := code c in
  (((48 <=? n) && (n <=? 57)) || ((65 <=? n) && (n <=? 90))
   || ((97 <=? n) && (n <=? 122)) || (n =? 95)
   || (n =? 170) || (n =? 178) || (n =? 179) || (n =? 181) || (n =? 185)
   || (n =? 186) || ((188 <=? n) && (n <=? 190))
   || ((192 <=? n) && (n <=? 214)) || ((216 <=? n) && (n <=? 246))
   || (248 <=? n))%nat.

(** Line boundaries of [str.splitlines] other than CR and LF. *)
Definition islinebreak (c : ascii) : bool :=
  let n := code c in
  ((n =? 10) || (n =? 11) || (n =? 12) || (n =? 13)
   || (n =? 28) || (n =? 29) || (n =? 30) || (n =? 133))%nat.

Definition LF : string := String "010"%char "".
Definition CR : string := String "013"%char "".
Definition CRLF : string := String "013"%char (String "010"%char "").

Definition is_Some_b {A} (o : option A) : bool :=
  match o with Some _ => true | None => false end.

Definition is_empty (s : string) : bool :=
  match s with "" => true | _ => false end.

Fixpoint startswith (p s : string) : bool :=
  match p, s with
  | "", _ => true
  | String a p', String b s' => Ascii.eqb a b && startswith p' s'
  | String _ _, "" => false
  end.

(** [s[len(p):]] when [s.startswith(p)]. *)
Fixpoint strip_prefix (p s : string) : option string :=
  match p, s with
  | "", _ => Some s
  | String a p', String b s' =>
      if Ascii.eqb a b then strip_prefix p' s' else None
  | String _ _, "" => None
  end.

Fixpoint drop (n : nat) (s : string) : string :=
  match n, s with
  | 0, _ => s
  | S n', String _ s' => drop n' s'
  | S _, "" => ""
  end.

Fixpoint take (n : nat) (s : string) : string :=
  match n, s with
  | 0, _ => ""
  | S n', String c s' => String c (take n' s')
  | S _, "" => ""
  end.

Definition endswith (p s : string) : bool :=
  (String.length p <=? String.length s)%nat
  && String.eqb (drop (String.length s - String.length p) s) p.

(** [sub in s] *)
Fixpoint contains (sub s : string) : bool :=
  startswith sub s
  || match s with
     | "" => false
     | String _ s' => contains sub s'
     end.

(** [s.split(sep, 1)] when [sep in s]: the text before and after the first
    occurrence. *)
Fixpoint split_once (sep s : string) : option (string * string) :=
  match strip_prefix sep s with
  | Some rest => Some ("", rest)
  | None =>
      match s with
      | "" => None
      | String c s' =>
          match split_once sep s' with
          | Some (a, b) => Some (String c a, b)
          | None => None
          end
      end
  end.

(** [s.replace(old, new, 1)] *)
Definition replace_first (old new s : string) : string :=
  match split_once old s with
  | Some (a, b) => a ++ new ++ b
  | None => s
  end.

(** [s.split(c)] for a one-character separator. *)
Fixpoint split_char (c : ascii) (s : string) : list string :=
  match s with
  | "" => [""]
  | String a s' =>
      if Ascii.eqb a c then "" :: split_char c s'
      else match split_char c s' with
           | x :: xs => String a x :: xs
           | [] => [String a ""]
           end
  end.

Fixpoint lstrip (s : string) : string :=
  match s with
  | String c s' => if isspace c then lstrip s' else s
  | "" => ""
  end.

Fixpoint rstrip (s : string) : string :=
  match s with
  | String c s' =>
      let r := rstrip s' in
      if is_empty r && isspace c then "" else String c r
  | "" => ""
  end.

Definition strip (s : string) : string := lstrip (rstrip s).

(** [s.rstrip(chars)] for the characters accepted by [p]. *)
Fixpoint rstrip_chars (p : ascii -> bool) (s : string) : string :=
  match s with
  | String c s' =>
      let r := rstrip_chars p s' in
      if is_empty r && p c then "" else String c r
  | "" => ""
  end.

Definition is_cr (c : ascii) : bool := Ascii.eqb c "013"%char.

Definition is_cr_or_lf (c : ascii) : bool :=
  Ascii.eqb c "013"%char || Ascii.eqb c "010"%char.

(** [sep.join(l)] *)
Fixpoint join (sep : string) (l : list string) : string :=
  match l with
  | [] => ""
  | [x] => x
  | x :: xs => x ++ sep ++ join sep xs
  end.

(** [s.splitlines(keepends=True)] *)
Fixpoint splitlines (s : string) : list string :=
  match s with
  | "" => []
  | String c s' =>
      if islinebreak c then
        match s' with
        | String d s'' =>
            if Ascii.eqb c "013"%char && Ascii.eqb d "010"%char
            then String c (String d "") :: splitlines s''
            else String c "" :: splitlines s'
        | "" => [String c ""]
        end
      else
        match splitlines s' with
        | x :: xs => String c x :: xs
        | [] => [String c ""]
        end
  end.

Fixpoint universal_newlines (s : string) : string :=
  match s with
  | "" => ""
  | String c s' =>
      if Ascii.eqb c "013"%char then
        String "010"%char
          match s' with
          | String d s'' =>
              if Ascii.eqb d "010"%char then universal_newlines s''
              else universal_newlines s'
          | "" => ""
          end
      else String c (universal_newlines s')
  end.

(** [s.splitlines()]: each line without its terminator, the only line
    boundary characters a line of [splitlines] holds. *)
Definition splitlines_plain (s : string) : list string :=
  map (rstrip_chars islinebreak) (splitlines s).

(** [s.lower()] on code points below 256. *)
Definition lower_char (c : ascii) : ascii :=
  let n := code c in
  if (((65 <=? n) && (n <=? 90)) || ((192 <=? n) && (n <=? 214))
      || ((216 <=? n) && (n <=? 222)))%nat
  then ascii_of_nat (n + 32) else c.

Fixpoint lower (s : string) : string :=
  match s with
  | "" => ""
  | String c s' => String (lower_char c) (lower s')
  end.

(** [s.split()] *)
Fixpoint split_ws_from (cur : string) (s : string) : list string :=
  match s with
  | "" => if is_empty cur then [] else [cur]
  | String c s' =>
      if isspace c then
        if is_empty cur then split_ws_from "" s'
        else cur :: split_ws_from "" s'
      else split_ws_from (cur ++ String c "") s'
  end.

Definition split_ws (s : string) : list string := split_ws_from "" s.

Fixpoint all_chars (p : ascii -> bool) (s : string) : bool :=
  match s with
  | "" => true
  | String c s' => p c && all_chars p s'
  end.

(** Only white space. *)
Definition all_space (s : string) : bool := all_chars isspace s.

(** No carriage return and no line feed. *)
Definition no_cr_lf (s : string) : bool :=
  all_chars (fun c => negb (is_cr_or_lf c)) s.

(** The first character, if there is one, is not white space. *)
Definition head_not_space (s : string) : bool :=
  match s with
  | String c _ => negb (isspace c)
  | "" => true
  end.

Fixpoint last_char (s : string) : option ascii :=
  match s with
  | "" => None
  | String c "" => Some c
  | String _ s' => last_char s'
  end.

(** The double quote, as a one-character text. *)
Definition DQ : string := String "034"%char "".

(** [len(line) - len(line.lstrip())] *)
Definition indent_width (line : string) : nat :=
  String.length line - String.length (lstrip line).

End Py.

Import Py.

(** ** The file tree

    A tree maps the path of each regular file to its text. *)

Module Fs.

Abbreviation tree := (gmap string string).

Definition exists_file (fs : tree) (p : string) : bool :=
  bool_decide (is_Some (fs !! p)).

(** [shutil.copy2(src, dst)] *)
Definition copy2 (fs : tree) (src dst : string) : tree :=
  match fs !! src with
  | Some v => <[dst := v]> fs
  | None => fs
  end.

End Fs.

Import Fs.

(** ** tools/fix_collections_imports.py *)

Module Fixer.

(** *** The regular expressions

    Each matcher follows its pattern from left to right.  A greedy [\s*] or
    [\s+] that is followed by a literal starting with a letter never has to
    give characters back; the only place where backtracking matters is the
    [\s+] in front of [(?P<imports>.+)$], and [ws_star_dot_plus_end] spells
    it out. *)

(** [\s*] at the start of [s]: the text it consumes and the rest. *)
Fixpoint span_space (s : string) : string * string :=
  match s with
  | String c s' =>
      if isspace c then let '(w, r) := span_space s' in (String c w, r)
      else ("", s)
  | "" => ("", "")
  end.

(** [\s+] at the start of [s]: the rest, when at least one character of
    white space is there. *)
Definition space_plus (s : string) : option string :=
  match s with
  | String c s' => if isspace c then Some (lstrip s') else None
  | "" => None
  end.

(** [\b] after a word character: the next character is not one. *)
Definition word_end (s : string) : bool :=
  match s with
  | String c _ => negb (isword c)
  | "" => true
  end.

(** [(.+)$] anchored at the start of [s], without [re.MULTILINE]: the dot
    excludes the line feed, and [$] matches at the end or before a final
    line feed. *)
Fixpoint dot_plus_end (s : string) : option string :=
  match s with
  | "" => None
  | String c s' =>
      if Ascii.eqb c "010"%char then None
      else match s' with
           | "" => Some (String c "")
           | String d s'' =>
               if Ascii.eqb d "010"%char && is_empty s'' then Some (String c "")
               else match dot_plus_end s' with
                    | Some r => Some (String c r)
                    | None => None
                    end
           end
  end.

(** [\s*(.+)$], greedy with backtracking: white space is consumed as far as
    the rest still matches. *)
Fixpoint ws_star_dot_plus_end (s : string) : option string :=
  match s with
  | String c s' =>
      if isspace c then
        match ws_star_dot_plus_end s' with
        | Some r => Some r
        | None => dot_plus_end s
        end
      else dot_plus_end s
  | "" => None
  end.

(** [\s+(.+)$] *)
Definition ws_plus_dot_plus_end (s : string) : option string :=
  match s with
  | String c s' => if isspace c then ws_star_dot_plus_end s' else None
  | "" => None
  end.

(** [FROM_COLLECTIONS_RE.match(s)]: the groups [indent] and [imports]. *)
Definition FROM_COLLECTIONS_RE (s : string) : option (string * string) :=
  let '(indent, r) := span_space s in
  r ← strip_prefix "from" r;
  r ← space_plus r;
  r ← strip_prefix "collections" r;
  r ← space_plus r;
  r ← strip_prefix "import" r;
  imports ← ws_plus_dot_plus_end r;
  Some (indent, imports).

(** [IMPORT_COLLECTIONS_RE.match(s)]: the group [imports]. *)
Definition IMPORT_COLLECTIONS_RE (s : string) : option string :=
  r ← strip_prefix "import" (lstrip s);
  ws_plus_dot_plus_end r.

(** [import\s+collections\b] *)
Definition re_import_collections (r : string) : bool :=
  is_Some_b (r ← strip_prefix "import" r;
             r ← space_plus r;
             r ← strip_prefix "collections" r;
             if word_end r then Some r else None).

(** [from\s+collections\s+import\b] *)
Definition re_from_collections_import (r : string) : bool :=
  is_Some_b (r ← strip_prefix "from" r;
             r ← space_plus r;
             r ← strip_prefix "collections" r;
             r ← space_plus r;
             r ← strip_prefix "import" r;
             if word_end r then Some r else None).

(** [import\s+collections\.abc\b] *)
Definition re_import_collections_abc (r : string) : bool :=
  is_Some_b (r ← strip_prefix "import" r;
             r ← space_plus r;
             r ← strip_prefix "collections.abc" r;
             if word_end r then Some r else None).

(** [from\s+collections\.abc\s+import\b] *)
Definition re_from_collections_abc_import (r : string) : bool :=
  is_Some_b (r ← strip_prefix "from" r;
             r ← space_plus r;
             r ← strip_prefix "collections.abc" r;
             r ← space_plus r;
             r ← strip_prefix "import" r;
             if word_end r then Some r else None).

(** [from\s+collections\s+import\s+abc\b] *)
Definition re_from_collections_import_abc (r : string) : bool :=
  is_Some_b (r ← strip_prefix "from" r;
             r ← space_plus r;
             r ← strip_prefix "collections" r;
             r ← space_plus r;
             r ← strip_prefix "import" r;
             r ← space_plus r;
             r ← strip_prefix "abc" r;
             if word_end r then Some r else None).

(** [COLLECTIONS_ABC_IMPORT_RE.match(s)] as a truth value. *)
Definition COLLECTIONS_ABC_IMPORT_RE (s : string) : bool :=
  let r := lstrip s in
  re_import_collections_abc r
  || re_from_collections_abc_import r
  || re_from_collections_import_abc r.

(** [COLLECTIONS_IMPORT_RE.match(s)] as a truth value. *)
Definition COLLECTIONS_IMPORT_RE (s : string) : bool :=
  let r := lstrip s in
  re_import_collections r || re_from_collections_import r.

(** A pattern [\b<lit>\b] whose literal starts and ends with a word
    character matches at the start of [s], the character before being
    [prev_word]. *)
Definition match_here (lit : string) (prev_word : bool) (s : string) : bool :=
  negb prev_word
  && match strip_prefix lit s with
     | Some r => word_end r
     | None => false
     end.

(** [pattern.search(s)] for such a pattern. *)
Fixpoint search_from (lit : string) (prev_word : bool) (s : string) : bool :=
  match_here lit prev_word s
  || match s with
     | "" => false
     | String c s' => search_from lit (isword c) s'
     end.

(** [pattern.sub(repl, s)] for such a pattern: the matches are replaced from
    left to right; [skip] counts the characters of a match still to pass. *)
Fixpoint sub_from (lit repl : string) (prev_word : bool) (skip : nat)
    (s : string) : string :=
  match s with
  | "" => ""
  | String c s' =>
      match skip with
      | S k => sub_from lit repl (isword c) k s'
      | 0 =>
          if match_here lit prev_word s
          then repl ++ sub_from lit repl (isword c) (String.length lit - 1) s'
          else String c (sub_from lit repl (isword c) 0 s')
      end
  end.

Definition re_search (lit s : string) : bool := search_from lit false s.
Definition re_sub (lit repl s : string) : string := sub_from lit repl false 0 s.

(** The entries of [REPLACEMENTS], in the order of the dict: the source of
    the pattern, the literal it matches between the two [\b], and the
    replacement. *)
Definition REPLACEMENTS : list (string * string * string) :=
  [ ("\bcollections\.MutableMapping\b", "collections.MutableMapping",
     "collections.abc.MutableMapping");
    ("\bcollections\.Iterable\b", "collections.Iterable",
     "collections.abc.Iterable");
    ("\bcollections\.Callable\b", "collections.Callable",
     "collections.abc.Callable") ].

(** *** Data *)

Record Change := mkChange { line_no : nat; description : string }.

Record FileResult :=
  mkFileResult { path : string; changes : list Change; updated : bool }.

(** *** The rules *)

Definition split_comment (line : string) : string * string :=
  match split_once "#" line with
  | None => (line, "")
  | Some (code, comment) => (code, "#" ++ comment)
  end.

Definition parse_import_items (imports_part : string) : list string :=
  let imports_part := strip imports_part in
  let imports_part :=
    if startswith "(" imports_part && endswith ")" imports_part
    then take (String.length imports_part - 2) (drop 1 imports_part)
    else imports_part in
  filter (fun item => is_empty item = false)
         (map strip (split_char "," imports_part)).

Definition base_import_name (item : string) : string :=
  match split_once " as " item with
  | Some (name, _) => strip name
  | None => strip item
  end.

Definition is_mutable (item : string) : bool :=
  String.eqb (base_import_name item) "MutableMapping".

Definition line_ending_of (line : string) : string :=
  if endswith CRLF line then CRLF
  else if endswith LF line then LF
  else "".

Definition process_from_collections_import (line : string) (line_no : nat)
    : list string * list Change :=
  let line_no_ending := rstrip_chars is_cr_or_lf line in
  match FROM_COLLECTIONS_RE line_no_ending with
  | None => ([line], [])
  | Some (indent, imports_part) =>
      let line_ending := line_ending_of line in
      let '(code, comment) := split_comment imports_part in
      let items := parse_import_items code in
      if bool_decide (items = []) || bool_decide ("*" ∈ items) then ([line], [])
      else
        let mutable_items := List.filter is_mutable items in
        if bool_decide (mutable_items = []) then ([line], [])
        else
          let remaining_items :=
            List.filter (fun item => negb (is_mutable item)) items in
          let mutable_imports := join ", " mutable_items in
          if bool_decide (remaining_items = []) then
            ([indent ++ "from collections.abc import " ++ mutable_imports
                ++ comment ++ line_ending],
             [mkChange line_no
                "replaced collections import with collections.abc for MutableMapping"])
          else
            ([indent ++ "from collections import "
                ++ join ", " remaining_items ++ comment ++ line_ending;
              indent ++ "from collections.abc import " ++ mutable_imports
                ++ line_ending],
             [mkChange line_no "removed MutableMapping from collections import"])
  end.

Fixpoint replace_loop (table : list (string * string * string))
    (new_line : string) (line_no : nat) : string * list Change :=
  match table with
  | [] => (new_line, [])
  | (pattern, lit, replacement) :: table' =>
      if re_search lit new_line then
        let '(l, cs) := replace_loop table' (re_sub lit replacement new_line) line_no in
        (l, mkChange line_no ("replaced " ++ pattern ++ " with " ++ replacement) :: cs)
      else replace_loop table' new_line line_no
  end.

Definition replace_collections_usage (line : string) (line_no : nat)
    : string * list Change :=
  replace_loop REPLACEMENTS line line_no.

Definition has_collections_abc_import (lines : list string) : bool :=
  existsb COLLECTIONS_ABC_IMPORT_RE lines.

Fixpoint has_collections_import (lines : list string) : bool :=
  match lines with
  | [] => false
  | line :: lines' =>
      if negb (COLLECTIONS_IMPORT_RE line) then has_collections_import lines'
      else if startswith "import " (lstrip line) then
        match IMPORT_COLLECTIONS_RE line with
        | None => true
        | Some imports =>
            let '(code, _) := split_comment imports in
            let items := parse_import_items code in
            if existsb (fun item => startswith "collections" (base_import_name item)) items
            then true
            else has_collections_import lines'
        end
      else true
  end.

(** The loop of [insert_collections_abc_import]: the value of [insert_at]
    after the lines from index [idx] on. *)
Fixpoint find_insert_at (lines : list string) (idx : nat)
    (insert_at : option nat) : option nat :=
  match lines with
  | [] => insert_at
  | line :: lines' =>
      find_insert_at lines' (S idx)
        (if COLLECTIONS_IMPORT_RE line then Some (S idx) else insert_at)
  end.

(** [lines.insert(i, x)] of Python, for [i >= 0]. *)
Definition list_insert_at {A} (i : nat) (x : A) (l : list A) : list A :=
  (firstn i l ++ x :: skipn i l)%list.

Definition insert_collections_abc_import (lines : list string)
    (newline : string) (changes : list Change) : list string * list Change :=
  match find_insert_at lines 0 None with
  | None => (lines, changes)
  | Some insert_at =>
      (list_insert_at insert_at ("import collections.abc" ++ newline) lines,
       (changes ++ [mkChange (insert_at + 1) "added import collections.abc"])%list)
  end.

(** The loop of [process_file] over [enumerate(lines, start=idx)]. *)
Fixpoint rewrite_lines (lines : list string) (idx : nat)
    : list string * list Change :=
  match lines with
  | [] => ([], [])
  | line :: lines' =>
      let '(new_lines, import_changes) := process_from_collections_import line idx in
      let replaced := map (fun new_line => replace_collections_usage new_line idx) new_lines in
      let '(updated_lines, changes) := rewrite_lines lines' (S idx) in
      ((map fst replaced ++ updated_lines)%list,
       (import_changes ++ concat (map snd replaced) ++ changes)%list)
  end.

(** The part of [process_file] between reading and writing: from [content]
    to [updated_lines] and [changes]. *)
Definition updated_lines_of (content : string) : list string * list Change :=
  let newline := if contains CRLF content then CRLF else LF in
  let lines := splitlines content in
  let collections_imported := has_collections_import lines in
  let collections_abc_imported := has_collections_abc_import lines in
  let '(updated_lines, changes) := rewrite_lines lines 1 in
  if collections_imported && negb collections_abc_imported
     && negb (has_collections_abc_import updated_lines)
  then insert_collections_abc_import updated_lines newline changes
  else (updated_lines, changes).

(** [updated_content] and [changes] of [process_file] for [content]. *)
Definition rewrite (content : string) : string * list Change :=
  let '(updated_lines, changes) := updated_lines_of content in
  (join "" updated_lines, changes).

(** *** Files

    [tokenize.open] reads in text mode with universal newlines: CR LF and a
    lone CR arrive as LF.  The file is written back with [newline=""], as it
    is.  A file that cannot be read is skipped; in the model that is a
    missing file. *)

(** [handle.read()] of [tokenize.open(path)]; [None] stands for [OSError]. *)
Definition read_source (fs : tree) (p : string) : option string :=
  universal_newlines <$> fs !! p.

(** The candidate of round [counter] in [backup_path]. *)
Definition numbered (path backup_ext : string) (counter : nat) : string :=
  path ++ backup_ext ++ "." ++ pretty counter.

(** The [while True] loop of [backup_path], run for at most [fuel] rounds. *)
Fixpoint backup_path_loop (fs : tree) (path backup_ext : string)
    (fuel counter : nat) : option string :=
  match fuel with
  | 0 => None
  | S fuel' =>
      let candidate := numbered path backup_ext counter in
      if exists_file fs candidate
      then backup_path_loop fs path backup_ext fuel' (S counter)
      else Some candidate
  end.

(** A tree of [n] files cannot hold all of the first [n + 1] numbered
    candidates, so [S (size fs)] rounds are enough: see
    [backup_path_search_total]. *)
Definition backup_path_search (fs : tree) (path backup_ext : string)
    : option string :=
  let candidate := path ++ backup_ext in
  if negb (exists_file fs candidate) then Some candidate
  else backup_path_loop fs path backup_ext (S (size fs)) 1.

Definition backup_path (fs : tree) (path backup_ext : string) : string :=
  default (path ++ backup_ext) (backup_path_search fs path backup_ext).

(** What the logger receives: level and message. *)
Inductive level := WARNING | INFO | ERROR.

Definition log_record : Type := level * string.

Definition change_message (path : string) (c : Change) : log_record :=
  (INFO, path ++ ":" ++ pretty (line_no c) ++ " " ++ description c).

(** [process_file]: the tree afterwards, the result, and the log records. *)
Definition process_file (fs : tree) (path : string) (dry_run : bool)
    (backup_ext : string) : tree * FileResult * list log_record :=
  match read_source fs path with
  | None =>
      (fs, mkFileResult path [] false,
       [(WARNING, "Skipping " ++ path ++ " due to read error: "
                  ++ "[Errno 2] No such file or directory: '" ++ path ++ "'")])
  | Some content =>
      let '(updated_content, changes) := rewrite content in
      if String.eqb updated_content content then
        (fs, mkFileResult path [] false, [])
      else
        let '(fs', first) :=
          if dry_run then (fs, (INFO, "[dry-run] Would update " ++ path))
          else
            let backup := backup_path fs path backup_ext in
            (<[path := updated_content]> (copy2 fs path backup),
             (INFO, "Updated " ++ path ++ " (backup: " ++ backup ++ ")")) in
        (fs', mkFileResult path changes true,
         first :: map (change_message path) changes)
  end.

(** [iter_py_files]: the files below [root] whose name ends in [.py] and not
    in the backup extension.  [os.walk] lists them in directory order; the
    model takes the order of the key list of the map.  The extension holds no
    [/], so the test on the file name is the test on the path. *)
Definition iter_py_files (fs : tree) (root backup_ext : string) : list string :=
  List.filter
    (fun p => startswith (root ++ "/") p && endswith ".py" p
              && negb (endswith backup_ext p))
    (map fst (map_to_list fs)).

Definition root_exists (fs : tree) (root : string) : bool :=
  existsb (fun p => startswith (root ++ "/") p) (map fst (map_to_list fs)).

Fixpoint process_files (fs : tree) (paths : list string) (dry_run : bool)
    (backup_ext : string) : tree * list FileResult * list log_record :=
  match paths with
  | [] => (fs, [], [])
  | p :: paths' =>
      let '(fs1, r, log1) := process_file fs p dry_run backup_ext in
      let '(fs2, rs, log2) := process_files fs1 paths' dry_run backup_ext in
      (fs2, r :: rs, (log1 ++ log2)%list)
  end.

Definition format_record (r : log_record) : string :=
  (match fst r with WARNING => "WARNING" | INFO => "INFO" | ERROR => "ERROR" end)
  ++ ": " ++ snd r ++ LF.

(** [logging.FileHandler(log_file)] opens the file for appending when the
    logger is set up. *)
Definition open_log (fs : tree) (log_file : option string) : tree :=
  match log_file with
  | Some f => <[f := default "" (fs !! f)]> fs
  | None => fs
  end.

Definition append_log (fs : tree) (log_file : option string)
    (records : list log_record) : tree :=
  match log_file with
  | Some f =>
      <[f := default "" (fs !! f) ++ join "" (map format_record records)]> fs
  | None => fs
  end.

(** [main] with the parsed arguments: the tree afterwards and the exit
    code. *)
Definition main (fs : tree) (root : string) (dry_run : bool)
    (backup_ext : string) (log_file : option string) : tree * nat :=
  let fs := open_log fs log_file in
  if negb (root_exists fs root) then
    (append_log fs log_file [(ERROR, "Path does not exist: " ++ root)], 2)
  else
    let '(fs', results, records) :=
      process_files fs (iter_py_files fs root backup_ext) dry_run backup_ext in
    let updated_files := List.filter updated results in
    let summary :=
      (INFO, "Processed " ++ pretty (length results) ++ " files, updated "
             ++ pretty (length updated_files)) in
    (append_log fs' log_file (records ++ [summary])%list, 0).

End Fixer.


(** ** tools/ryu_modernize.py *)

Module Modernize.

Import Fixer.

Definition BACKUP_EXT : string := ".ryu-modernize.bak".
Definition REPORT_JSON : string := "ryu_modernization_report.json".
Definition REPORT_TXT : string := "ryu_modernization_report.txt".
Definition COLLECTIONS_LOG : string := "collections_fix.log".
Definition STATE_FILE : string := ".ryu-modernize-state.json".

Definition REQUIRED_DEPENDENCIES : list (string * string) :=
  [ ("eventlet", ">=0.33.3"); ("dnspython", ">=2.2.1");
    ("greenlet", ">=1.1.0"); ("packaging", ">=20.9");
    ("msgpack", ">=1.0.0"); ("netaddr", ">=0.8.0");
    ("oslo.config", ">=5.2.0"); ("routes", ">=2.5.1");
    ("webob", ">=1.8.7") ].

Definition REQUIREMENTS_HEADER : string :=
  "# Ryu modernization compatibility requirements".

Record ChangeRecord := mkChangeRecord { path : string; description : string }.

(** The ledger: the dict with the keys [backups] and [created_files]. *)
Record State := mkState { backups : list string; created_files : list string }.

(** What is on disk: the files of the tree, and the ledger file
    [.ryu-modernize-state.json], kept apart from them as the object its JSON
    text decodes to ([None]: no such file). *)
Record World := mkWorld { files : tree; ledger : option State }.

(** What a path holds: the text of a file of the tree or, at the path of the
    ledger file, the ledger. *)
Inductive entry :=
  | Text (content : string)
  | LedgerFile (st : State).

(** What is at path [q]; [files] is not asked about the path of the ledger
    file. *)
Definition on_disk (w : World) (q : string) : option entry :=
  if String.eqb q STATE_FILE then LedgerFile <$> ledger w
  else Text <$> files w !! q.

(** What a session holds while it runs: the tree, the [state] dict that every
    patch mutates in place, and the [changes] list. *)
Record Session :=
  mkSession { s_files : tree; s_state : State; s_changes : list ChangeRecord }.

Inductive exn :=
  | FileNotFoundError (filename : string)
  | ValueError (message : string).

(** How a patch ends: it returns, with the session as it is then; it raises
    an exception that nothing catches, with the tree as it is then; or it
    reaches the expression of the source that is not well formed
    ([Unparsable]), for which the source says nothing. *)
Inductive result :=
  | Ok (s : Session)
  | Raised (e : exn) (fs : tree)
  | Unparsable.

Definition load_state (w : World) : State :=
  match ledger w with
  | None => mkState [] []
  | Some st => st
  end.

Definition save_state (w : World) (st : State) : World :=
  mkWorld (files w) (Some st).

Definition add_backup (b : string) (st : State) : State :=
  mkState (backups st ++ [b]) (created_files st).

Definition add_created (c : string) (st : State) : State :=
  mkState (backups st) (created_files st ++ [c]).

Definition ensure_backup (fs : tree) (path : string) (st : State)
    : tree * State :=
  let backup_path := path ++ BACKUP_EXT in
  if exists_file fs backup_path then
    (fs, if bool_decide (backup_path ∈ backups st) then st
         else add_backup backup_path st)
  else if negb (exists_file fs path) then (fs, st)
  else (copy2 fs path backup_path, add_backup backup_path st).

(** [Path.read_text]: text mode with universal newlines; a missing file
    raises. *)
Definition read_text (fs : tree) (p : string) : exn + string :=
  match fs !! p with
  | Some v => inr (universal_newlines v)
  | None => inl (FileNotFoundError p)
  end.

Definition write_text (fs : tree) (p content : string) : tree :=
  <[p := content]> fs.

(** [repo_root.rglob("*" + BACKUP_EXT)], in the order of the key list. *)
Definition rglob_backups (fs : tree) : list string :=
  List.filter (endswith BACKUP_EXT) (map fst (map_to_list fs)).

Fixpoint register_backups (found : list string) (st : State) : State :=
  match found with
  | [] => st
  | backup_str :: found' =>
      register_backups found'
        (if bool_decide (backup_str ∈ backups st) then st
         else add_backup backup_str st)
  end.

(** The subprocess is the fixer of this repository, run on [ryu] with the
    backup extension and the log file of the orchestrator. *)
Definition apply_collections_fix (fs : tree) (st : State)
    : tree * State * option string :=
  let log_path := COLLECTIONS_LOG in
  let fs := fst (Fixer.main fs "ryu" false BACKUP_EXT (Some log_path)) in
  let st := register_backups (rglob_backups fs) st in
  if exists_file fs log_path && negb (bool_decide (log_path ∈ created_files st))
  then (fs, add_created log_path st, Some log_path)
  else (fs, st, if exists_file fs log_path then Some log_path else None).

(** The inner [while] of [find_class_block]: the index where the block that
    starts before [rest] ends. *)
Fixpoint block_end (rest : list string) (indent end_ : nat) : nat :=
  match rest with
  | [] => end_
  | l :: rest' =>
      if is_empty (strip l) then block_end rest' indent (S end_)
      else if (indent_width l <=? indent)%nat then end_
      else block_end rest' indent (S end_)
  end.

Fixpoint find_class_block_from (lines : list string) (class_name : string)
    (idx : nat) : option (nat * nat) :=
  match lines with
  | [] => None
  | line :: lines' =>
      if startswith ("class " ++ class_name) line
      then Some (idx, block_end lines' (indent_width line) (S idx))
      else find_class_block_from lines' class_name (S idx)
  end.

Definition find_class_block (lines : list string) (class_name : string)
    : option (nat * nat) :=
  find_class_block_from lines class_name 0.

(** [ensure_eventlet_already_handled].  When the class block lacks one of
    the two markers, the source goes on to build [new_block] (lines 175-191),
    an expression in which [newline] stands directly before the string
    literal of the next line: Python has no such expression.  The branch has
    no value to write, and ends in [Unparsable]. *)
Definition ensure_eventlet_already_handled (path : string) (s : Session)
    : result :=
  match read_text (s_files s) path with
  | inl e => Raised e (s_files s)
  | inr content =>
      let lines := splitlines content in
      match find_class_block lines "_AlreadyHandledResponse" with
      | None => Ok s
      | Some (start, end_) =>
          let block_text := join "" (firstn (end_ - start) (skipn start lines)) in
          if contains "eventlet.wsgi" block_text
             && contains "ALREADY_HANDLED" block_text
          then Ok s
          else Unparsable
      end
  end.

Definition ensure_dnspython_compat (path : string) (s : Session) : result :=
  match read_text (s_files s) path with
  | inl e => Raised e (s_files s)
  | inr content =>
      if contains "dnspython_compat.patch_eventlet_dnspython()" content
      then Ok s
      else if negb (contains ("    import eventlet" ++ LF) content) then Ok s
      else
        let crlf := contains CRLF content in
        let newline := if crlf then CRLF else LF in
        let target_line := "    import eventlet" ++ newline in
        let insertion :=
          target_line ++ "    from ryu.lib import dnspython_compat" ++ newline
          ++ "    dnspython_compat.patch_eventlet_dnspython()" ++ newline in
        let '(fs, st) := ensure_backup (s_files s) path (s_state s) in
        let new_content := replace_first target_line insertion content in
        Ok (mkSession (write_text fs path new_content) st
              (s_changes s ++
               [mkChangeRecord path
                  "Inserted dnspython tlsabase compatibility hook"]))
  end.

Definition REQUIREMENT_TOKENS : list string :=
  ["=="; ">="; "<="; "~="; "<"; ">"].

Fixpoint name_before_token (tokens : list string) (name : string) : string :=
  match tokens with
  | [] => lower (strip name)
  | token :: tokens' =>
      match split_once token name with
      | Some (before, _) => lower (strip before)
      | None => name_before_token tokens' name
      end
  end.

Definition normalize_requirement_line (line : string) : option string :=
  let stripped := strip line in
  if is_empty stripped || startswith "#" stripped then None
  else
    let name := hd "" (split_char ";" stripped) in
    Some (name_before_token REQUIREMENT_TOKENS name).

(** [REQUIRED_DEPENDENCIES.get(name)] *)
Definition required_spec (name : string) : option string :=
  snd <$> List.find (fun e => String.eqb (fst e) name) REQUIRED_DEPENDENCIES.

(** The loop of [update_requirements] over [lines]: [updated_lines] and the
    keys of [existing_names]. *)
Fixpoint update_lines (lines : list string) : list string * list string :=
  match lines with
  | [] => ([], [])
  | line :: lines' =>
      let '(updated_lines, existing_names) := update_lines lines' in
      match normalize_requirement_line line with
      | Some name =>
          match (if is_empty name then None else required_spec name) with
          | Some spec => ((name ++ spec) :: updated_lines, name :: existing_names)
          | None => (line :: updated_lines, existing_names)
          end
      | None => (line :: updated_lines, existing_names)
      end
  end.

Definition new_requirements (lines : list string) : string :=
  let required_lines :=
    REQUIREMENTS_HEADER :: "" ::
    map (fun e => fst e ++ snd e) REQUIRED_DEPENDENCIES in
  let '(updated_lines, existing_names) := update_lines lines in
  let missing :=
    List.filter (fun e => negb (bool_decide (fst e ∈ existing_names)))
      REQUIRED_DEPENDENCIES in
  let updated_lines :=
    if bool_decide (missing = []) then updated_lines
    else
      ((if is_empty (strip (List.last updated_lines ""))
        then updated_lines else updated_lines ++ [""])
       ++ required_lines)%list in
  rstrip (join LF updated_lines) ++ LF.

Definition update_requirements (path : string) (s : Session) : result :=
  let fs := s_files s in
  let present := exists_file fs path in
  let content := if present then universal_newlines (default "" (fs !! path)) else "" in
  let lines := if present then splitlines_plain content else [] in
  let new_content := new_requirements lines in
  if String.eqb new_content content then Ok s
  else
    let '(fs, st) :=
      if present then ensure_backup fs path (s_state s)
      else (fs, add_created path (s_state s)) in
    Ok (mkSession (write_text fs path new_content) st
          (s_changes s ++
           [mkChangeRecord path
              "Updated requirements with modernization-compatible versions"])).

(** *** The report *)

Record Dependency :=
  mkDependency { required : string; installed : option string; status : string }.

Record Tests :=
  mkTests { t_command : string; t_status : string; t_output : string }.

Record Summary :=
  mkSummary { python_ok : bool; dependencies_ok : bool;
              patches_applied : bool; tests_status : string }.

Record Report :=
  mkReport { r_timestamp : string; r_python_version : string;
             r_python_issue : option string;
             r_dependencies : list (string * Dependency);
             r_changes : list ChangeRecord; r_tests : Tests;
             r_summary : Summary }.

(** What a session reads from outside the tree: the interpreter, the
    installed packages, the clock, the outcome of the test command (status
    and output, for a command that is not empty; the command is taken not to
    write into the tree), and the JSON text of a report, whose serialiser is
    not modelled. *)
Record Env :=
  mkEnv { check_python_version : option string;
          python_version : string;
          check_dependencies : list (string * Dependency);
          now : string;
          subprocess_run : list string -> string * string;
          json_dumps : Report -> string }.

Definition run_tests (env : Env) (command : list string) : Tests :=
  match command with
  | [] => mkTests (join " " command) "skipped" ""
  | _ => let '(st, out) := subprocess_run env command in
         mkTests (join " " command) st out
  end.

Definition py_bool (b : bool) : string := if b then "True" else "False".

Definition py_opt (o : option string) : string := default "None" o.

Definition report_text (r : Report) : string :=
  let lines : list string :=
    concat
      [ [ "Ryu modernization report (" ++ r_timestamp r ++ ")"; "";
          "Python version: " ++ r_python_version r ];
        match r_python_issue r with
        | Some issue => if is_empty issue then [] else ["Python issue: " ++ issue]
        | None => []
        end;
        [""; "Dependency status:"];
        map (fun e => "- " ++ fst e ++ ": " ++ status (snd e) ++ " (installed="
                      ++ py_opt (installed (snd e)) ++ ", required="
                      ++ required (snd e) ++ ")")
            (r_dependencies r);
        [""; "Changes applied:"];
        match r_changes r with
        | [] => ["- No changes needed."]
        | cs => map (fun c => "- " ++ path c ++ ": " ++ description c) cs
        end;
        [""; "Tests:";
         "- " ++ t_status (r_tests r) ++ ": " ++ t_command (r_tests r)];
        if is_empty (t_output (r_tests r)) then []
        else ["Output:"; t_output (r_tests r)];
        [""; "Compatibility summary:";
         "- python_ok: " ++ py_bool (python_ok (r_summary r));
         "- dependencies_ok: " ++ py_bool (dependencies_ok (r_summary r));
         "- patches_applied: " ++ py_bool (patches_applied (r_summary r));
         "- tests_status: " ++ tests_status (r_summary r) ] ] in
  strip (join LF lines) ++ LF.

Definition backup_or_register (fs : tree) (p : string) (st : State)
    : tree * State :=
  if exists_file fs p then ensure_backup fs p st else (fs, add_created p st).

Definition write_report (env : Env) (tests : Tests) (s : Session) : result :=
  let changes := s_changes s in
  let summary :=
    mkSummary (bool_decide (check_python_version env = None))
      (forallb (fun e => String.eqb (status (snd e)) "ok") (check_dependencies env))
      (negb (bool_decide (changes = [])))
      (t_status tests) in
  let report :=
    mkReport (now env) (python_version env) (check_python_version env)
      (check_dependencies env) changes tests summary in
  let '(fs, st) := backup_or_register (s_files s) REPORT_JSON (s_state s) in
  let '(fs, st) := backup_or_register fs REPORT_TXT st in
  let fs := write_text fs REPORT_JSON (json_dumps env report) in
  let fs := write_text fs REPORT_TXT (report_text report) in
  Ok (mkSession fs st changes).

(** *** Rollback *)

(** The text of a path up to and including its last [/], and the final
    component [path.name]. *)
Fixpoint split_name (p : string) : string * string :=
  match p with
  | "" => ("", "")
  | String c p' =>
      let '(d, n) := split_name p' in
      if is_empty d then
        if Ascii.eqb c "/"%char then (String c "", n) else ("", String c n)
      else (String c d, n)
  end.

(** [backup_path.with_name(backup_path.name[: -len(BACKUP_EXT)])];
    [with_name] refuses an empty name. *)
Definition original_of (backup_str : string) : exn + string :=
  let '(d, name) := split_name backup_str in
  let stem := take (String.length name - String.length BACKUP_EXT) name in
  if is_empty stem then inl (ValueError "Invalid name") else inr (d ++ stem).

Fixpoint restore_backups (fs : tree) (bs : list string) : tree * option exn :=
  match bs with
  | [] => (fs, None)
  | backup_str :: bs' =>
      if negb (exists_file fs backup_str) then restore_backups fs bs'
      else
        match original_of backup_str with
        | inl e => (fs, Some e)
        | inr original =>
            restore_backups (delete backup_str (copy2 fs backup_str original)) bs'
        end
  end.

Fixpoint remove_created (fs : tree) (cs : list string) : tree :=
  match cs with
  | [] => fs
  | created :: cs' =>
      remove_created (if exists_file fs created then delete created fs else fs) cs'
  end.

(** How a command ends: the exit code it returns, or an exception that
    nothing catches.  [NoOutcome] stands for a run of [apply] that reaches the
    expression without value: the source says nothing of it. *)
Inductive status_code :=
  | Exit (code : nat)
  | Traceback (e : exn)
  | NoOutcome.

(** [rollback]: the world afterwards, the lines printed, and the end. *)
Definition rollback (w : World) : World * list string * status_code :=
  match ledger w with
  | None => (w, ["No modernization state found; nothing to rollback."], Exit 0)
  | Some st =>
      match restore_backups (files w) (backups st) with
      | (fs, Some e) => (mkWorld fs (ledger w), [], Traceback e)
      | (fs, None) =>
          (mkWorld (remove_created fs (created_files st)) None,
           ["Rollback completed."], Exit 0)
      end
  end.

(** *** Apply *)

Definition collections_patch (s : Session) : result :=
  let '(fs, st, log_path) := apply_collections_fix (s_files s) (s_state s) in
  Ok (mkSession fs st
        (s_changes s ++
         match log_path with
         | Some l => [mkChangeRecord l "Collections import fix log generated"]
         | None => []
         end)).

Definition tests_of (env : Env) (test_command : option string)
    (skip_tests : bool) : Tests :=
  if skip_tests then mkTests "" "skipped" ""
  else
    match test_command with
    | Some c => if is_empty c then run_tests env ["./run_tests.sh"]
                else run_tests env (split_ws c)
    | None => run_tests env ["./run_tests.sh"]
    end.

(** The mutating steps of [apply], in order; [save_state] comes after the
    last of them. *)
Definition patches (env : Env) (test_command : option string)
    (skip_tests : bool) : list (Session -> result) :=
  [ collections_patch;
    ensure_eventlet_already_handled "ryu/app/wsgi.py";
    ensure_dnspython_compat "ryu/lib/hub.py";
    update_requirements "requirements.txt";
    write_report env (tests_of env test_command skip_tests) ].

Fixpoint run_patches (ps : list (Session -> result)) (s : Session) : result :=
  match ps with
  | [] => Ok s
  | p :: ps' =>
      match p s with
      | Ok s' => run_patches ps' s'
      | Raised e fs => Raised e fs
      | Unparsable => Unparsable
      end
  end.

Definition start (w : World) : Session := mkSession (files w) (load_state w) [].

(** [apply]: the world afterwards, the lines printed, and the end.
    [save_state] is the last call before the lines are printed; an exception
    leaves the function before it.  With [NoOutcome] the world and the lines
    are those of the start and say nothing. *)
Definition apply (env : Env) (w : World) (test_command : option string)
    (skip_tests : bool) : World * list string * status_code :=
  match run_patches (patches env test_command skip_tests) (start w) with
  | Raised e fs => (mkWorld fs (ledger w), [], Traceback e)
  | Ok s =>
      (save_state (mkWorld (s_files s) (ledger w)) (s_state s),
       [ "Modernization complete. Report written to:";
         "- " ++ REPORT_JSON; "- " ++ REPORT_TXT ],
       Exit 0)
  | Unparsable => (w, [], NoOutcome)
  end.

End Modernize.

(** ** The lines of the requirements file

    What [update_requirements] does to one line, and the lines that are left
    of a list of lines when the text they are joined to is stripped at its
    end. *)

Module RequirementsText.

Import Modernize.

(** The line the loop of [update_requirements] appends for [line]. *)
Definition updated_line (line : string) : string :=
  match normalize_requirement_line line with
  | Some name =>
      match (if is_empty name then None else required_spec name) with
      | Some spec => name ++ spec
      | None => line
      end
  | None => line
  end.

(** The lines of [LF.join(lines).rstrip()]: the blank lines at the end are
    dropped, and the last line left is stripped at its end. *)
Fixpoint rstrip_lines (lines : list string) : list string :=
  match lines with
  | [] => []
  | l :: lines' =>
      match rstrip_lines lines' with
      | [] => if is_empty (rstrip l) then [] else [rstrip l]
      | r => l :: r
      end
  end.

End RequirementsText.

(** ** ryu/lib/dnspython_compat.py: the registry of import finders *)

Module DnspythonCompat.

Definition _ALIAS : string := "dns.rdtypes.tlsabase".
Definition _TARGET : string := "dns.rdtypes.tlsa_base".

(** An entry of [sys.meta_path]: an [_AliasModuleFinder] with its alias and
    target, or any other finder. *)
Inductive finder :=
  | AliasModuleFinder (alias target : string)
  | OtherFinder (name : string).

(** [isinstance(finder, _AliasModuleFinder) and finder._alias == _ALIAS] *)
Definition is_alias_finder (f : finder) : bool :=
  match f with
  | AliasModuleFinder alias _ => String.eqb alias _ALIAS
  | OtherFinder _ => false
  end.

(** [_install_alias_importer], on the list [sys.meta_path]. *)
Definition _install_alias_importer (meta_path : list finder) : list finder :=
  if existsb is_alias_finder meta_path then meta_path
  else AliasModuleFinder _ALIAS _TARGET :: meta_path.

(** [find_spec] of a finder of the class: [target_found] tells whether
    [importlib.util.find_spec] finds the target; the result is the name the
    spec is made for. *)
Definition find_spec (alias target : string) (target_found : string -> bool)
    (fullname : string) : option string :=
  if negb (String.eqb fullname alias) then None
  else if negb (target_found target) then None
  else Some fullname.

End DnspythonCompat.

(** ** The missing-import rule

    The three forms an import line of the [collections] family keeps through
    the usage substitutions. *)

Module Shapes.

Import Fixer.

(** [from collections import], as [COLLECTIONS_IMPORT_RE] accepts it. *)
Definition shape_from (s : string) : Prop :=
  ∃ ws w1 w2 t,
    all_space ws = true ∧ all_space w1 = true ∧ w1 ≠ "" ∧
    all_space w2 = true ∧ w2 ≠ "" ∧ word_end t = true ∧
    s = ws ++ "from" ++ w1 ++ "collections" ++ w2 ++ "import" ++ t.

(** [import collections], as [COLLECTIONS_IMPORT_RE] accepts it. *)
Definition shape_import (s : string) : Prop :=
  ∃ ws w1 t,
    all_space ws = true ∧ all_space w1 = true ∧ w1 ≠ "" ∧ word_end t = true ∧
    s = ws ++ "import" ++ w1 ++ "collections" ++ t.

(** [from collections.abc import], as [COLLECTIONS_ABC_IMPORT_RE] accepts
    it. *)
Definition shape_from_abc (s : string) : Prop :=
  ∃ ws w1 w2 t,
    all_space ws = true ∧ all_space w1 = true ∧ w1 ≠ "" ∧
    all_space w2 = true ∧ w2 ≠ "" ∧ word_end t = true ∧
    s = ws ++ "from" ++ w1 ++ "collections.abc" ++ w2 ++ "import" ++ t.

Definition shape (s : string) : Prop :=
  shape_from s ∨ shape_import s ∨ shape_from_abc s.

(** The last line of [lines] that [COLLECTIONS_IMPORT_RE] accepts, with the
    lines before and after it. *)
Definition last_import (lines pre : list string) (l : string)
    (post : list string) : Prop :=
  lines = (pre ++ l :: post)%list ∧ COLLECTIONS_IMPORT_RE l = true ∧
  Forall (λ x, COLLECTIONS_IMPORT_RE x = false) post.

End Shapes.

(** ** The protocol of the orchestrator

    Every patch after the collections fix changes the tree and the ledger
    through three operations only: [ensure_backup], the registration of a
    file about to be created, and the write of a file that has a backup or
    is registered as created. *)

Module Protocol.

Import Fixer Modernize.

Definition is_backup_name (p : string) : bool := endswith BACKUP_EXT p.

(** The final component of the path is not empty. *)
Definition has_name (p : string) : bool := negb (is_empty (split_name p).2).

Inductive step : tree * State → tree * State → Prop :=
  | step_backup fs st p :
      is_backup_name p = false → has_name p = true →
      step (fs, st) (ensure_backup fs p st)
  | step_created fs st p :
      is_backup_name p = false → fs !! p = None →
      step (fs, st) (fs, add_created p st)
  | step_write fs st p content :
      is_backup_name p = false →
      (p ∈ created_files st ∨ is_Some (fs !! (p ++ BACKUP_EXT))) →
      step (fs, st) (write_text fs p content, st).

Definition steps : relation (tree * State) := rtc step.


(** A file that may be written: it is registered as created, or its backup
    exists. *)
Definition protected (fs : tree) (st : State) (p : string) : Prop :=
  p ∈ created_files st ∨ is_Some (fs !! (p ++ BACKUP_EXT)).

Definition session_pair (s : Session) : tree * State := (s_files s, s_state s).

End Protocol.

(** ** Rollback after apply

    The relation between the tree a session started from, the tree as it is
    now, and the ledger: whatever differs from the start is covered by a
    backup or registered as created. *)

Module Lossless.

Import Fixer Modernize Protocol.

Definition no_slash (e : string) : bool :=
  all_chars (λ c, negb (Ascii.eqb c "/"%char)) e.

(** A tree a first session can start from: no file carries the backup
    suffix, and the log of the collections fix does not exist. *)
Definition fresh (fs : tree) : Prop :=
  map_Forall (λ q _, is_backup_name q = false) fs ∧
  fs !! COLLECTIONS_LOG = None.

Record covered (fs0 fs : tree) (st : State) : Prop := mkCovered {
  cov_absent : ∀ q,
    is_backup_name q = false → fs0 !! q = None →
    fs !! q = None ∨ q ∈ created_files st;
  cov_present : ∀ q v,
    is_backup_name q = false → fs0 !! q = Some v →
    is_Some (fs !! q) ∧ (fs !! q = Some v ∨ fs !! (q ++ BACKUP_EXT) = Some v);
  cov_backup : ∀ b,
    is_backup_name b = true → is_Some (fs !! b) →
    b ∈ backups st ∧
    ∃ p, b = p ++ BACKUP_EXT ∧ is_backup_name p = false ∧
         original_of b = inr p ∧
         (fs !! b = fs0 !! p ∨ p ∈ created_files st);
  cov_created : ∀ c,
    c ∈ created_files st → is_backup_name c = false ∧ fs0 !! c = None;
  cov_names : ∀ b, b ∈ backups st → is_backup_name b = true;
  cov_fresh : ∀ q, is_backup_name q = true → fs0 !! q = None
}.

(** The fixer at work on the files still to process: what it has changed has
    its backup, and the files to come are as they were. *)
Record fixing (fs0 fs : tree) (todo : list string) : Prop := mkFixing {
  fix_other : ∀ q,
    is_backup_name q = false → q ≠ COLLECTIONS_LOG →
    match fs0 !! q with
    | None => fs !! q = None
    | Some v => is_Some (fs !! q) ∧
                (fs !! q = Some v ∨ fs !! (q ++ BACKUP_EXT) = Some v)
    end;
  fix_backup : ∀ b,
    is_backup_name b = true → is_Some (fs !! b) →
    ∃ p, b = p ++ BACKUP_EXT ∧ is_backup_name p = false ∧
         original_of b = inr p ∧ fs !! b = fs0 !! p;
  fix_todo : ∀ p,
    p ∈ todo → fs !! p = fs0 !! p ∧ fs !! (p ++ BACKUP_EXT) = None
}.

End Lossless.

(** ** Concrete trees and environments used in the examples *)

Module Examples.

Import Fixer Modernize.

Definition env0 : Env :=
  mkEnv None "3.11.2"
    [("eventlet", mkDependency ">=0.33.3" (Some "0.33.3") "ok")]
    "2024-01-01T00:00:00+00:00"
    (fun _ => ("passed", ""))
    (fun _ => "{}").

Definition wsgi_py : string :=
  "import os" ++ LF ++ "class _AlreadyHandledResponse(Response):" ++ LF
  ++ "    pass" ++ LF ++ LF ++ "x = 1" ++ LF.

Definition hub_py : string :=
  "if x:" ++ LF ++ "    import eventlet" ++ LF ++ "    y = 2" ++ LF.

Definition a_py : string :=
  "from collections import OrderedDict, MutableMapping" ++ LF.

(** A fresh tree: both patch targets, one module for the fixer. *)
Definition fresh_tree : tree :=
  list_to_map [ ("ryu/app/wsgi.py", wsgi_py); ("ryu/lib/hub.py", hub_py);
                ("ryu/a.py", a_py) ].

(** The same tree without the target of the eventlet patch. *)
Definition tree_without_wsgi : tree := delete "ryu/app/wsgi.py" fresh_tree.

(** [hub.py] was edited after an earlier session left its backup behind. *)
Definition tree_with_stale_backup : tree :=
  <["ryu/lib/hub.py.ryu-modernize.bak" := "# first version" ++ LF]> fresh_tree.

(** A module that needs no rewriting. *)
Definition clean_tree : tree := {[ "ryu/b.py" := "x = 1" ++ LF ]}.

(** A module whose backup name and first numbered name are taken. *)
Definition crowded_tree : tree :=
  list_to_map [ ("ryu/a.py", a_py); ("ryu/a.py.bak", "one");
                ("ryu/a.py.bak.1", "two") ].

(** A statement split in two on a last line without a line ending. *)
Definition unterminated : string :=
  "from collections import OrderedDict, MutableMapping".

(** [wsgi.py] with a class block that holds both markers of the eventlet
    patch: the patch has nothing to do. *)
Definition handled_wsgi_py : string :=
  "import os" ++ LF ++ "class _AlreadyHandledResponse(Response):" ++ LF
  ++ "    import eventlet.wsgi" ++ LF
  ++ "    _ALREADY_HANDLED = eventlet.wsgi.ALREADY_HANDLED" ++ LF ++ LF
  ++ "x = 1" ++ LF.

(** A fresh tree on which [apply] completes: the class block of [wsgi.py] is
    handled, [hub.py] waits for the dnspython hook, [a.py] for the fixer. *)
Definition ready_tree : tree :=
  list_to_map [ ("ryu/app/wsgi.py", handled_wsgi_py);
                ("ryu/lib/hub.py", hub_py); ("ryu/a.py", a_py);
                ("README.rst", "Ryu" ++ LF) ].

(** The same tree after an earlier session left the backup of [hub.py]
    behind and [hub.py] was edited. *)
Definition ready_tree_with_stale_backup : tree :=
  <["ryu/lib/hub.py.ryu-modernize.bak" := "# first version" ++ LF]> ready_tree.


(** A module that imports [collections] inside a function. *)
Definition local_import_py : string :=
  "def f():" ++ LF ++ "    import collections" ++ LF
  ++ "    return collections.OrderedDict()" ++ LF.

(** A module whose only line, an import of [collections], has no line
    ending. *)
Definition unterminated_import : string := "import collections".

End Examples.

(** ** Facts about strings *)

Section StringFacts.

Lemma append_cons (c : ascii) (s t : string) :
  String c s ++ t = String c (s ++ t).
Proof. reflexivity. Qed.

Lemma append_nil_l (t : string) : "" ++ t = t.
Proof. reflexivity. Qed.

Lemma append_nil_r (s : string) : s ++ "" = s.
Proof.
  induction s as [|c s IH]; [done|]. by rewrite append_cons, IH.
Qed.

Lemma append_assoc (a b c : string) : (a ++ b) ++ c = a ++ b ++ c.
Proof.
  induction a as [|x a IH]; [done|]. by rewrite !append_cons, IH.
Qed.

Lemma length_append (a b : string) :
  String.length (a ++ b) = (String.length a + String.length b)%nat.
Proof.
  induction a as [|x a IH]; [done|]. rewrite append_cons. simpl. by rewrite IH.
Qed.

Lemma drop_append (a b : string) : Py.drop (String.length a) (a ++ b) = b.
Proof.
  induction a as [|x a IH]; [done|]. rewrite append_cons. simpl. done.
Qed.

Lemma take_append (a b : string) : Py.take (String.length a) (a ++ b) = a.
Proof.
  induction a as [|x a IH]; [by destruct b|].
  rewrite append_cons. simpl. by rewrite IH.
Qed.

Lemma endswith_append (a e : string) : endswith e (a ++ e) = true.
Proof.
  unfold endswith. rewrite length_append.
  replace (String.length a + String.length e - String.length e)%nat
    with (String.length a) by lia.
  rewrite drop_append, String.eqb_refl.
  apply andb_true_intro; split; [apply Nat.leb_le; lia | done].
Qed.

Lemma append_inj_r (a b e : string) : a ++ e = b ++ e → a = b.
Proof.
  revert b. induction a as [|x a IH]; intros [|y b] H.
  - done.
  - apply (f_equal String.length) in H.
    rewrite !length_append in H. simpl in H. lia.
  - apply (f_equal String.length) in H.
    rewrite !length_append in H. simpl in H. lia.
  - rewrite !append_cons in H. injection H as -> H. f_equal. by apply IH.
Qed.

Lemma strip_prefix_Some (p s r : string) :
  strip_prefix p s = Some r ↔ s = p ++ r.
Proof.
  revert s. induction p as [|a p IH]; intros s; simpl.
  - rewrite append_nil_l. split; [by intros [= ->] | by intros ->].
  - rewrite append_cons. destruct s as [|b s]; [split; discriminate|].
    destruct (Ascii.eqb_spec a b) as [->|Hne].
    + rewrite IH. split; [by intros -> | by intros [= ->]].
    + split; [discriminate | intros [= ? ?]; congruence].
Qed.

Lemma strip_prefix_append (p r : string) : strip_prefix p (p ++ r) = Some r.
Proof. by apply strip_prefix_Some. Qed.

Lemma startswith_strip_prefix (p s : string) :
  startswith p s = is_Some_b (strip_prefix p s).
Proof.
  revert s. induction p as [|a p IH]; intros [|b s]; simpl; try done.
  destruct (Ascii.eqb a b); simpl; [apply IH | done].
Qed.

End StringFacts.

(** ** The backup names of the fixer *)

Section BackupPath.

Import Fixer.

Implicit Types (fs : tree) (path ext : string).

Lemma numbered_inj path ext : Inj (=) (=) (numbered path ext).
Proof.
  intros j k H. unfold numbered in H.
  do 3 apply String.app_inj in H. by apply pretty_nat_inj in H.
Qed.

Lemma exists_file_true fs p : exists_file fs p = true ↔ is_Some (fs !! p).
Proof. unfold exists_file. apply bool_decide_eq_true. Qed.

Lemma exists_file_false fs p : exists_file fs p = false ↔ fs !! p = None.
Proof.
  unfold exists_file. rewrite bool_decide_eq_false, eq_None_not_Some. done.
Qed.

Lemma backup_path_loop_Some fs path ext fuel c b :
  backup_path_loop fs path ext fuel c = Some b →
  fs !! b = None ∧
  ∃ k, (c ≤ k < c + fuel)%nat ∧ b = numbered path ext k ∧
       ∀ j, (c ≤ j < k)%nat → is_Some (fs !! numbered path ext j).
Proof.
  revert c. induction fuel as [|fuel IH]; intros c; simpl; [done|].
  destruct (exists_file fs (numbered path ext c)) eqn:E.
  - intros H. destruct (IH _ H) as (Hb & k & Hk & -> & Hj).
    split; [done|]. exists k. split; [lia|]. split; [done|].
    intros j Hjk. destruct (decide (j = c)) as [->|].
    + by apply exists_file_true.
    + apply Hj. lia.
  - intros [= <-]. apply exists_file_false in E. split; [done|].
    exists c. split; [lia|]. split; [done|]. intros j ?. lia.
Qed.

Lemma backup_path_loop_total fs path ext fuel c k :
  (c ≤ k < c + fuel)%nat → fs !! numbered path ext k = None →
  is_Some (backup_path_loop fs path ext fuel c).
Proof.
  revert c. induction fuel as [|fuel IH]; intros c Hk Hfree; simpl; [lia|].
  destruct (exists_file fs (numbered path ext c)) eqn:E; [|by eexists].
  apply IH; [|done]. destruct (decide (k = c)) as [->|]; [|lia].
  apply exists_file_true in E. rewrite Hfree in E. by destruct E.
Qed.

(** Among [n + 1] distinct names, a tree of [n] files misses one. *)
Lemma free_name_among fs (names : list string) :
  NoDup names → (size fs < length names)%nat →
  ∃ x, x ∈ names ∧ fs !! x = None.
Proof.
  intros Hnd Hlen.
  destruct (decide (Exists (λ x, fs !! x = None) names)) as [Hex|Hno].
  - apply Exists_exists in Hex. destruct Hex as (x & Hx & Hfree). eauto.
  - exfalso. apply not_Exists_Forall in Hno; [|intros x; apply _].
    assert (names ⊆+ (map_to_list fs).*1) as Hsub.
    { apply NoDup_submseteq; [done|]. intros x Hx.
      rewrite Forall_forall in Hno. specialize (Hno x Hx). simpl in Hno.
      destruct (fs !! x) as [v|] eqn:Hv; [|done].
      apply list_elem_of_fmap. exists (x, v). split; [done|].
      by apply elem_of_map_to_list. }
    apply submseteq_length in Hsub.
    rewrite length_fmap, length_map_to_list in Hsub. lia.
Qed.

Lemma backup_path_search_total fs path ext :
  is_Some (backup_path_search fs path ext).
Proof.
  unfold backup_path_search.
  destruct (exists_file fs (path ++ ext)); cbn [negb]; [|by eexists].
  destruct (free_name_among fs (numbered path ext <$> seq 1 (S (size fs))))
    as (x & Hx & Hfree).
  - apply NoDup_fmap_2; [apply numbered_inj | apply NoDup_seq].
  - rewrite length_fmap, length_seq. lia.
  - apply list_elem_of_fmap in Hx. destruct Hx as (k & -> & Hk).
    apply elem_of_seq in Hk.
    apply (backup_path_loop_total fs path ext _ 1 k); [lia | done].
Qed.

(** The name [backup_path] returns is free, and it is the plain backup name
    or the first free numbered one. *)
Lemma backup_path_spec fs path ext :
  let b := backup_path fs path ext in
  fs !! b = None ∧
  ((b = path ++ ext) ∨
   (is_Some (fs !! (path ++ ext)) ∧
    ∃ k, (1 ≤ k)%nat ∧ b = numbered path ext k ∧
         ∀ j, (1 ≤ j < k)%nat → is_Some (fs !! numbered path ext j))).
Proof.
  unfold backup_path.
  destruct (backup_path_search_total fs path ext) as [b Hb]. rewrite Hb.
  cbn [default from_option id]. unfold backup_path_search in Hb.
  destruct (exists_file fs (path ++ ext)) eqn:E; cbn [negb] in Hb.
  - apply backup_path_loop_Some in Hb. destruct Hb as (Hfree & k & Hk & -> & Hj).
    split; [done|]. right. split; [by apply exists_file_true|].
    exists k. split; [lia|]. split; [done|]. intros j ?. apply Hj. lia.
  - injection Hb as <-. apply exists_file_false in E. by split; [|left].
Qed.

End BackupPath.

(** ** Frame properties of the backup manager, the fixer and rollback *)

Section Frames.

Import Fixer Modernize Examples.

(** C10.  [ensure_backup] on a path that does not exist, while no backup of
    it exists either, copies nothing and registers nothing: the tree and the
    ledger come back as they were, and no exception is modelled on that
    path. *)
Theorem ensure_backup_missing_noop (fs : tree) (path : string) (st : State) :
  fs !! path = None →
  fs !! (path ++ BACKUP_EXT) = None →
  ensure_backup fs path st = (fs, st).
Proof.
  intros Hp Hb. unfold ensure_backup.
  apply exists_file_false in Hb. apply exists_file_false in Hp.
  by rewrite Hb, Hp.
Qed.

Lemma ensure_backup_missing_noop_witness :
  ensure_backup clean_tree "ryu/lib/hub.py" (mkState ["x"] ["y"])
  = (clean_tree, mkState ["x"] ["y"]).
Proof.
  apply ensure_backup_missing_noop; vm_compute; reflexivity.
Defined.

(** C8.  Without a ledger file, [rollback] returns 0, prints that there is
    nothing to roll back, and leaves every file and the missing ledger as
    they are. *)
Theorem rollback_without_ledger (fs : tree) :
  rollback (mkWorld fs None)
  = (mkWorld fs None,
     ["No modernization state found; nothing to rollback."], Exit 0).
Proof. reflexivity. Qed.

(** C9.  When the rewritten content equals the content read, [process_file]
    returns a result with no changes and [updated = False], and the tree is
    the one it was given: no backup is made and the file is not written.
    Nothing is logged either. *)
Theorem process_file_unchanged (fs : tree) (path : string) (dry_run : bool)
    (backup_ext content : string) :
  read_source fs path = Some content →
  fst (rewrite content) = content →
  process_file fs path dry_run backup_ext
  = (fs, mkFileResult path [] false, []).
Proof.
  intros Hread Hsame. unfold process_file. rewrite Hread.
  destruct (rewrite content) as [updated_content changes]. simpl in Hsame.
  subst updated_content. by rewrite String.eqb_refl.
Qed.

Lemma process_file_unchanged_witness :
  process_file clean_tree "ryu/b.py" false ".bak"
  = (clean_tree, mkFileResult "ryu/b.py" [] false, []).
Proof.
  apply (process_file_unchanged clean_tree "ryu/b.py" false ".bak"
           ("x = 1" ++ LF)); vm_compute; reflexivity.
Defined.

End Frames.

(** ** Backup names when a backup already exists *)

Section Collisions.

Import Fixer Modernize Examples.

(** C3, as stated, fails for the orchestrator: [ensure_backup] on a file
    whose backup name is taken creates no file at all. *)
Lemma ensure_backup_makes_no_second_backup :
  is_Some (tree_with_stale_backup !! "ryu/lib/hub.py") ∧
  is_Some (tree_with_stale_backup !! ("ryu/lib/hub.py" ++ BACKUP_EXT)) ∧
  ¬ ∃ b, tree_with_stale_backup !! b = None ∧
         is_Some (fst (ensure_backup tree_with_stale_backup "ryu/lib/hub.py"
                         (mkState [] [])) !! b).
Proof.
  split; [by vm_compute; eexists|]. split; [by vm_compute; eexists|].
  intros (b & Hfree & Hnew).
  assert (fst (ensure_backup tree_with_stale_backup "ryu/lib/hub.py"
                 (mkState [] [])) = tree_with_stale_backup) as Hsame
    by (vm_compute; reflexivity).
  rewrite Hsame, Hfree in Hnew. by destruct Hnew.
Qed.

(** C3, amended.  In the fixer, a file that is rewritten gets its backup
    under a name that was free: the plain backup name, or, when that one is
    taken, the first free name among the numbered ones; the backup holds the
    content the file had, and every other file of the tree, the earlier
    backups among them, keeps its content.  The orchestrator does not number
    its backups.  On any file whose backup name is taken, [ensure_backup]
    changes no file, and the ledger afterwards is the ledger before, with
    that name added at its end when it was not listed.  So the dnspython
    patch and the requirements update, when they rewrite such a file, change
    the file and nothing else: the earlier backup stays as it is and no
    second backup is made. *)
Theorem backup_collision (fs : tree) (path ext : string) (st : State) :
  (∀ content,
     read_source fs path = Some content →
     fst (rewrite content) ≠ content →
     let b := backup_path fs path ext in
     let fs' := (process_file fs path false ext).1.1 in
     fs !! b = None ∧
     (b = path ++ ext ∨
      (is_Some (fs !! (path ++ ext)) ∧
       ∃ k, (1 ≤ k)%nat ∧ b = numbered path ext k ∧
            ∀ j, (1 ≤ j < k)%nat → is_Some (fs !! numbered path ext j))) ∧
     fs' !! b = fs !! path ∧
     fs' !! path = Some (fst (rewrite content)) ∧
     ∀ q, q ≠ path → q ≠ b → fs' !! q = fs !! q) ∧
  (is_Some (fs !! (path ++ BACKUP_EXT)) →
   ensure_backup fs path st
   = (fs, if bool_decide (path ++ BACKUP_EXT ∈ backups st) then st
          else add_backup (path ++ BACKUP_EXT) st)) ∧
  (∀ s s',
     is_Some (s_files s !! (path ++ BACKUP_EXT)) →
     ensure_dnspython_compat path s = Ok s' ∨
     update_requirements path s = Ok s' →
     ∀ q, q ≠ path → s_files s' !! q = s_files s !! q).
Proof.
  split; [|split].
  - intros content Hread Hdiff.
    destruct (backup_path_spec fs path ext) as [Hfree Hname].
    cbv zeta. split; [exact Hfree|]. split; [exact Hname|].
    unfold process_file. rewrite Hread.
    destruct (rewrite content) as [updated_content changes] eqn:Hrw.
    cbn [fst] in Hdiff. apply String.eqb_neq in Hdiff. rewrite Hdiff.
    cbn [fst snd].
    unfold read_source in Hread.
    destruct (fs !! path) as [v|] eqn:Hv; [|discriminate].
    assert (path ≠ backup_path fs path ext) as Hne.
    { intros Heq. rewrite <- Heq, Hv in Hfree. discriminate. }
    unfold copy2. rewrite Hv.
    split; [rewrite lookup_insert_ne by exact Hne; apply lookup_insert_eq|].
    split; [apply lookup_insert_eq|].
    intros q Hq Hqb.
    rewrite lookup_insert_ne by congruence.
    apply lookup_insert_ne. congruence.
  - intros Hb. unfold ensure_backup.
    apply exists_file_true in Hb. rewrite Hb. reflexivity.
  - intros s s' Hb Hrun q Hq.
    assert (ensure_backup (s_files s) path (s_state s)
            = (s_files s,
               if bool_decide (path ++ BACKUP_EXT ∈ backups (s_state s))
               then s_state s
               else add_backup (path ++ BACKUP_EXT) (s_state s))) as Hkeep.
    { unfold ensure_backup. apply exists_file_true in Hb. rewrite Hb.
      reflexivity. }
    destruct Hrun as [Hrun|Hrun].
    + unfold ensure_dnspython_compat in Hrun.
      destruct (read_text (s_files s) path) as [e|content]; [discriminate|].
      destruct (contains "dnspython_compat.patch_eventlet_dnspython()" content);
        [injection Hrun as <-; reflexivity|].
      destruct (negb _); [injection Hrun as <-; reflexivity|].
      rewrite Hkeep in Hrun. injection Hrun as <-. cbn [s_files].
      unfold write_text. apply lookup_insert_ne. congruence.
    + unfold update_requirements in Hrun. cbv zeta in Hrun.
      destruct (String.eqb _ _); [injection Hrun as <-; reflexivity|].
      rewrite Hkeep in Hrun.
      destruct (exists_file (s_files s) path); injection Hrun as <-;
        cbn [s_files]; unfold write_text; apply lookup_insert_ne; congruence.
Qed.

Lemma backup_collision_witness :
  (crowded_tree !! backup_path crowded_tree "ryu/a.py" ".bak" = None ∧
   backup_path crowded_tree "ryu/a.py" ".bak" = "ryu/a.py.bak.2") ∧
  ensure_backup tree_with_stale_backup "ryu/lib/hub.py" (mkState [] [])
  = (tree_with_stale_backup, mkState ["ryu/lib/hub.py" ++ BACKUP_EXT] []).
Proof.
  split.
  - assert (read_source crowded_tree "ryu/a.py" = Some a_py) as Hread
      by (vm_compute; reflexivity).
    assert (fst (rewrite a_py) ≠ a_py) as Hdiff by (vm_compute; discriminate).
    pose proof (backup_collision crowded_tree "ryu/a.py" ".bak" (mkState [] []))
      as [Hfixer _].
    specialize (Hfixer a_py Hread Hdiff).
    cbv zeta in Hfixer. destruct Hfixer as [Hfree _].
    split; [exact Hfree | vm_compute; reflexivity].
  - pose proof (backup_collision tree_with_stale_backup "ryu/lib/hub.py" ""
                  (mkState [] [])) as (_ & Hkeep & _).
    rewrite Hkeep; [reflexivity|]. vm_compute. by eexists.
Defined.

End Collisions.


(** ** Facts about the protocol *)

Section ProtocolFacts.

Import Fixer Modernize Protocol.

Implicit Types (fs : tree) (st : State) (s : Session) (p : string).

Lemma is_backup_name_append p : is_backup_name (p ++ BACKUP_EXT) = true.
Proof. apply endswith_append. Qed.

Lemma not_backup_name_ne p q :
  is_backup_name p = false → p ≠ q ++ BACKUP_EXT.
Proof. intros Hp ->. rewrite is_backup_name_append in Hp. discriminate. Qed.

Lemma ensure_backup_cases fs p st :
  (is_Some (fs !! (p ++ BACKUP_EXT)) ∧
   ensure_backup fs p st
   = (fs, if bool_decide (p ++ BACKUP_EXT ∈ backups st) then st
          else add_backup (p ++ BACKUP_EXT) st)) ∨
  (fs !! (p ++ BACKUP_EXT) = None ∧ fs !! p = None ∧
   ensure_backup fs p st = (fs, st)) ∨
  (∃ v, fs !! (p ++ BACKUP_EXT) = None ∧ fs !! p = Some v ∧
        ensure_backup fs p st
        = (<[p ++ BACKUP_EXT := v]> fs, add_backup (p ++ BACKUP_EXT) st)).
Proof.
  unfold ensure_backup.
  destruct (exists_file fs (p ++ BACKUP_EXT)) eqn:Eb.
  - left. by apply exists_file_true in Eb.
  - apply exists_file_false in Eb. right.
    destruct (exists_file fs p) eqn:Ep; cbn [negb].
    + right. apply exists_file_true in Ep. destruct Ep as [v Hv].
      exists v. unfold copy2. by rewrite Hv.
    + left. by apply exists_file_false in Ep.
Qed.

Lemma ensure_backup_present fs p st :
  is_Some (fs !! p) →
  is_Some ((ensure_backup fs p st).1 !! (p ++ BACKUP_EXT)).
Proof.
  intros Hp.
  destruct (ensure_backup_cases fs p st)
    as [[Hb ->]|[(_ & Hnone & _)|(v & _ & _ & ->)]]; cbn [fst].
  - exact Hb.
  - rewrite Hnone in Hp. by destruct Hp.
  - rewrite lookup_insert_eq. by eexists.
Qed.

Lemma backups_add_backup b st x :
  x ∈ backups (add_backup b st) ↔ x ∈ backups st ∨ x = b.
Proof.
  unfold add_backup. cbn [backups]. rewrite elem_of_app, list_elem_of_singleton.
  done.
Qed.



(** *** The shape of each patch *)

Lemma read_text_inr fs p content :
  read_text fs p = inr content → is_Some (fs !! p).
Proof. unfold read_text. destruct (fs !! p); [by eexists | discriminate]. Qed.

Lemma backup_then_write fs st p content :
  is_backup_name p = false → has_name p = true → is_Some (fs !! p) →
  steps (fs, st)
    (write_text (ensure_backup fs p st).1 p content, (ensure_backup fs p st).2).
Proof.
  intros Hp Hn Hex.
  eapply rtc_l; [apply (step_backup fs st p Hp Hn)|].
  destruct (ensure_backup fs p st) as [fs1 st1] eqn:E. cbn [fst snd].
  apply rtc_once. apply step_write; [exact Hp|]. right.
  pose proof (ensure_backup_present fs p st Hex) as H. by rewrite E in H.
Qed.

Lemma ensure_eventlet_steps p s s' :
  is_backup_name p = false → has_name p = true →
  ensure_eventlet_already_handled p s = Ok s' →
  steps (session_pair s) (session_pair s').
Proof.
  intros Hp Hn. unfold ensure_eventlet_already_handled.
  destruct (read_text (s_files s) p) as [e|content] eqn:Hread; [discriminate|].
  apply read_text_inr in Hread.
  destruct (find_class_block _ _) as [[start end_]|];
    [|intros [= <-]; apply rtc_refl].
  destruct (_ && _); [intros [= <-]; apply rtc_refl|discriminate].
Qed.

Lemma ensure_dnspython_steps p s s' :
  is_backup_name p = false → has_name p = true →
  ensure_dnspython_compat p s = Ok s' →
  steps (session_pair s) (session_pair s').
Proof.
  intros Hp Hn. unfold ensure_dnspython_compat.
  destruct (read_text (s_files s) p) as [e|content] eqn:Hread; [discriminate|].
  apply read_text_inr in Hread.
  destruct (contains "dnspython_compat.patch_eventlet_dnspython()" content);
    [intros [= <-]; apply rtc_refl|].
  destruct (negb _); [intros [= <-]; apply rtc_refl|].
  pose proof (backup_then_write (s_files s) (s_state s) p) as Hsteps.
  destruct (ensure_backup (s_files s) p (s_state s)) as [fs1 st1].
  intros [= <-]. unfold session_pair. cbn [s_files s_state].
  by apply Hsteps.
Qed.

Lemma update_requirements_steps p s s' :
  is_backup_name p = false → has_name p = true →
  update_requirements p s = Ok s' →
  steps (session_pair s) (session_pair s').
Proof.
  intros Hp Hn. unfold update_requirements.
  destruct (String.eqb _ _); [intros [= <-]; apply rtc_refl|].
  destruct (exists_file (s_files s) p) eqn:Hex.
  - apply exists_file_true in Hex.
    pose proof (backup_then_write (s_files s) (s_state s) p) as Hsteps.
    destruct (ensure_backup (s_files s) p (s_state s)) as [fs1 st1].
    intros [= <-]. unfold session_pair. cbn [s_files s_state].
    by apply Hsteps.
  - apply exists_file_false in Hex. intros [= <-].
    unfold session_pair. cbn [s_files s_state].
    eapply rtc_l; [apply (step_created _ _ p Hp Hex)|].
    apply rtc_once. apply step_write; [exact Hp|]. left.
    unfold add_created. cbn [created_files]. apply elem_of_app. right.
    by apply list_elem_of_singleton.
Qed.

Lemma created_add_created c st x :
  x ∈ created_files (add_created c st) ↔ x ∈ created_files st ∨ x = c.
Proof.
  unfold add_created. cbn [created_files].
  rewrite elem_of_app, list_elem_of_singleton. done.
Qed.

Lemma backup_or_register_step fs st p :
  is_backup_name p = false → has_name p = true →
  step (fs, st) (backup_or_register fs p st).
Proof.
  intros Hp Hn. unfold backup_or_register.
  destruct (exists_file fs p) eqn:Hex.
  - by apply step_backup.
  - apply exists_file_false in Hex. by apply step_created.
Qed.

Lemma backup_or_register_protected fs st p :
  protected (backup_or_register fs p st).1 (backup_or_register fs p st).2 p.
Proof.
  unfold backup_or_register, protected.
  destruct (exists_file fs p) eqn:Hex.
  - right. apply ensure_backup_present. by apply exists_file_true.
  - left. cbn [snd]. apply created_add_created. by right.
Qed.

Lemma protected_step fs st fs' st' p :
  step (fs, st) (fs', st') → protected fs st p → protected fs' st' p.
Proof.
  intros Hstep [Hc|Hb]; inversion Hstep; subst.
  - match goal with
    | Heq : ensure_backup _ ?q _ = _ |- _ =>
        destruct (ensure_backup_cases fs q st)
          as [[_ Hcase]|[(_ & _ & Hcase)|(v & _ & _ & Hcase)]];
        rewrite Hcase in Heq; injection Heq as <- <-
    end; left; [case_bool_decide| |]; exact Hc.
  - left. apply created_add_created. by left.
  - by left.
  - match goal with
    | Heq : ensure_backup _ ?q _ = _ |- _ =>
        destruct (ensure_backup_cases fs q st)
          as [[_ Hcase]|[(_ & _ & Hcase)|(v & _ & _ & Hcase)]];
        rewrite Hcase in Heq; injection Heq as <- <-
    end; right; [exact Hb | exact Hb |].
    destruct Hb as [w Hw].
    match goal with |- is_Some (<[?k := _]> _ !! _) =>
      destruct (decide (k = p ++ BACKUP_EXT)) as [->|Hne] end.
    + rewrite lookup_insert_eq. by eexists.
    + rewrite lookup_insert_ne by exact Hne. by eexists.
  - by right.
  - right. unfold write_text. destruct Hb as [w Hw].
    match goal with |- is_Some (<[?k := _]> _ !! _) =>
      destruct (decide (k = p ++ BACKUP_EXT)) as [->|Hne] end.
    + rewrite lookup_insert_eq. by eexists.
    + rewrite lookup_insert_ne by exact Hne. by eexists.
Qed.

Lemma write_report_steps env tests s s' :
  write_report env tests s = Ok s' →
  steps (session_pair s) (session_pair s').
Proof.
  unfold write_report.
  assert (is_backup_name REPORT_JSON = false) as Hj by reflexivity.
  assert (is_backup_name REPORT_TXT = false) as Ht by reflexivity.
  pose proof (backup_or_register_step (s_files s) (s_state s) _ Hj eq_refl)
    as S1.
  pose proof (backup_or_register_protected (s_files s) (s_state s) REPORT_JSON)
    as P1.
  destruct (backup_or_register (s_files s) REPORT_JSON (s_state s))
    as [fs1 st1]. cbn [fst snd] in P1.
  pose proof (backup_or_register_step fs1 st1 _ Ht eq_refl) as S2.
  pose proof (backup_or_register_protected fs1 st1 REPORT_TXT) as P2.
  destruct (backup_or_register fs1 REPORT_TXT st1) as [fs2 st2].
  cbn [fst snd] in P2.
  intros [= <-]. unfold session_pair. cbn [s_files s_state].
  eapply rtc_l; [exact S1|]. eapply rtc_l; [exact S2|].
  pose proof (protected_step _ _ _ _ _ S2 P1) as P1'.
  assert (step (fs2, st2) (write_text fs2 REPORT_JSON
            (json_dumps env
               (mkReport (now env) (python_version env)
                  (check_python_version env) (check_dependencies env)
                  (s_changes s) tests
                  (mkSummary (bool_decide (check_python_version env = None))
                     (forallb (λ e, String.eqb (status e.2) "ok")
                        (check_dependencies env))
                     (negb (bool_decide (s_changes s = [])))
                     (t_status tests)))), st2)) as S3
    by (apply step_write; [exact Hj | exact P1']).
  eapply rtc_l; [exact S3|].
  apply rtc_once. apply step_write; [exact Ht|].
  exact (protected_step _ _ _ _ _ S3 P2).
Qed.

(** *** The collections fix registers every backup file *)

Lemma backups_register_backups found st x :
  x ∈ backups (register_backups found st) ↔ x ∈ backups st ∨ x ∈ found.
Proof.
  revert st. induction found as [|b found IH]; intros st; cbn [register_backups].
  - rewrite elem_of_nil. tauto.
  - rewrite IH, elem_of_cons. case_bool_decide as Hin.
    + split; [tauto|]. intros [?|[->|?]]; tauto.
    + rewrite backups_add_backup. tauto.
Qed.

Lemma created_register_backups found st :
  created_files (register_backups found st) = created_files st.
Proof.
  revert st. induction found as [|b found IH]; intros st; cbn [register_backups];
    [done|]. rewrite IH. by case_bool_decide.
Qed.

Lemma elem_of_rglob_backups fs b :
  b ∈ rglob_backups fs ↔ is_backup_name b = true ∧ is_Some (fs !! b).
Proof.
  unfold rglob_backups. rewrite list_elem_of_In, filter_In, <- list_elem_of_In.
  unfold is_backup_name. split.
  - intros [Hin ->]. split; [done|].
    apply list_elem_of_fmap in Hin. destruct Hin as ([k v] & -> & Hkv).
    apply elem_of_map_to_list in Hkv. by eexists.
  - intros [-> [v Hv]]. split; [|done].
    apply list_elem_of_fmap. exists (b, v). split; [done|].
    by apply elem_of_map_to_list.
Qed.

Lemma apply_collections_fix_result fs st :
  let fs1 := (Fixer.main fs "ryu" false BACKUP_EXT (Some COLLECTIONS_LOG)).1 in
  (apply_collections_fix fs st).1.1 = fs1 ∧
  (∀ x, x ∈ backups (apply_collections_fix fs st).1.2
        ↔ x ∈ backups st ∨ x ∈ rglob_backups fs1) ∧
  (∀ x, x ∈ created_files (apply_collections_fix fs st).1.2
        ↔ x ∈ created_files st ∨ (x = COLLECTIONS_LOG ∧ is_Some (fs1 !! x))).
Proof.
  intros fs1. unfold apply_collections_fix. fold fs1.
  set (st1 := register_backups (rglob_backups fs1) st).
  destruct (exists_file fs1 COLLECTIONS_LOG) eqn:Hex;
    [destruct (bool_decide (COLLECTIONS_LOG ∈ created_files st1)) eqn:Hin|];
    cbn [andb negb fst snd].
  - split; [done|]. split; [apply backups_register_backups|].
    intros x. apply bool_decide_eq_true in Hin. subst st1.
    rewrite created_register_backups in Hin |- *.
    split; [tauto|]. intros [?|[-> _]]; done.
  - split; [done|]. split.
    { intros x. rewrite <- backups_register_backups. done. }
    intros x. rewrite created_add_created. subst st1.
    rewrite created_register_backups. apply exists_file_true in Hex.
    split; [intros [?| ->]; tauto | tauto].
  - split; [done|]. split; [apply backups_register_backups|].
    intros x. subst st1. rewrite created_register_backups.
    apply exists_file_false in Hex. split; [tauto|].
    intros [?|[-> Hs]]; [done|]. rewrite Hex in Hs. by destruct Hs.
Qed.


End ProtocolFacts.

(** ** When the ledger reaches the disk *)

Section Durability.

Import Fixer Modernize Protocol Examples.

Lemma apply_Exit env w test_command skip_tests w' out code :
  apply env w test_command skip_tests = (w', out, Exit code) →
  ∃ s1 s2 s3 s4 s5,
    collections_patch (start w) = Ok s1 ∧
    ensure_eventlet_already_handled "ryu/app/wsgi.py" s1 = Ok s2 ∧
    ensure_dnspython_compat "ryu/lib/hub.py" s2 = Ok s3 ∧
    update_requirements "requirements.txt" s3 = Ok s4 ∧
    write_report env (tests_of env test_command skip_tests) s4 = Ok s5 ∧
    w' = mkWorld (s_files s5) (Some (s_state s5)) ∧ code = 0.
Proof.
  unfold apply, patches, run_patches.
  destruct (collections_patch (start w)) as [s1| |] eqn:H1;
    [|discriminate..].
  destruct (ensure_eventlet_already_handled _ s1) as [s2| |] eqn:H2;
    [|discriminate..].
  destruct (ensure_dnspython_compat _ s2) as [s3| |] eqn:H3;
    [|discriminate..].
  destruct (update_requirements _ s3) as [s4| |] eqn:H4; [|discriminate..].
  destruct (write_report _ _ s4) as [s5| |] eqn:H5; [|discriminate..].
  intros [= <- <- <-]. by exists s1, s2, s3, s4, s5.
Qed.

(** C5: without [ryu/app/wsgi.py], [apply] ends in an uncaught
    [FileNotFoundError] raised by the eventlet patch.  The collections fix
    has run; the patch of [hub.py], the requirements and the reports have
    not, and no ledger is written. *)
Theorem apply_aborts_on_missing_target :
  let r := apply env0 (mkWorld tree_without_wsgi None) None true in
  r.2 = Traceback (FileNotFoundError "ryu/app/wsgi.py") ∧
  r.1.2 = [] ∧
  ledger r.1.1 = None ∧
  files r.1.1 !! "ryu/a.py.ryu-modernize.bak" = Some a_py ∧
  files r.1.1 !! "ryu/lib/hub.py" = Some hub_py ∧
  files r.1.1 !! "requirements.txt" = None ∧
  files r.1.1 !! REPORT_JSON = None ∧
  files r.1.1 !! REPORT_TXT = None.
Proof.
  vm_compute. split; [reflexivity|]. split; [reflexivity|].
  split; [reflexivity|]. split; [reflexivity|]. split; [reflexivity|].
  split; [reflexivity|]. split; reflexivity.
Qed.

(** A tree whose [wsgi.py] has the class block without the markers: [apply]
    reaches the expression without value, and the model says no more. *)
Lemma apply_reaches_the_expression_without_value :
  (apply env0 (mkWorld fresh_tree None) None true).2 = NoOutcome.
Proof. vm_compute. reflexivity. Qed.

(** C2, as stated, fails: with the backup of an earlier session in place,
    [apply] patches [hub.py] without a new backup, and [rollback] puts the
    older content back, not the content [hub.py] had before this [apply].
    The class block of [wsgi.py] is handled in this tree, so the run is one
    of the source. *)
Lemma rollback_restores_the_older_backup :
  let w := mkWorld ready_tree_with_stale_backup None in
  let r := apply env0 w None true in
  r.2 = Exit 0 ∧
  files w !! "ryu/lib/hub.py" = Some hub_py ∧
  files r.1.1 !! "ryu/lib/hub.py" ≠ Some hub_py ∧
  (rollback r.1.1).2 = Exit 0 ∧
  files (rollback r.1.1).1.1 !! "ryu/lib/hub.py" = Some ("# first version" ++ LF) ∧
  files (rollback r.1.1).1.1 !! "ryu/lib/hub.py" ≠ files w !! "ryu/lib/hub.py".
Proof.
  vm_compute. split; [reflexivity|]. split; [reflexivity|].
  split; [discriminate|]. split; [reflexivity|]. split; [reflexivity|].
  discriminate.
Qed.

End Durability.

(** ** The rewrite pass on a last line without line ending, and on an
    import inside a function *)

Section Idempotence.

Import Fixer Examples.

(** C1: on a last line without a line ending, the two statements of the
    import split are written one after the other on one line; the second
    pass no longer sees an import of [collections.abc] there and inserts
    one.  The second pass changes the content and reports a change. *)
Theorem second_pass_changes_unterminated_split :
  let once := rewrite unterminated in
  let twice := rewrite once.1 in
  once.1 = "from collections import OrderedDictfrom collections.abc import MutableMapping" ∧
  twice.1 = once.1 ++ "import collections.abc" ++ LF ∧
  twice.1 ≠ once.1 ∧
  twice.2 = [mkChange 2 "added import collections.abc"].
Proof.
  vm_compute. split; [reflexivity|]. split; [reflexivity|].
  split; [discriminate | reflexivity].
Qed.

(** C6: a statement on a last line without a line ending is not split in
    two statements.  [process_from_collections_import] returns the two
    statements with no line ending, and [process_file] writes them one after
    the other: the file, saved under the backup name, is left with one line
    that is no statement of Python. *)
Theorem unterminated_import_written_on_one_line :
  let fs : tree := {[ "ryu/u.py" := unterminated ]} in
  let fs' := (process_file fs "ryu/u.py" false ".bak").1.1 in
  let written :=
    "from collections import OrderedDictfrom collections.abc import MutableMapping" in
  process_from_collections_import unterminated 1
  = (["from collections import OrderedDict";
      "from collections.abc import MutableMapping"],
     [mkChange 1 "removed MutableMapping from collections import"]) ∧
  fs' !! "ryu/u.py" = Some written ∧
  splitlines written = [written] ∧
  fs' !! "ryu/u.py.bak" = Some unterminated.
Proof.
  vm_compute. split; [reflexivity|]. split; [reflexivity|].
  split; reflexivity.
Qed.

(** C7: the import is not inserted after the last top-level import.  In a
    module that imports [collections] inside a function and nowhere else,
    the line [import collections.abc] is written without indentation right
    after the indented import, in the middle of the body of the function;
    the line after it is then indented without a block to belong to.  And
    after an import of [collections] on a last line without a line ending,
    the inserted text continues that line. *)
Theorem import_inserted_inside_function :
  rewrite local_import_py
  = ("def f():" ++ LF ++ "    import collections" ++ LF
     ++ "import collections.abc" ++ LF
     ++ "    return collections.OrderedDict()" ++ LF,
     [mkChange 3 "added import collections.abc"]) ∧
  rewrite unterminated_import
  = ("import collectionsimport collections.abc" ++ LF,
     [mkChange 2 "added import collections.abc"]).
Proof. vm_compute. split; reflexivity. Qed.

End Idempotence.

(** ** The import-splitting rule *)

Section LineFacts.

Import Fixer.

Implicit Types (s t a b : string) (p : ascii → bool).

Lemma all_chars_app p a b :
  all_chars p (a ++ b) = all_chars p a && all_chars p b.
Proof.
  induction a as [|c a IH]; [done|].
  rewrite append_cons. cbn [all_chars]. by rewrite IH, andb_assoc.
Qed.

Lemma rstrip_chars_keep p s :
  all_chars (λ c, negb (p c)) s = true → rstrip_chars p s = s.
Proof.
  induction s as [|c s IH]; [done|]. cbn [all_chars rstrip_chars].
  intros [Hc Hs]%andb_true_iff. rewrite (IH Hs).
  apply negb_true_iff in Hc. rewrite Hc. by rewrite andb_false_r.
Qed.

Lemma rstrip_chars_all p t : all_chars p t = true → rstrip_chars p t = "".
Proof.
  induction t as [|c t IH]; [done|]. cbn [all_chars rstrip_chars].
  intros [Hc Ht]%andb_true_iff. by rewrite (IH Ht), Hc.
Qed.

Lemma rstrip_chars_app_r p s t :
  all_chars p t = true → rstrip_chars p (s ++ t) = rstrip_chars p s.
Proof.
  intros Ht. induction s as [|c s IH].
  - rewrite append_nil_l. by apply rstrip_chars_all.
  - rewrite append_cons. cbn [rstrip_chars]. by rewrite IH.
Qed.

Lemma rstrip_chars_app_l p a s :
  rstrip_chars p s ≠ "" → rstrip_chars p (a ++ s) = a ++ rstrip_chars p s.
Proof.
  intros Hs. induction a as [|c a IH]; [done|].
  rewrite !append_cons. cbn [rstrip_chars]. rewrite IH.
  destruct (a ++ rstrip_chars p s) eqn:E; [|done].
  destruct a; [|discriminate]. by rewrite append_nil_l in E.
Qed.

Lemma take_drop (n : nat) s : Py.take n s ++ Py.drop n s = s.
Proof.
  revert s. induction n as [|n IH]; intros [|c s]; cbn [Py.take Py.drop];
    try done.
  by rewrite append_cons, IH.
Qed.

Lemma endswith_inv t s : endswith t s = true → ∃ a, s = a ++ t.
Proof.
  unfold endswith. intros [_ Heq]%andb_true_iff.
  apply String.eqb_eq in Heq.
  exists (Py.take (String.length s - String.length t) s).
  rewrite <- Heq at 2. by rewrite take_drop.
Qed.

Lemma last_char_app a s : s ≠ "" → last_char (a ++ s) = last_char s.
Proof.
  intros Hs. induction a as [|c a IH]; [done|].
  rewrite append_cons. cbn [last_char]. rewrite IH.
  destruct (a ++ s) eqn:E; [|done].
  destruct a; [|discriminate]. by rewrite append_nil_l in E.
Qed.

Lemma all_chars_last p s c :
  all_chars p s = true → last_char s = Some c → p c = true.
Proof.
  induction s as [|d s IH]; [done|]. cbn [all_chars last_char].
  intros [Hd Hs]%andb_true_iff. destruct s as [|e s].
  - by intros [= <-].
  - by apply IH.
Qed.

(** A body that ends in a character other than CR and LF, followed by [le]:
    what [rstrip] and the line-ending test of
    [process_from_collections_import] find. *)
Lemma rstrip_line a body le :
  body ≠ "" → no_cr_lf body = true → le ∈ ["" ; LF; CRLF] →
  rstrip_chars is_cr_or_lf (a ++ body ++ le) = a ++ body.
Proof.
  intros Hne Hbody Hle.
  rewrite <- append_assoc, rstrip_chars_app_r.
  - rewrite rstrip_chars_app_l; rewrite (rstrip_chars_keep _ _ Hbody); done.
  - set_unfold in Hle. by destruct Hle as [->|[->|[->|[]]]].
Qed.

Lemma line_ending_of_line a body le :
  body ≠ "" → no_cr_lf body = true → le ∈ ["" ; LF; CRLF] →
  line_ending_of (a ++ body ++ le) = le.
Proof.
  intros Hne Hbody Hle. unfold line_ending_of.
  assert (∀ c, last_char (a ++ body) = Some c → is_cr_or_lf c = false) as Hlast.
  { intros c Hc. rewrite last_char_app in Hc by done.
    apply negb_true_iff. exact (all_chars_last _ _ _ Hbody Hc). }
  set_unfold in Hle. destruct Hle as [->|[->|[->|[]]]].
  - rewrite append_nil_r.
    destruct (endswith CRLF (a ++ body)) eqn:E1.
    { apply endswith_inv in E1. destruct E1 as [x Hx].
      specialize (Hlast "010"%char). rewrite Hx, last_char_app in Hlast by done.
      by specialize (Hlast eq_refl). }
    destruct (endswith LF (a ++ body)) eqn:E2; [|done].
    apply endswith_inv in E2. destruct E2 as [x Hx].
    specialize (Hlast "010"%char). rewrite Hx, last_char_app in Hlast by done.
    by specialize (Hlast eq_refl).
  - rewrite <- append_assoc.
    destruct (endswith CRLF ((a ++ body) ++ LF)) eqn:E1.
    { apply endswith_inv in E1. destruct E1 as [x Hx].
      change CRLF with (CR ++ LF) in Hx. rewrite <- append_assoc in Hx.
      apply append_inj_r in Hx.
      specialize (Hlast "013"%char). rewrite Hx, last_char_app in Hlast by done.
      by specialize (Hlast eq_refl). }
    by rewrite endswith_append.
  - rewrite <- append_assoc. by rewrite endswith_append.
Qed.

Lemma span_space_app ws r :
  all_space ws = true → head_not_space r = true →
  span_space (ws ++ r) = (ws, r).
Proof.
  intros Hws Hr. induction ws as [|c ws IH].
  - rewrite append_nil_l. destruct r as [|c r]; [done|].
    cbn [span_space]. cbn [head_not_space] in Hr.
    apply negb_true_iff in Hr. by rewrite Hr.
  - rewrite append_cons. cbn [span_space].
    unfold all_space in Hws. cbn [all_chars] in Hws.
    apply andb_true_iff in Hws as [Hc Hws]. by rewrite Hc, (IH Hws).
Qed.

Lemma lstrip_app ws r :
  all_space ws = true → head_not_space r = true → lstrip (ws ++ r) = r.
Proof.
  intros Hws Hr. induction ws as [|c ws IH].
  - rewrite append_nil_l. destruct r as [|c r]; [done|].
    cbn [lstrip]. cbn [head_not_space] in Hr.
    apply negb_true_iff in Hr. by rewrite Hr.
  - rewrite append_cons. cbn [lstrip].
    unfold all_space in Hws. cbn [all_chars] in Hws.
    apply andb_true_iff in Hws as [Hc Hws]. by rewrite Hc, (IH Hws).
Qed.

Lemma space_plus_app w r :
  all_space w = true → w ≠ "" → head_not_space r = true →
  space_plus (w ++ r) = Some r.
Proof.
  intros Hw Hne Hr. destruct w as [|c w]; [done|].
  rewrite append_cons. unfold space_plus.
  unfold all_space in Hw. cbn [all_chars] in Hw.
  apply andb_true_iff in Hw as [Hc Hw]. rewrite Hc.
  by rewrite lstrip_app.
Qed.

Lemma dot_plus_end_id s :
  s ≠ "" → no_cr_lf s = true → dot_plus_end s = Some s.
Proof.
  induction s as [|c s IH]; [done|]. intros _ Hs.
  unfold no_cr_lf in Hs. cbn [all_chars] in Hs.
  apply andb_true_iff in Hs as [Hc Hs].
  cbn [dot_plus_end].
  assert (Ascii.eqb c "010"%char = false) as ->.
  { unfold is_cr_or_lf in Hc. apply negb_true_iff, orb_false_iff in Hc. tauto. }
  destruct s as [|d s]; [done|].
  assert (Ascii.eqb d "010"%char = false) as ->.
  { cbn [all_chars] in Hs. apply andb_true_iff in Hs as [Hd _].
    unfold is_cr_or_lf in Hd. apply negb_true_iff, orb_false_iff in Hd. tauto. }
  cbn [andb]. by rewrite IH.
Qed.

Lemma ws_star_dot_plus_end_app w s :
  all_space w = true → s ≠ "" → head_not_space s = true → no_cr_lf s = true →
  ws_star_dot_plus_end (w ++ s) = Some s.
Proof.
  intros Hw Hne Hhead Hs. induction w as [|c w IH].
  - rewrite append_nil_l. destruct s as [|c s]; [done|].
    cbn [ws_star_dot_plus_end]. cbn [head_not_space] in Hhead.
    apply negb_true_iff in Hhead. rewrite Hhead. by apply dot_plus_end_id.
  - rewrite append_cons. cbn [ws_star_dot_plus_end].
    unfold all_space in Hw. cbn [all_chars] in Hw.
    apply andb_true_iff in Hw as [Hc Hw]. by rewrite Hc, (IH Hw).
Qed.

Lemma ws_plus_dot_plus_end_app w s :
  all_space w = true → w ≠ "" → s ≠ "" → head_not_space s = true →
  no_cr_lf s = true → ws_plus_dot_plus_end (w ++ s) = Some s.
Proof.
  intros Hw Hwne Hne Hhead Hs. destruct w as [|c w]; [done|].
  rewrite append_cons. unfold ws_plus_dot_plus_end.
  unfold all_space in Hw. cbn [all_chars] in Hw.
  apply andb_true_iff in Hw as [Hc Hw]. rewrite Hc.
  by apply ws_star_dot_plus_end_app.
Qed.

(** The pattern finds the indentation and the imports of a statement written
    with any white space between its words. *)
Lemma FROM_COLLECTIONS_RE_statement indent w1 w2 w3 imports :
  all_space indent = true →
  all_space w1 = true → w1 ≠ "" →
  all_space w2 = true → w2 ≠ "" →
  all_space w3 = true → w3 ≠ "" →
  imports ≠ "" → head_not_space imports = true → no_cr_lf imports = true →
  FROM_COLLECTIONS_RE
    (indent ++ "from" ++ w1 ++ "collections" ++ w2 ++ "import" ++ w3 ++ imports)
  = Some (indent, imports).
Proof.
  intros Hi H1 N1 H2 N2 H3 N3 Hne Hhead Hs. unfold FROM_COLLECTIONS_RE.
  rewrite span_space_app by done.
  rewrite strip_prefix_append. cbn [mbind option_bind].
  rewrite space_plus_app by done. cbn [mbind option_bind].
  rewrite strip_prefix_append. cbn [mbind option_bind].
  rewrite space_plus_app by done. cbn [mbind option_bind].
  rewrite strip_prefix_append. cbn [mbind option_bind].
  by rewrite ws_plus_dot_plus_end_app.
Qed.

End LineFacts.

Section ImportRule.

Import Fixer Examples.

Lemma split_once_Some (sep s a b : string) :
  split_once sep s = Some (a, b) → s = a ++ sep ++ b.
Proof.
  revert a. induction s as [|c s IH]; intros a; cbn [split_once].
  - destruct (strip_prefix sep "") as [r|] eqn:E; [|discriminate].
    intros [= <- <-]. by apply strip_prefix_Some in E.
  - destruct (strip_prefix sep (String c s)) as [r|] eqn:E.
    + intros [= <- <-]. by apply strip_prefix_Some in E.
    + destruct (split_once sep s) as [[a' b']|]; [|discriminate].
      intros [= <- <-]. rewrite append_cons. f_equal. by apply IH.
Qed.

Lemma split_comment_join (s : string) :
  s = (split_comment s).1 ++ (split_comment s).2.
Proof.
  unfold split_comment.
  destruct (split_once "#" s) as [[a b]|] eqn:E; cbn [fst snd].
  - by apply split_once_Some in E.
  - by rewrite append_nil_r.
Qed.

(** X23.  What [process_from_collections_import] returns for a line
    [from collections import ...] written with any indentation and any white
    space between its words, followed by no line ending, LF or CR LF.  The
    items are those [parse_import_items] finds in the text before the
    comment, and an item is moved when the function's own test accepts it
    ([base_import_name] gives [MutableMapping]).  With no item moved, or with
    a wildcard, the line comes back as it is and no change is recorded.  With
    every item moved, one string replaces it: an import of them from
    [collections.abc], with the comment.  Otherwise two strings replace it:
    the other items stay in the import from [collections], with the comment,
    and the items moved go to an import from [collections.abc].  Each string
    has the indentation and ends as the line did; for a line that has no
    line ending neither string has one. *)
Theorem from_import_rule (indent w1 w2 w3 imports le : string) (line_no : nat) :
  all_space indent = true →
  all_space w1 = true → w1 ≠ "" →
  all_space w2 = true → w2 ≠ "" →
  all_space w3 = true → w3 ≠ "" →
  imports ≠ "" → head_not_space imports = true → no_cr_lf imports = true →
  le ∈ [""; LF; CRLF] →
  let line :=
    indent ++ "from" ++ w1 ++ "collections" ++ w2 ++ "import" ++ w3
    ++ imports ++ le in
  let code := (split_comment imports).1 in
  let comment := (split_comment imports).2 in
  let items := parse_import_items code in
  let moved := List.filter is_mutable items in
  let kept := List.filter (λ item, negb (is_mutable item)) items in
  let result := process_from_collections_import line line_no in
  imports = code ++ comment ∧
  (items = [] ∨ "*" ∈ items ∨ moved = [] → result = ([line], [])) ∧
  ("*" ∉ items → moved ≠ [] → kept = [] →
   result =
   ([indent ++ "from collections.abc import " ++ join ", " moved ++ comment ++ le],
    [mkChange line_no
       "replaced collections import with collections.abc for MutableMapping"])) ∧
  ("*" ∉ items → moved ≠ [] → kept ≠ [] →
   result =
   ([indent ++ "from collections import " ++ join ", " kept ++ comment ++ le;
     indent ++ "from collections.abc import " ++ join ", " moved ++ le],
    [mkChange line_no "removed MutableMapping from collections import"])).
Proof.
  intros Hi H1 N1 H2 N2 H3 N3 Hne Hhead Hs Hle line code comment items moved
    kept result.
  split; [apply split_comment_join|].
  set (a := indent ++ "from" ++ w1 ++ "collections" ++ w2 ++ "import" ++ w3).
  assert (line = a ++ imports ++ le) as Hline
    by (unfold line, a; by rewrite !append_assoc).
  assert (a ++ imports
          = indent ++ "from" ++ w1 ++ "collections" ++ w2 ++ "import" ++ w3
            ++ imports) as Hbody
    by (unfold a; by rewrite !append_assoc).
  assert (result =
          if bool_decide (items = []) || bool_decide ("*" ∈ items)
          then ([line], [])
          else if bool_decide (moved = []) then ([line], [])
          else if bool_decide (kept = []) then
            ([indent ++ "from collections.abc import " ++ join ", " moved
                ++ comment ++ le],
             [mkChange line_no
                "replaced collections import with collections.abc for MutableMapping"])
          else
            ([indent ++ "from collections import " ++ join ", " kept
                ++ comment ++ le;
              indent ++ "from collections.abc import " ++ join ", " moved ++ le],
             [mkChange line_no "removed MutableMapping from collections import"]))
    as Hresult.
  { unfold result, process_from_collections_import.
    rewrite Hline, rstrip_line, line_ending_of_line by done.
    rewrite Hbody, FROM_COLLECTIONS_RE_statement by done.
    fold line. rewrite <- Hline.
    unfold moved, kept, items, code, comment.
    by destruct (split_comment imports) as [c k]. }
  rewrite Hresult. clear Hresult. split; [|split].
  - intros [->|[Hstar|Hnone]].
    + done.
    + rewrite (bool_decide_eq_true_2 _ Hstar). by rewrite orb_true_r.
    + rewrite (bool_decide_eq_true_2 _ Hnone). by destruct (_ || _).
  - intros Hstar Hmoved Hkept.
    assert (items ≠ []) as Hitems by (intros E; apply Hmoved; unfold moved; by rewrite E).
    rewrite (bool_decide_eq_false_2 _ Hitems), (bool_decide_eq_false_2 _ Hstar).
    cbn [orb].
    by rewrite (bool_decide_eq_false_2 _ Hmoved), (bool_decide_eq_true_2 _ Hkept).
  - intros Hstar Hmoved Hkept.
    assert (items ≠ []) as Hitems by (intros E; apply Hmoved; unfold moved; by rewrite E).
    rewrite (bool_decide_eq_false_2 _ Hitems), (bool_decide_eq_false_2 _ Hstar).
    cbn [orb].
    by rewrite (bool_decide_eq_false_2 _ Hmoved), (bool_decide_eq_false_2 _ Hkept).
Qed.

Lemma from_import_rule_witness :
  process_from_collections_import
    ("    from collections import OrderedDict, MutableMapping  # abc" ++ LF) 7
  = (["    from collections import OrderedDict# abc" ++ LF;
      "    from collections.abc import MutableMapping" ++ LF],
     [mkChange 7 "removed MutableMapping from collections import"]).
Proof.
  assert (LF ∈ [""; LF; CRLF]) as Hle by set_solver.
  assert ("*" ∉ parse_import_items
                  (split_comment "OrderedDict, MutableMapping  # abc").1)
    as Hstar.
  { vm_compute. intros H.
    repeat (apply elem_of_cons in H as [H|H]; [discriminate|]).
    by apply elem_of_nil in H. }
  exact (proj2 (proj2 (proj2
    (from_import_rule "    " " " " " " "
       "OrderedDict, MutableMapping  # abc" LF 7
       eq_refl eq_refl ltac:(discriminate) eq_refl ltac:(discriminate)
       eq_refl ltac:(discriminate) ltac:(discriminate) eq_refl eq_refl Hle)))
    Hstar ltac:(vm_compute; discriminate) ltac:(vm_compute; discriminate)).
Defined.

End ImportRule.


(** ** The usage substitution keeps import lines *)

Section Substitution.

Import Fixer Shapes.

(** A pattern [\b<lit>\b] of the table: the literal starts with [c], goes on
    after [collections] with a dot, and does not match at
    [collections.abc]; the replacement starts with [collections.]. *)
Variables (lit repl : string).
Hypothesis lit_head :
  ∀ pw c s, c ≠ "c"%char → match_here lit pw (String c s) = false.
Hypothesis lit_space :
  ∀ c x, isspace c = true →
         match_here lit false ("collections" ++ String c x) = false.
Hypothesis lit_abc : ∀ x, match_here lit false ("collections.abc" ++ x) = false.
Hypothesis repl_head : ∃ r, repl = "collections." ++ r.

Lemma sub_from_other_char pw c s :
  c ≠ "c"%char →
  sub_from lit repl pw 0 (String c s)
  = String c (sub_from lit repl (isword c) 0 s).
Proof. intros Hc. cbn [sub_from]. by rewrite lit_head. Qed.

Lemma sub_from_in_word c s :
  sub_from lit repl true 0 (String c s)
  = String c (sub_from lit repl (isword c) 0 s).
Proof. cbn [sub_from]. unfold match_here. by cbn [negb andb]. Qed.

Lemma space_not_c c : isspace c = true → c ≠ "c"%char.
Proof. intros H ->. discriminate. Qed.

Lemma space_not_word c : isspace c = true → isword c = false.
Proof.
  destruct c as [[] [] [] [] [] [] [] []]; vm_compute; congruence.
Qed.

Lemma sub_from_spaces pw w s :
  all_space w = true →
  sub_from lit repl pw 0 (w ++ s)
  = w ++ sub_from lit repl (if is_empty w then pw else false) 0 s.
Proof.
  revert pw. induction w as [|c w IH]; intros pw Hw; [done|].
  unfold all_space in Hw. cbn [all_chars] in Hw.
  apply andb_true_iff in Hw as [Hc Hw].
  rewrite !append_cons, sub_from_other_char by by apply space_not_c.
  rewrite IH by done. rewrite (space_not_word _ Hc). cbn [is_empty].
  by destruct w.
Qed.

Lemma sub_from_word u s :
  all_chars isword u = true →
  sub_from lit repl true 0 (u ++ s) = u ++ sub_from lit repl true 0 s.
Proof.
  induction u as [|c u IH]; intros Hu; [done|].
  cbn [all_chars] in Hu. apply andb_true_iff in Hu as [Hc Hu].
  by rewrite !append_cons, sub_from_in_word, Hc, IH.
Qed.

(** A keyword that does not start with [c]. *)
Lemma sub_from_keyword pw c u s :
  c ≠ "c"%char → all_chars isword (String c u) = true →
  sub_from lit repl pw 0 (String c u ++ s)
  = String c u ++ sub_from lit repl true 0 s.
Proof.
  intros Hc Hu. cbn [all_chars] in Hu. apply andb_true_iff in Hu as [Hw Hu].
  by rewrite !append_cons, sub_from_other_char, Hw, sub_from_word.
Qed.

Lemma word_end_sub_from t :
  word_end t = true → word_end (sub_from lit repl true 0 t) = true.
Proof.
  destruct t as [|c t]; [done|]. by rewrite sub_from_in_word.
Qed.

(** At [collections]: the whole match is replaced, or the word is kept. *)
Lemma sub_from_collections_keep t :
  match_here lit false ("collections" ++ t) = false →
  sub_from lit repl false 0 ("collections" ++ t)
  = "collections" ++ sub_from lit repl true 0 t.
Proof.
  intros Hno.
  change ("collections" ++ t) with (String "c" ("ollections" ++ t)) in *.
  cbn [sub_from]. rewrite Hno. change (isword "c") with true.
  by rewrite (sub_from_word "ollections").
Qed.

Lemma sub_from_collections_match t :
  match_here lit false ("collections" ++ t) = true →
  ∃ z, sub_from lit repl false 0 ("collections" ++ t) = repl ++ z.
Proof.
  intros Hyes.
  change ("collections" ++ t) with (String "c" ("ollections" ++ t)) in *.
  cbn [sub_from]. rewrite Hyes. by eexists.
Qed.

Lemma not_empty_false w : w ≠ "" → (if is_empty w then true else false) = false.
Proof. by destruct w. Qed.

Lemma sub_shape_from s : shape_from s → shape_from (re_sub lit repl s).
Proof.
  intros (ws & w1 & w2 & t & Hws & H1 & N1 & H2 & N2 & Ht & ->).
  exists ws, w1, w2, (sub_from lit repl true 0 t).
  repeat (split; [done|]). split; [by apply word_end_sub_from|].
  unfold re_sub. rewrite sub_from_spaces by done.
  rewrite (sub_from_keyword _ "f" "rom") by done.
  rewrite sub_from_spaces, not_empty_false by done.
  rewrite sub_from_collections_keep.
  - rewrite sub_from_spaces, not_empty_false by done.
    by rewrite (sub_from_keyword _ "i" "mport").
  - destruct w2 as [|c w2]; [done|]. rewrite append_cons.
    unfold all_space in H2. cbn [all_chars] in H2.
    apply andb_true_iff in H2 as [Hc _]. by apply lit_space.
Qed.

Lemma sub_shape_import s : shape_import s → shape_import (re_sub lit repl s).
Proof.
  intros (ws & w1 & t & Hws & H1 & N1 & Ht & ->).
  unfold re_sub. rewrite sub_from_spaces by done.
  rewrite (sub_from_keyword _ "i" "mport") by done.
  rewrite sub_from_spaces, not_empty_false by done.
  destruct (match_here lit false ("collections" ++ t)) eqn:E.
  - destruct (sub_from_collections_match t E) as [z ->].
    destruct repl_head as [r ->].
    exists ws, w1, ("." ++ r ++ z). repeat (split; [done|]).
    by rewrite !append_assoc.
  - rewrite (sub_from_collections_keep t E).
    exists ws, w1, (sub_from lit repl true 0 t). repeat (split; [done|]).
    split; [by apply word_end_sub_from | done].
Qed.

Lemma sub_shape_from_abc s :
  shape_from_abc s → shape_from_abc (re_sub lit repl s).
Proof.
  intros (ws & w1 & w2 & t & Hws & H1 & N1 & H2 & N2 & Ht & ->).
  exists ws, w1, w2, (sub_from lit repl true 0 t).
  repeat (split; [done|]). split; [by apply word_end_sub_from|].
  unfold re_sub. rewrite sub_from_spaces by done.
  rewrite (sub_from_keyword _ "f" "rom") by done.
  rewrite sub_from_spaces, not_empty_false by done.
  change ("collections.abc" ++ w2 ++ "import" ++ t)
    with ("collections" ++ String "." ("abc" ++ w2 ++ "import" ++ t)).
  rewrite sub_from_collections_keep by apply lit_abc.
  rewrite sub_from_in_word. change (isword ".") with false.
  rewrite (sub_from_keyword _ "a" "bc") by done.
  rewrite sub_from_spaces, not_empty_false by done.
  by rewrite (sub_from_keyword _ "i" "mport").
Qed.

Lemma sub_shape s : shape s → shape (re_sub lit repl s).
Proof.
  intros [H|[H|H]].
  - left. by apply sub_shape_from.
  - right. left. by apply sub_shape_import.
  - right. right. by apply sub_shape_from_abc.
Qed.

End Substitution.

Section MissingImport.

Import Fixer Shapes Examples.

Lemma table_entry_shape (e : string * string * string) (s : string) :
  e ∈ REPLACEMENTS → shape s → shape (re_sub e.1.2 e.2 s).
Proof.
  intros He. unfold REPLACEMENTS in He.
  repeat (apply elem_of_cons in He as [->|He]); [| | |by apply elem_of_nil in He];
    cbn [fst snd]; apply sub_shape.
  all: try (intros pw c t Hc; unfold match_here;
            destruct (strip_prefix _ _) as [r|] eqn:E;
              [|by rewrite andb_false_r];
            apply strip_prefix_Some in E;
            rewrite !append_cons, !append_nil_l in E;
            injection E as -> _; done).
  all: try (intros c x Hc; unfold match_here;
            destruct (strip_prefix _ _) as [r|] eqn:E; [|done];
            apply strip_prefix_Some in E;
            rewrite !append_cons, !append_nil_l in E;
            injection E as -> _; discriminate).
  all: try (intros x; unfold match_here;
            destruct (strip_prefix _ _) as [r|] eqn:E; [|done];
            apply strip_prefix_Some in E;
            rewrite !append_cons, !append_nil_l in E; discriminate).
  all: by eexists.
Qed.

Lemma replace_loop_shape (table : list (string * string * string))
    (l : string) (n : nat) :
  (∀ e, e ∈ table → e ∈ REPLACEMENTS) → shape l →
  shape (replace_loop table l n).1.
Proof.
  revert l. induction table as [|[[pat lit] repl] table IH]; intros l Hsub Hl;
    [done|].
  cbn [replace_loop].
  assert (∀ e, e ∈ table → e ∈ REPLACEMENTS) as Hsub'
    by (intros e He; apply Hsub; by right).
  destruct (re_search lit l).
  - specialize (IH (re_sub lit repl l) Hsub').
    destruct (replace_loop table (re_sub lit repl l) n) as [l' cs].
    cbn [fst] in *. apply IH.
    apply (table_entry_shape (pat, lit, repl)); [apply Hsub; by left | done].
  - by apply IH.
Qed.

Lemma replace_collections_usage_shape (l : string) (n : nat) :
  shape l → shape (replace_collections_usage l n).1.
Proof. by apply replace_loop_shape. Qed.

(** *** The patterns and the shapes *)

Lemma lstrip_inv (s : string) :
  ∃ ws, s = ws ++ lstrip s ∧ all_space ws = true ∧
        head_not_space (lstrip s) = true.
Proof.
  induction s as [|c s (ws & Hs & Hws & Hh)]; [by exists ""|].
  cbn [lstrip]. destruct (isspace c) eqn:Hc.
  - exists (String c ws). rewrite append_cons, <- Hs.
    split; [done|]. split; [|done].
    unfold all_space. cbn [all_chars]. by rewrite Hc.
  - exists "". split; [done|]. split; [done|].
    cbn [head_not_space]. by rewrite Hc.
Qed.

Lemma space_plus_inv (r r' : string) :
  space_plus r = Some r' →
  ∃ w, r = w ++ r' ∧ all_space w = true ∧ w ≠ "" ∧ head_not_space r' = true.
Proof.
  unfold space_plus. destruct r as [|c r]; [discriminate|].
  destruct (isspace c) eqn:Hc; [|discriminate]. intros [= <-].
  destruct (lstrip_inv r) as (ws & Hs & Hws & Hh).
  exists (String c ws). rewrite append_cons, <- Hs.
  split; [done|]. split; [|done].
  unfold all_space. cbn [all_chars]. by rewrite Hc.
Qed.

Lemma span_space_all_space (s indent r : string) :
  span_space s = (indent, r) → all_space indent = true.
Proof.
  revert indent. induction s as [|c s IH]; intros indent; cbn [span_space].
  - by intros [= <- <-].
  - destruct (isspace c) eqn:Hc; [|by intros [= <- <-]].
    destruct (span_space s) as [w r']. intros [= <- <-].
    unfold all_space. cbn [all_chars]. rewrite Hc. by apply IH.
Qed.

Lemma COLLECTIONS_IMPORT_RE_shape (s : string) :
  COLLECTIONS_IMPORT_RE s = true → shape_from s ∨ shape_import s.
Proof.
  unfold COLLECTIONS_IMPORT_RE.
  destruct (lstrip_inv s) as (ws & Hs & Hws & _).
  intros [H|H]%orb_true_iff.
  - right. unfold re_import_collections in H.
    destruct (strip_prefix "import" (lstrip s)) as [r1|] eqn:E1; [|done].
    cbn [mbind option_bind] in H.
    destruct (space_plus r1) as [r2|] eqn:E2; [|done].
    cbn [mbind option_bind] in H.
    destruct (strip_prefix "collections" r2) as [r3|] eqn:E3; [|done].
    cbn [mbind option_bind] in H.
    destruct (word_end r3) eqn:E4; [|done].
    apply strip_prefix_Some in E1, E3.
    apply space_plus_inv in E2 as (w1 & -> & H1 & N1 & _).
    exists ws, w1, r3. repeat (split; [done|]).
    by rewrite Hs, E1, E3.
  - left. unfold re_from_collections_import in H.
    destruct (strip_prefix "from" (lstrip s)) as [r1|] eqn:E1; [|done].
    cbn [mbind option_bind] in H.
    destruct (space_plus r1) as [r2|] eqn:E2; [|done].
    cbn [mbind option_bind] in H.
    destruct (strip_prefix "collections" r2) as [r3|] eqn:E3; [|done].
    cbn [mbind option_bind] in H.
    destruct (space_plus r3) as [r4|] eqn:E4; [|done].
    cbn [mbind option_bind] in H.
    destruct (strip_prefix "import" r4) as [r5|] eqn:E5; [|done].
    cbn [mbind option_bind] in H.
    destruct (word_end r5) eqn:E6; [|done].
    apply strip_prefix_Some in E1, E3, E5.
    apply space_plus_inv in E2 as (w1 & -> & H1 & N1 & _).
    apply space_plus_inv in E4 as (w2 & -> & H2 & N2 & _).
    exists ws, w1, w2, r5. repeat (split; [done|]).
    by rewrite Hs, E1, E3, E5.
Qed.

Lemma shape_from_COLLECTIONS_IMPORT_RE (s : string) :
  shape_from s → COLLECTIONS_IMPORT_RE s = true.
Proof.
  intros (ws & w1 & w2 & t & Hws & H1 & N1 & H2 & N2 & Ht & ->).
  unfold COLLECTIONS_IMPORT_RE. rewrite lstrip_app by done.
  apply orb_true_iff. right. unfold re_from_collections_import.
  rewrite strip_prefix_append. cbn [mbind option_bind].
  rewrite space_plus_app by done. cbn [mbind option_bind].
  rewrite strip_prefix_append. cbn [mbind option_bind].
  rewrite space_plus_app by done. cbn [mbind option_bind].
  rewrite strip_prefix_append. cbn [mbind option_bind].
  by rewrite Ht.
Qed.

Lemma shape_import_COLLECTIONS_IMPORT_RE (s : string) :
  shape_import s → COLLECTIONS_IMPORT_RE s = true.
Proof.
  intros (ws & w1 & t & Hws & H1 & N1 & Ht & ->).
  unfold COLLECTIONS_IMPORT_RE. rewrite lstrip_app by done.
  apply orb_true_iff. left. unfold re_import_collections.
  rewrite strip_prefix_append. cbn [mbind option_bind].
  rewrite space_plus_app by done. cbn [mbind option_bind].
  rewrite strip_prefix_append. cbn [mbind option_bind].
  by rewrite Ht.
Qed.

Lemma shape_from_abc_COLLECTIONS_ABC_IMPORT_RE (s : string) :
  shape_from_abc s → COLLECTIONS_ABC_IMPORT_RE s = true.
Proof.
  intros (ws & w1 & w2 & t & Hws & H1 & N1 & H2 & N2 & Ht & ->).
  unfold COLLECTIONS_ABC_IMPORT_RE. rewrite lstrip_app by done.
  apply orb_true_iff. left. apply orb_true_iff. right.
  unfold re_from_collections_abc_import.
  rewrite strip_prefix_append. cbn [mbind option_bind].
  rewrite space_plus_app by done. cbn [mbind option_bind].
  rewrite strip_prefix_append. cbn [mbind option_bind].
  rewrite space_plus_app by done. cbn [mbind option_bind].
  rewrite strip_prefix_append. cbn [mbind option_bind].
  by rewrite Ht.
Qed.

Lemma shape_matches (s : string) :
  shape s → COLLECTIONS_IMPORT_RE s = true ∨ COLLECTIONS_ABC_IMPORT_RE s = true.
Proof.
  intros [H|[H|H]].
  - left. by apply shape_from_COLLECTIONS_IMPORT_RE.
  - left. by apply shape_import_COLLECTIONS_IMPORT_RE.
  - right. by apply shape_from_abc_COLLECTIONS_ABC_IMPORT_RE.
Qed.

(** *** From the lines read to the lines rewritten *)

Lemma process_from_shape (line : string) (n : nat) :
  COLLECTIONS_IMPORT_RE line = true →
  ∃ l, l ∈ (process_from_collections_import line n).1 ∧ shape l.
Proof.
  intros Hline.
  assert (shape line) as Hshape.
  { destruct (COLLECTIONS_IMPORT_RE_shape line Hline); [by left|by right; left]. }
  assert (∃ l, l ∈ [line] ∧ shape l) as Hsame
    by (exists line; split; [by left|done]).
  unfold process_from_collections_import.
  destruct (FROM_COLLECTIONS_RE _) as [[indent imports]|] eqn:E; [|done].
  assert (all_space indent = true) as Hindent.
  { unfold FROM_COLLECTIONS_RE in E.
    destruct (span_space _) as [i r] eqn:Espan.
    apply span_space_all_space in Espan.
    destruct (strip_prefix "from" r) as [r1|]; [|done].
    cbn [mbind option_bind] in E. destruct (space_plus r1) as [r2|]; [|done].
    cbn [mbind option_bind] in E.
    destruct (strip_prefix "collections" r2) as [r3|]; [|done].
    cbn [mbind option_bind] in E. destruct (space_plus r3) as [r4|]; [|done].
    cbn [mbind option_bind] in E.
    destruct (strip_prefix "import" r4) as [r5|]; [|done].
    cbn [mbind option_bind] in E.
    destruct (ws_plus_dot_plus_end r5); [|done].
    cbn [mbind option_bind] in E. by injection E as <- _. }
  destruct (split_comment imports) as [code comment].
  destruct (_ || _); [done|].
  destruct (bool_decide (_ = [])); [done|].
  destruct (bool_decide (_ = [])); cbn [fst].
  - eexists. split; [by left|]. right. right.
    exists indent, " ", " ", (" " ++ join ", "
      (List.filter is_mutable (parse_import_items code)) ++ comment
      ++ line_ending_of line).
    by repeat (split; [done|]).
  - eexists. split; [by left|]. left.
    exists indent, " ", " ", (" " ++ join ", "
      (List.filter (λ item, negb (is_mutable item)) (parse_import_items code))
      ++ comment ++ line_ending_of line).
    by repeat (split; [done|]).
Qed.

Lemma rewrite_lines_cons (line : string) (lines : list string) (idx : nat) :
  (rewrite_lines (line :: lines) idx).1
  = (map (λ l, (replace_collections_usage l idx).1)
       (process_from_collections_import line idx).1
     ++ (rewrite_lines lines (S idx)).1)%list.
Proof.
  cbn [rewrite_lines].
  destruct (process_from_collections_import line idx) as [new_lines cs].
  destruct (rewrite_lines lines (S idx)) as [ul ch]. cbn [fst].
  by rewrite map_map.
Qed.

Lemma rewrite_lines_shape (lines : list string) (idx : nat) :
  has_collections_import lines = true →
  ∃ u, u ∈ (rewrite_lines lines idx).1 ∧ shape u.
Proof.
  revert idx. induction lines as [|line lines IH]; intros idx; [done|].
  cbn [has_collections_import]. rewrite rewrite_lines_cons.
  destruct (COLLECTIONS_IMPORT_RE line) eqn:Hline; cbn [negb].
  - intros _. destruct (process_from_shape line idx Hline) as (l & Hl & Hs).
    exists (replace_collections_usage l idx).1. split.
    + apply elem_of_app. left. apply list_elem_of_fmap. by exists l.
    + by apply replace_collections_usage_shape.
  - intros H. destruct (IH (S idx) H) as (u & Hu & Hs).
    exists u. split; [|done]. apply elem_of_app. by right.
Qed.

(** *** Where the import is inserted *)

Lemma find_insert_at_spec (lines : list string) (idx : nat) (acc : option nat) :
  (∃ pre l post, last_import lines pre l post ∧
     find_insert_at lines idx acc = Some (idx + length pre + 1)) ∨
  (Forall (λ x, COLLECTIONS_IMPORT_RE x = false) lines ∧
   find_insert_at lines idx acc = acc).
Proof.
  revert idx acc. induction lines as [|line lines IH]; intros idx acc.
  - right. by split.
  - cbn [find_insert_at].
    destruct (IH (S idx)
                (if COLLECTIONS_IMPORT_RE line then Some (S idx) else acc))
      as [(pre & l & post & (-> & Hl & Hpost) & ->)|[Hnone ->]].
    + left. exists (line :: pre), l, post. split; [by split|].
      cbn [length]. f_equal. lia.
    + destruct (COLLECTIONS_IMPORT_RE line) eqn:Hline.
      * left. exists [], line, lines. split; [by split|].
        cbn [length]. f_equal. lia.
      * right. split; [by constructor|done].
Qed.

Lemma list_insert_at_after {A} (pre : list A) (l x : A) (post : list A) :
  list_insert_at (length pre + 1) x (pre ++ l :: post) = (pre ++ l :: x :: post)%list.
Proof.
  unfold list_insert_at.
  replace (pre ++ l :: post)%list with ((pre ++ [l]) ++ post)%list
    by by rewrite <- app_assoc.
  replace (length pre + 1) with (length (pre ++ [l]))
    by (rewrite length_app; cbn; lia).
  rewrite firstn_app, firstn_all, Nat.sub_diag, skipn_app, skipn_all,
    Nat.sub_diag. cbn [firstn skipn]. rewrite app_nil_r, <- !app_assoc. done.
Qed.

Lemma has_collections_abc_import_false (lines : list string) (u : string) :
  has_collections_abc_import lines = false → u ∈ lines →
  COLLECTIONS_ABC_IMPORT_RE u = false.
Proof.
  unfold has_collections_abc_import. intros Hnone Hu.
  destruct (COLLECTIONS_ABC_IMPORT_RE u) eqn:E; [|done].
  assert (existsb COLLECTIONS_ABC_IMPORT_RE lines = true) as Hex.
  { apply existsb_exists. exists u. split; [by apply list_elem_of_In|done]. }
  congruence.
Qed.

(** X24.  The list of strings [process_file] joins into the new content,
    as its own detectors decide.  For a content whose lines
    [has_collections_import] accepts and [has_collections_abc_import] does
    not: when it accepts no rewritten line either, the list is the list of
    rewritten lines with one more element, [import collections.abc] and the
    newline of the file, right after the last element that
    [COLLECTIONS_IMPORT_RE] accepts, at whatever indentation, and one change
    is recorded for it; when it accepts a rewritten line, nothing is
    inserted.  Nothing is inserted either when [has_collections_abc_import]
    accepts a line of the content, or [has_collections_import] accepts
    none. *)
Theorem missing_import_inserted_once (content : string) :
  let lines := splitlines content in
  let newline := if contains CRLF content then CRLF else LF in
  let rewritten := rewrite_lines lines 1 in
  let final := updated_lines_of content in
  (has_collections_import lines = true →
   has_collections_abc_import lines = false →
   (has_collections_abc_import rewritten.1 = true ∧ final = rewritten) ∨
   (has_collections_abc_import rewritten.1 = false ∧
    ∃ pre l post,
      last_import rewritten.1 pre l post ∧
      final.1
      = (pre ++ l :: ("import collections.abc" ++ newline)%string :: post)%list ∧
      final.2 = (rewritten.2
                 ++ [mkChange (length pre + 2) "added import collections.abc"])%list)) ∧
  (has_collections_abc_import lines = true → final = rewritten) ∧
  (has_collections_import lines = false → final = rewritten).
Proof.
  intros lines newline rewritten final.
  assert (final =
          if has_collections_import lines
             && negb (has_collections_abc_import lines)
             && negb (has_collections_abc_import rewritten.1)
          then insert_collections_abc_import rewritten.1 newline rewritten.2
          else rewritten) as Hfinal.
  { unfold final, updated_lines_of. fold lines. fold newline. fold rewritten.
    by destruct rewritten as [ul ch]. }
  rewrite Hfinal. clear Hfinal. split; [|split].
  - intros Himp Habc. rewrite Himp, Habc. cbn [andb negb].
    destruct (has_collections_abc_import rewritten.1) eqn:Hnew; cbn [negb].
    + by left.
    + right. split; [done|].
      destruct (rewrite_lines_shape lines 1 Himp) as (u & Hu & Hshape).
      fold rewritten in Hu.
      assert (COLLECTIONS_IMPORT_RE u = true) as Hmatch.
      { destruct (shape_matches u Hshape) as [H|H]; [done|].
        rewrite (has_collections_abc_import_false _ _ Hnew Hu) in H. done. }
      unfold insert_collections_abc_import.
      destruct (find_insert_at_spec rewritten.1 0 None)
        as [(pre & l & post & Hlast & ->)|[Hnone _]].
      * exists pre, l, post. split; [done|]. cbn [fst snd].
        destruct Hlast as (-> & _ & _). cbn [Nat.add].
        split; [apply list_insert_at_after|].
        do 3 f_equal. lia.
      * rewrite Forall_forall in Hnone. specialize (Hnone u Hu). congruence.
  - intros ->. cbn [negb]. by rewrite andb_false_r.
  - by intros ->.
Qed.

Lemma missing_import_inserted_once_witness :
  (updated_lines_of
     ("import os" ++ LF ++ "import collections" ++ LF ++ "x = 1" ++ LF)).1
  = ["import os" ++ LF; "import collections" ++ LF;
     "import collections.abc" ++ LF; "x = 1" ++ LF].
Proof.
  pose proof (missing_import_inserted_once
                ("import os" ++ LF ++ "import collections" ++ LF ++ "x = 1" ++ LF))
    as H.
  cbv zeta in H. destruct H as [H _].
  destruct (H ltac:(vm_compute; reflexivity) ltac:(vm_compute; reflexivity))
    as [[Habc _]|(_ & pre & l & post & (Hsplit & Hl & Hpost) & Hfinal & _)].
  - vm_compute in Habc. discriminate.
  - rewrite Hfinal. clear Hfinal H.
    assert ((rewrite_lines (splitlines
               ("import os" ++ LF ++ "import collections" ++ LF ++ "x = 1" ++ LF)) 1).1
            = ["import os" ++ LF; "import collections" ++ LF; "x = 1" ++ LF])
      as Hlines by (vm_compute; reflexivity).
    rewrite Hlines in Hsplit. clear Hlines.
    destruct pre as [|p0 [|p1 [|p2 pre]]]; cbn in Hsplit.
    + injection Hsplit as <- <-. vm_compute in Hl. discriminate.
    + injection Hsplit as <- <- <-. vm_compute. reflexivity.
    + injection Hsplit as <- <- <- <-. rewrite Forall_nil in Hpost.
      vm_compute in Hl. discriminate.
    + injection Hsplit as _ _ _ Hrest. by destruct pre.
Defined.

End MissingImport.


(** ** Rollback after apply: proofs *)

Section PathFacts.

Import Fixer Modernize Protocol Lossless.

Implicit Types (p e : string).

Lemma split_name_no_slash e : no_slash e = true → split_name e = ("", e).
Proof.
  induction e as [|c e IH]; [done|]. unfold no_slash. cbn [all_chars].
  intros [Hc He]%andb_true_iff. cbn [split_name]. rewrite (IH He).
  cbn [is_empty]. apply negb_true_iff in Hc. by rewrite Hc.
Qed.

Lemma split_name_app p e :
  no_slash e = true →
  split_name (p ++ e) = ((split_name p).1, (split_name p).2 ++ e).
Proof.
  intros He. induction p as [|c p IH].
  - rewrite append_nil_l. by rewrite split_name_no_slash.
  - rewrite append_cons. cbn [split_name]. rewrite IH.
    destruct (split_name p) as [d n]. cbn [fst snd].
    destruct (is_empty d); [|done]. by destruct (Ascii.eqb c "/").
Qed.

Lemma split_name_join p : p = (split_name p).1 ++ (split_name p).2.
Proof.
  induction p as [|c p IH]; [done|]. cbn [split_name].
  destruct (split_name p) as [d n]. cbn [fst snd] in IH.
  destruct d as [|x d]; cbn [is_empty].
  - rewrite append_nil_l in IH. subst n.
    by destruct (Ascii.eqb c "/").
  - cbn [fst snd]. by rewrite append_cons, <- IH.
Qed.

Lemma original_of_backup p :
  has_name p = true → original_of (p ++ BACKUP_EXT) = inr p.
Proof.
  unfold has_name, original_of. intros Hn.
  rewrite split_name_app by done.
  pose proof (split_name_join p) as Hp.
  destruct (split_name p) as [d n]. cbn [fst snd] in *.
  rewrite length_append.
  replace (String.length n + String.length BACKUP_EXT
           - String.length BACKUP_EXT)%nat with (String.length n) by lia.
  rewrite take_append. destruct n; [done|]. cbn [is_empty]. by rewrite <- Hp.
Qed.

Lemma has_name_py p : endswith ".py" p = true → has_name p = true.
Proof.
  intros [a ->]%endswith_inv. unfold has_name.
  rewrite split_name_app by done. cbn [snd].
  by destruct (split_name a).2.
Qed.

Lemma backup_name_inj p q : p ++ BACKUP_EXT = q ++ BACKUP_EXT → p = q.
Proof. apply append_inj_r. Qed.

End PathFacts.

Section Coverage.

Import Fixer Modernize Protocol Lossless.

Implicit Types (fs : tree) (st : State) (p q b : string).

Lemma backup_name_ne p q : is_backup_name p = false → q ++ BACKUP_EXT ≠ p.
Proof. intros Hp <-. rewrite is_backup_name_append in Hp. discriminate. Qed.

Lemma covered_backup_source fs0 fs st p v :
  covered fs0 fs st → is_backup_name p = false →
  fs !! (p ++ BACKUP_EXT) = Some v →
  fs0 !! p = Some v ∨ p ∈ created_files st.
Proof.
  intros Hcov Hp Hb.
  destruct (cov_backup _ _ _ Hcov (p ++ BACKUP_EXT))
    as (_ & p' & Heq & _ & _ & Hsrc);
    [apply is_backup_name_append | by eexists |].
  apply backup_name_inj in Heq. subst p'.
  destruct Hsrc as [Hsrc|Hsrc]; [left; congruence | by right].
Qed.

Lemma covered_ensure_backup fs0 fs st p :
  is_backup_name p = false → has_name p = true →
  covered fs0 fs st →
  covered fs0 (ensure_backup fs p st).1 (ensure_backup fs p st).2.
Proof.
  intros Hp Hn Hcov.
  destruct (ensure_backup_cases fs p st)
    as [[Hb ->]|[(_ & _ & ->)|(v & Hb & Hv & ->)]]; cbn [fst snd].
  - case_bool_decide as Hin; [done|].
    destruct Hcov as [Ha Hpr Hbk Hc Hnm Hf]. split; try done.
    + intros b Hbn Hex. destruct (Hbk b Hbn Hex) as [Hbin Hrest].
      split; [|done]. apply backups_add_backup. by left.
    + intros b [Hbin| ->]%backups_add_backup; [by apply Hnm|].
      apply is_backup_name_append.
  - done.
  - destruct Hcov as [Ha Hpr Hbk Hc Hnm Hf].
    assert (∀ q, is_backup_name q = false →
                 <[p ++ BACKUP_EXT := v]> fs !! q = fs !! q) as Hsame.
    { intros q Hq. apply lookup_insert_ne. by apply backup_name_ne. }
    split.
    + intros q Hq H0. rewrite Hsame by done. by apply Ha.
    + intros q v0 Hq H0. rewrite Hsame by done.
      destruct (Hpr q v0 Hq H0) as [Hex Hor]. split; [done|].
      destruct Hor as [Hor|Hor]; [by left|]. right.
      rewrite lookup_insert_ne; [done|]. intros Heq. congruence.
    + intros b Hbn Hex.
      destruct (decide (b = p ++ BACKUP_EXT)) as [->|Hne].
      * split; [apply backups_add_backup; by right|].
        exists p. split; [done|]. split; [done|].
        split; [by apply original_of_backup|].
        rewrite lookup_insert_eq.
        destruct (fs0 !! p) as [v0|] eqn:H0.
        -- left. destruct (Hpr p v0 Hp H0) as [_ [Hor|Hor]]; congruence.
        -- right. destruct (Ha p Hp H0) as [Hor|Hor]; [congruence|done].
      * rewrite lookup_insert_ne in Hex |- * by done.
        destruct (Hbk b Hbn Hex) as [Hbin Hrest].
        split; [apply backups_add_backup; by left|done].
    + done.
    + intros b [Hbin| ->]%backups_add_backup; [by apply Hnm|].
      apply is_backup_name_append.
    + done.
Qed.

Lemma covered_add_created fs0 fs st c :
  is_backup_name c = false → fs !! c = None →
  covered fs0 fs st → covered fs0 fs (add_created c st).
Proof.
  intros Hc Hmiss [Ha Hpr Hbk Hcr Hnm Hf]. split; try done.
  - intros q Hq H0. destruct (Ha q Hq H0); [by left|].
    right. apply created_add_created. by left.
  - intros b Hbn Hex. destruct (Hbk b Hbn Hex) as [Hbin (p & ? & ? & ? & Hor)].
    split; [done|]. exists p. repeat (split; [done|]).
    destruct Hor; [by left|]. right. apply created_add_created. by left.
  - intros x [Hx| ->]%created_add_created; [by apply Hcr|].
    split; [done|]. destruct (fs0 !! c) as [v|] eqn:H0; [|done].
    destruct (Hpr c v Hc H0) as [[w Hw] _]. congruence.
Qed.

Lemma covered_write fs0 fs st t content :
  is_backup_name t = false → protected fs st t →
  covered fs0 fs st → covered fs0 (write_text fs t content) st.
Proof.
  intros Ht Hpro Hcov.
  assert (∀ v, fs0 !! t = Some v → fs !! (t ++ BACKUP_EXT) = Some v) as Hold.
  { intros v H0. destruct Hpro as [Hin|[w Hw]].
    - destruct (cov_created _ _ _ Hcov t Hin) as [_ Hnone]. congruence.
    - destruct (covered_backup_source _ _ _ _ _ Hcov Ht Hw) as [Hsrc|Hin].
      + congruence.
      + destruct (cov_created _ _ _ Hcov t Hin) as [_ Hnone]. congruence. }
  assert (fs0 !! t = None → t ∈ created_files st) as Hnew.
  { intros H0. destruct Hpro as [Hin|[w Hw]]; [done|].
    destruct (covered_backup_source _ _ _ _ _ Hcov Ht Hw); [congruence|done]. }
  destruct Hcov as [Ha Hpr Hbk Hcr Hnm Hf]. unfold write_text. split.
  - intros q Hq H0. destruct (decide (q = t)) as [->|Hne].
    + right. by apply Hnew.
    + rewrite lookup_insert_ne by done. by apply Ha.
  - intros q v Hq H0. destruct (decide (q = t)) as [->|Hne].
    + rewrite lookup_insert_eq. split; [by eexists|]. right.
      rewrite lookup_insert_ne by by apply not_backup_name_ne.
      by apply Hold.
    + rewrite lookup_insert_ne by done.
      rewrite lookup_insert_ne by (symmetry; by apply backup_name_ne).
      by apply Hpr.
  - intros b Hbn Hex.
    assert (t ≠ b) as Hne by (intros ->; congruence).
    rewrite lookup_insert_ne in Hex |- * by done. by apply Hbk.
  - done.
  - done.
  - done.
Qed.

Lemma covered_step fs0 fs st fs' st' :
  step (fs, st) (fs', st') → covered fs0 fs st → covered fs0 fs' st'.
Proof.
  intros Hstep Hcov. inversion Hstep; subst.
  - match goal with
    | Hp : is_backup_name ?p = false, Hn : has_name ?p = true,
      Heq : ensure_backup _ ?p _ = _ |- _ =>
        pose proof (covered_ensure_backup fs0 fs st p Hp Hn Hcov) as H;
        by rewrite Heq in H
    end.
  - by apply covered_add_created.
  - by apply covered_write.
Qed.

Lemma covered_steps fs0 x y :
  steps x y → covered fs0 x.1 x.2 → covered fs0 y.1 y.2.
Proof.
  induction 1 as [|[fs st] [fs' st'] z Hstep _ IH]; [done|].
  intros Hcov. apply IH. by eapply covered_step.
Qed.

End Coverage.

Section Restore.

Import Fixer Modernize Protocol Lossless.

Implicit Types (fs : tree) (st : State) (p q b : string).

(** What [restore_backups] leaves at each path, when every backup of the list
    that exists names its original. *)
Lemma restore_backups_lookup fs (bs : list string) :
  (∀ b, b ∈ bs → is_backup_name b = true) →
  (∀ b, b ∈ bs → is_Some (fs !! b) →
        ∃ p, is_backup_name p = false ∧ b = p ++ BACKUP_EXT ∧
             original_of b = inr p) →
  ∃ fs', restore_backups fs bs = (fs', None) ∧
    (∀ q, is_backup_name q = true →
          fs' !! q = if decide (q ∈ bs) then None else fs !! q) ∧
    (∀ q, is_backup_name q = false →
          fs' !! q = if decide (q ++ BACKUP_EXT ∈ bs)
                     then match fs !! (q ++ BACKUP_EXT) with
                          | Some v => Some v
                          | None => fs !! q
                          end
                     else fs !! q).
Proof.
  revert fs. induction bs as [|b bs IH]; intros fs Hnames Horig.
  - exists fs. split; [done|]. split; intros q _; by case_decide; set_solver.
  - assert (∀ x, x ∈ bs → is_backup_name x = true) as Hnames'
      by (intros x Hx; apply Hnames; by right).
    assert (is_backup_name b = true) as Hb by (apply Hnames; by left).
    cbn [restore_backups]. destruct (exists_file fs b) eqn:Hex; cbn [negb].
    + apply exists_file_true in Hex.
      destruct (Horig b ltac:(by left) Hex) as (p & Hp & -> & Ho).
      rewrite Ho. destruct Hex as [v Hv]. unfold copy2. rewrite Hv.
      set (fs2 := delete (p ++ BACKUP_EXT) (<[p := v]> fs)).
      assert (∀ x, x ≠ p → x ≠ p ++ BACKUP_EXT → fs2 !! x = fs !! x) as Hother.
      { intros x H1 H2. unfold fs2.
        by rewrite lookup_delete_ne, lookup_insert_ne. }
      assert (fs2 !! (p ++ BACKUP_EXT) = None) as Hgone
        by (unfold fs2; apply lookup_delete_eq).
      assert (fs2 !! p = Some v) as Hback.
      { unfold fs2. rewrite lookup_delete_ne by by apply backup_name_ne.
        apply lookup_insert_eq. }
      destruct (IH fs2 Hnames') as (fs' & -> & Hbk & Hfile).
      { intros x Hx Hsome. apply Horig; [by right|].
        assert (x ≠ p) by (intros ->; specialize (Hnames' _ Hx); congruence).
        destruct (decide (x = p ++ BACKUP_EXT)) as [->|Hne].
        - rewrite Hgone in Hsome. by destruct Hsome.
        - by rewrite Hother in Hsome. }
      exists fs'. split; [done|]. split.
      * intros q Hq. rewrite (Hbk q Hq).
        destruct (decide (q = p ++ BACKUP_EXT)) as [->|Hne].
        -- rewrite Hgone. repeat case_decide; try done; set_solver.
        -- assert (q ≠ p) by (intros ->; congruence).
           rewrite Hother by done.
           repeat case_decide; try done; set_solver.
      * intros q Hq. rewrite (Hfile q Hq).
        destruct (decide (q = p)) as [->|Hne].
        -- rewrite Hgone, Hback, Hv.
           repeat case_decide; try done; set_solver.
        -- assert (q ++ BACKUP_EXT ≠ p ++ BACKUP_EXT)
             by (intros Heq; by apply backup_name_inj in Heq).
           assert (q ≠ p ++ BACKUP_EXT) by by apply not_backup_name_ne.
           assert (q ++ BACKUP_EXT ≠ p) by by apply backup_name_ne.
           rewrite !Hother by done.
           repeat case_decide; try done; set_solver.
    + apply exists_file_false in Hex.
      destruct (IH fs Hnames') as (fs' & -> & Hbk & Hfile).
      { intros x Hx. apply Horig. by right. }
      exists fs'. split; [done|]. split.
      * intros q Hq. rewrite (Hbk q Hq).
        destruct (decide (q = b)) as [->|Hne].
        -- rewrite Hex. repeat case_decide; try done; set_solver.
        -- repeat case_decide; try done; set_solver.
      * intros q Hq. rewrite (Hfile q Hq).
        destruct (decide (q ++ BACKUP_EXT = b)) as [<-|Hne].
        -- rewrite Hex. repeat case_decide; try done; set_solver.
        -- repeat case_decide; try done; set_solver.
Qed.

Lemma remove_created_lookup fs (cs : list string) q :
  remove_created fs cs !! q = if decide (q ∈ cs) then None else fs !! q.
Proof.
  revert fs. induction cs as [|c cs IH]; intros fs; cbn [remove_created].
  - by rewrite decide_False by set_solver.
  - rewrite IH. destruct (exists_file fs c) eqn:Hex.
    + destruct (decide (q = c)) as [->|Hne].
      * rewrite lookup_delete_eq. repeat case_decide; try done; set_solver.
      * rewrite lookup_delete_ne by done. repeat case_decide; try done; set_solver.
    + apply exists_file_false in Hex.
      destruct (decide (q = c)) as [->|Hne].
      * rewrite Hex. repeat case_decide; try done; set_solver.
      * repeat case_decide; try done; set_solver.
Qed.

(** With a covering ledger on disk, [rollback] gives back the tree the
    session started from, and no ledger. *)
Lemma rollback_covered (fs0 : tree) fs st :
  covered fs0 fs st →
  rollback (mkWorld fs (Some st))
  = (mkWorld fs0 None, ["Rollback completed."], Exit 0).
Proof.
  intros Hcov. unfold rollback. cbn [ledger files].
  destruct (restore_backups_lookup fs (backups st)) as (fs' & -> & Hbk & Hfile).
  { apply (cov_names _ _ _ Hcov). }
  { intros b Hb Hex.
    destruct (cov_backup _ _ _ Hcov b (cov_names _ _ _ Hcov b Hb) Hex)
      as (_ & p & ? & ? & ? & _). by exists p. }
  do 2 f_equal. f_equal. apply map_eq. intros q.
  rewrite remove_created_lookup.
  destruct (is_backup_name q) eqn:Hq.
  - rewrite (cov_fresh _ _ _ Hcov q Hq).
    case_decide; [done|]. rewrite (Hbk q Hq).
    case_decide; [done|].
    destruct (fs !! q) as [v|] eqn:Hv; [|done].
    destruct (cov_backup _ _ _ Hcov q Hq) as [Hin _]; [by eexists|done].
  - case_decide as Hc.
    { by destruct (cov_created _ _ _ Hcov q Hc) as [_ ->]. }
    rewrite (Hfile q Hq).
    destruct (fs0 !! q) as [v|] eqn:H0.
    + destruct (cov_present _ _ _ Hcov q v Hq H0) as [Hex Hor].
      destruct (fs !! (q ++ BACKUP_EXT)) as [w|] eqn:Hw.
      * destruct (covered_backup_source _ _ _ _ _ Hcov Hq Hw) as [Hs|Hs];
          [|done].
        assert (q ++ BACKUP_EXT ∈ backups st) as Hin.
        { apply (cov_backup _ _ _ Hcov); [apply is_backup_name_append|].
          by eexists. }
        rewrite decide_True by done. congruence.
      * destruct Hor as [Hor|Hor]; [|congruence]. by case_decide.
    + destruct (cov_absent _ _ _ Hcov q Hq H0) as [Hnone|Hin]; [|done].
      destruct (fs !! (q ++ BACKUP_EXT)) as [w|] eqn:Hw.
      * destruct (covered_backup_source _ _ _ _ _ Hcov Hq Hw); [congruence|done].
      * by case_decide.
Qed.

End Restore.

Section FixerOnFreshTree.

Import Fixer Modernize Protocol Lossless.

Implicit Types (fs : tree) (st : State) (p q b : string).

Lemma backup_path_free fs p ext :
  fs !! (p ++ ext) = None → backup_path fs p ext = p ++ ext.
Proof.
  intros Hfree. unfold backup_path, backup_path_search.
  apply exists_file_false in Hfree. by rewrite Hfree.
Qed.

Lemma elem_of_iter_py_files fs root ext p :
  p ∈ iter_py_files fs root ext →
  startswith (root ++ "/") p = true ∧ endswith ".py" p = true ∧
  endswith ext p = false.
Proof.
  unfold iter_py_files. rewrite list_elem_of_In, filter_In.
  intros [_ H]. apply andb_true_iff in H as [H H3].
  apply andb_true_iff in H as [H1 H2]. apply negb_true_iff in H3. done.
Qed.

Lemma NoDup_iter_py_files fs root ext : NoDup (iter_py_files fs root ext).
Proof.
  unfold iter_py_files. apply NoDup_ListNoDup, List.NoDup_filter.
  apply NoDup_ListNoDup, NoDup_fst_map_to_list.
Qed.

Lemma fixing_process_file (fs0 : tree) fs p (todo : list string) :
  fixing fs0 fs (p :: todo) → p ∉ todo →
  is_backup_name p = false → endswith ".py" p = true → p ≠ COLLECTIONS_LOG →
  (∀ x, x ∈ todo → is_backup_name x = false) →
  fixing fs0 (process_file fs p false BACKUP_EXT).1.1 todo.
Proof.
  intros [Ho Hb Ht] Hnotin Hp Hpy Hlog Htodo.
  assert (fixing fs0 fs todo) as Hsame.
  { split; [done|done|]. intros x Hx. apply Ht. by right. }
  destruct (Ht p ltac:(by left)) as [Hp0 Hfree].
  unfold process_file, read_source.
  destruct (fs !! p) as [v|] eqn:Hv; cbn [fmap option_fmap option_map]; [|done].
  destruct (rewrite (universal_newlines v)) as [uc cs].
  destruct (String.eqb uc (universal_newlines v)); [done|]. cbn [fst].
  rewrite backup_path_free by done. unfold copy2. rewrite Hv.
  assert (∀ x, x ≠ p → x ≠ p ++ BACKUP_EXT →
               <[p := uc]> (<[p ++ BACKUP_EXT := v]> fs) !! x = fs !! x)
    as Hother by (intros x H1 H2; by rewrite !lookup_insert_ne).
  assert (<[p := uc]> (<[p ++ BACKUP_EXT := v]> fs) !! (p ++ BACKUP_EXT)
          = Some v) as Hnew.
  { rewrite lookup_insert_ne by by apply not_backup_name_ne.
    apply lookup_insert_eq. }
  split.
  - intros q Hq Hql. destruct (decide (q = p)) as [->|Hne].
    + rewrite <- Hp0. rewrite lookup_insert_eq. split; [by eexists|by right].
    + assert (q ++ BACKUP_EXT ≠ p) by by apply backup_name_ne.
      assert (q ++ BACKUP_EXT ≠ p ++ BACKUP_EXT)
        by (intros Heq; by apply backup_name_inj in Heq).
      assert (q ≠ p ++ BACKUP_EXT) by by apply not_backup_name_ne.
      rewrite !Hother by done. by apply Ho.
  - intros b Hbn Hex. destruct (decide (b = p ++ BACKUP_EXT)) as [->|Hne].
    + exists p. split; [done|]. split; [done|].
      split; [apply original_of_backup; by apply has_name_py|].
      by rewrite Hnew, <- Hp0.
    + assert (b ≠ p) by (intros ->; congruence).
      rewrite Hother in Hex |- * by done. by apply Hb.
  - intros x Hx.
    assert (x ≠ p) by (intros ->; done).
    assert (is_backup_name x = false) as Hxn by by apply Htodo.
    assert (x ++ BACKUP_EXT ≠ p) by by apply backup_name_ne.
    assert (x ++ BACKUP_EXT ≠ p ++ BACKUP_EXT)
      by (intros Heq; by apply backup_name_inj in Heq).
    assert (x ≠ p ++ BACKUP_EXT) by by apply not_backup_name_ne.
    rewrite !Hother by done. apply Ht. by right.
Qed.

Lemma fixing_process_files (fs0 : tree) fs (todo : list string) :
  fixing fs0 fs todo → NoDup todo →
  (∀ x, x ∈ todo → is_backup_name x = false ∧ endswith ".py" x = true
                   ∧ x ≠ COLLECTIONS_LOG) →
  fixing fs0 (process_files fs todo false BACKUP_EXT).1.1 [].
Proof.
  revert fs. induction todo as [|p todo IH]; intros fs Hfix Hnd Hall; [done|].
  cbn [process_files].
  pose proof (fixing_process_file fs0 fs p todo Hfix) as Hstep.
  destruct (process_file fs p false BACKUP_EXT) as [[fs1 r] log1].
  cbn [fst] in Hstep.
  specialize (IH fs1).
  destruct (process_files fs1 todo false BACKUP_EXT) as [[fs2 rs] log2].
  cbn [fst] in *. apply NoDup_cons in Hnd as [Hnotin Hnd].
  destruct (Hall p ltac:(by left)) as (Hp & Hpy & Hlog).
  apply IH; [|done|].
  - apply Hstep; try done. intros x Hx. apply Hall. by right.
  - intros x Hx. apply Hall. by right.
Qed.

Lemma fixing_log (fs0 : tree) fs content :
  fixing fs0 fs [] → fixing fs0 (<[COLLECTIONS_LOG := content]> fs) [].
Proof.
  intros [Ho Hb _]. split.
  - intros q Hq Hql.
    assert (q ++ BACKUP_EXT ≠ COLLECTIONS_LOG)
      by (by apply backup_name_ne).
    rewrite !lookup_insert_ne by done. by apply Ho.
  - intros b Hbn Hex.
    assert (COLLECTIONS_LOG ≠ b) by (intros <-; discriminate).
    rewrite lookup_insert_ne in Hex |- * by done. by apply Hb.
  - intros p Hp. by apply elem_of_nil in Hp.
Qed.

Lemma fresh_lookup fs q :
  fresh fs → is_backup_name q = true → fs !! q = None.
Proof.
  intros [Hall _] Hq. destruct (fs !! q) as [v|] eqn:Hv; [|done].
  specialize (Hall q v Hv). cbn in Hall. congruence.
Qed.

(** The fixer run by the orchestrator, on a fresh tree. *)
Lemma main_fixing (fs0 : tree) :
  fresh fs0 →
  let fs1 := (Fixer.main fs0 "ryu" false BACKUP_EXT (Some COLLECTIONS_LOG)).1 in
  fixing fs0 fs1 [] ∧ is_Some (fs1 !! COLLECTIONS_LOG).
Proof.
  intros Hfresh. pose proof Hfresh as [Hall Hlog].
  unfold Fixer.main. cbn [open_log append_log]. rewrite Hlog. cbn [default from_option id].
  set (fsa := <[COLLECTIONS_LOG := ""]> fs0).
  assert (∀ x, x ≠ COLLECTIONS_LOG → fsa !! x = fs0 !! x) as Hother
    by (intros x Hx; unfold fsa; by rewrite lookup_insert_ne).
  assert (∀ todo, (∀ x, x ∈ todo → is_backup_name x = false
                                   ∧ x ≠ COLLECTIONS_LOG) →
                  fixing fs0 fsa todo) as Hinit.
  { intros todo Htodo. split.
    - intros q Hq Hql. rewrite Hother by done.
      destruct (fs0 !! q) as [v|] eqn:H0; [|done].
      split; [by eexists|by left].
    - intros b Hbn [v Hv].
      rewrite Hother in Hv by (intros ->; discriminate).
      by rewrite (fresh_lookup fs0 b) in Hv.
    - intros p Hp. destruct (Htodo p Hp) as [Hpn Hpl].
      rewrite Hother by done. split; [done|].
      rewrite Hother by (by apply backup_name_ne).
      apply fresh_lookup; [done|apply is_backup_name_append]. }
  destruct (root_exists fsa "ryu"); cbn [negb fst].
  - set (todo := iter_py_files fsa "ryu" BACKUP_EXT).
    assert (∀ x, x ∈ todo → is_backup_name x = false ∧ endswith ".py" x = true
                            ∧ x ≠ COLLECTIONS_LOG) as Htodo.
    { intros x Hx. apply elem_of_iter_py_files in Hx as (Hr & Hpy & Hext).
      split; [done|]. split; [done|]. intros ->. discriminate. }
    pose proof (fixing_process_files fs0 fsa todo) as Hloop.
    destruct (process_files fsa todo false BACKUP_EXT) as [[fs2 rs] recs].
    cbn [fst] in *. split.
    + apply fixing_log. apply Hloop; [|apply NoDup_iter_py_files|done].
      apply Hinit. intros x Hx. destruct (Htodo x Hx) as (? & _ & ?). done.
    + rewrite lookup_insert_eq. by eexists.
  - split.
    + apply fixing_log. apply Hinit. intros x Hx. by apply elem_of_nil in Hx.
    + rewrite lookup_insert_eq. by eexists.
Qed.

Lemma collections_patch_covered (fs0 : tree) s :
  fresh fs0 →
  collections_patch (mkSession fs0 (mkState [] []) []) = Ok s →
  covered fs0 (s_files s) (s_state s).
Proof.
  intros Hfresh. unfold collections_patch. cbn [s_files s_state s_changes].
  destruct (apply_collections_fix_result fs0 (mkState [] []))
    as (Hfs & Hb & Hc).
  destruct (main_fixing fs0 Hfresh) as [[Ho Hbk _] Hlog].
  destruct (apply_collections_fix fs0 (mkState [] [])) as [[fs1 st1] l].
  cbn [fst snd backups created_files] in *. intros [= <-].
  cbn [s_files s_state]. subst fs1.
  set (fs1 := (Fixer.main fs0 "ryu" false BACKUP_EXT (Some COLLECTIONS_LOG)).1)
    in *.
  assert (∀ c, c ∈ created_files st1 ↔ c = COLLECTIONS_LOG) as Hcreated.
  { intros c. rewrite Hc. split; [intros [H|[-> _]]; [by apply elem_of_nil in H|done]|].
    intros ->. by right. }
  split.
  - intros q Hq H0. destruct (decide (q = COLLECTIONS_LOG)) as [->|Hne].
    + right. by apply Hcreated.
    + left. specialize (Ho q Hq Hne). by rewrite H0 in Ho.
  - intros q v Hq H0.
    assert (q ≠ COLLECTIONS_LOG) as Hne.
    { intros ->. destruct Hfresh as [_ Hl]. congruence. }
    specialize (Ho q Hq Hne). by rewrite H0 in Ho.
  - intros b Hbn Hex. split.
    + apply Hb. right. by apply elem_of_rglob_backups.
    + destruct (Hbk b Hbn Hex) as (p & ? & ? & ? & ?).
      exists p. repeat (split; [done|]). by left.
  - intros c ->%Hcreated. split; [done|]. by destruct Hfresh.
  - intros b [H|H]%Hb; [by apply elem_of_nil in H|].
    by apply elem_of_rglob_backups in H as [? _].
  - intros q Hq. by apply fresh_lookup.
Qed.

End FixerOnFreshTree.

Section Losslessness.

Import Fixer Modernize Protocol Lossless Examples.

Lemma later_patches_steps env test_command skip_tests s1 s2 s3 s4 s5 :
  ensure_eventlet_already_handled "ryu/app/wsgi.py" s1 = Ok s2 →
  ensure_dnspython_compat "ryu/lib/hub.py" s2 = Ok s3 →
  update_requirements "requirements.txt" s3 = Ok s4 →
  write_report env (tests_of env test_command skip_tests) s4 = Ok s5 →
  steps (session_pair s1) (session_pair s5).
Proof.
  intros H2 H3 H4 H5.
  etrans; [exact (ensure_eventlet_steps "ryu/app/wsgi.py" _ _ eq_refl eq_refl H2)|].
  etrans; [exact (ensure_dnspython_steps "ryu/lib/hub.py" _ _ eq_refl eq_refl H3)|].
  etrans;
    [exact (update_requirements_steps "requirements.txt" _ _ eq_refl eq_refl H4)|].
  exact (write_report_steps _ _ _ _ H5).
Qed.

(** C2, amended.  A session that starts on a tree without ledger, without
    any file carrying the backup suffix and without the log of the
    collections fix, and whose [apply] completes: [rollback] gives back the
    tree exactly as it was.  Every file [apply] changed has its content from
    before, every file [apply] created, backups, log and reports included,
    is gone, and the ledger file is deleted. *)
Theorem rollback_after_apply (env : Env) (fs0 : tree)
    (test_command : option string) (skip_tests : bool)
    (w' : World) (out : list string) (code : nat) :
  fresh fs0 →
  apply env (mkWorld fs0 None) test_command skip_tests = (w', out, Exit code) →
  rollback w' = (mkWorld fs0 None, ["Rollback completed."], Exit 0).
Proof.
  intros Hfresh Happly.
  destruct (apply_Exit _ _ _ _ _ _ _ Happly)
    as (s1 & s2 & s3 & s4 & s5 & H1 & H2 & H3 & H4 & H5 & -> & _).
  apply rollback_covered.
  pose proof (collections_patch_covered fs0 s1 Hfresh H1) as Hcov.
  exact (covered_steps fs0 _ _
           (later_patches_steps _ _ _ _ _ _ _ _ H2 H3 H4 H5) Hcov).
Qed.

Lemma fresh_ready_tree : fresh ready_tree.
Proof.
  split; [|vm_compute; reflexivity].
  apply (bool_decide_unpack _). vm_compute. exact I.
Qed.

Lemma rollback_after_apply_witness :
  (apply env0 (mkWorld ready_tree None) None true).2 = Exit 0 ∧
  files (apply env0 (mkWorld ready_tree None) None true).1.1
    !! "ryu/lib/hub.py" ≠ Some hub_py ∧
  rollback (apply env0 (mkWorld ready_tree None) None true).1.1
  = (mkWorld ready_tree None, ["Rollback completed."], Exit 0).
Proof.
  destruct (apply env0 (mkWorld ready_tree None) None true) as [[w' out] code]
    eqn:Happly.
  assert (code = Exit 0) as -> by (vm_compute in Happly; congruence).
  split; [reflexivity|]. split.
  - vm_compute in Happly. injection Happly as <- _. vm_compute. discriminate.
  - exact (rollback_after_apply env0 ready_tree None true w' out 0
             fresh_ready_tree Happly).
Defined.

End Losslessness.

(** ** The ledger file is written at the end *)

Section LedgerAtTheEnd.

Import Fixer Modernize Protocol Lossless Examples.








(** The ledger of a completed session lists the files that end with the
    backup suffix, and no other backup.  With the backup of [a.py] of an
    earlier session in place, the fixer saves [a.py] under the numbered name,
    which ends in [.1]: the ledger does not list it, and [rollback] puts the
    older content back. *)
Lemma numbered_backup_not_listed :
  let w := mkWorld (<["ryu/a.py.ryu-modernize.bak" := "# stale" ++ LF]> ready_tree)
             None in
  let r := apply env0 w None true in
  r.2 = Exit 0 ∧
  files r.1.1 !! "ryu/a.py.ryu-modernize.bak.1" = Some a_py ∧
  (∀ st, ledger r.1.1 = Some st → "ryu/a.py.ryu-modernize.bak.1" ∉ backups st) ∧
  files (rollback r.1.1).1.1 !! "ryu/a.py" = Some ("# stale" ++ LF).
Proof.
  vm_compute. split; [reflexivity|]. split; [reflexivity|]. split; [|reflexivity].
  intros st [= <-] Hin.
  repeat (apply elem_of_cons in Hin as [Hin|Hin]; [discriminate|]).
  by apply elem_of_nil in Hin.
Qed.

End LedgerAtTheEnd.

(** ** Further properties of the fixer's text functions *)

Section TextProperties.

Import Fixer Shapes.

Implicit Types (s t a b sub : string).

Lemma join_empty_cons (x : string) (xs : list string) :
  join "" (x :: xs) = x ++ join "" xs.
Proof.
  destruct xs as [|y xs]; cbn [join]; [by rewrite append_nil_r|done].
Qed.

Lemma splitlines_join_bounded (n : nat) s :
  (String.length s ≤ n)%nat → join "" (splitlines s) = s.
Proof.
  revert s. induction n as [|n IH]; intros s Hn.
  - destruct s; [done|]. cbn in Hn. lia.
  - destruct s as [|c s]; [done|]. cbn [String.length] in Hn.
    cbn [splitlines]. destruct (islinebreak c).
    + destruct s as [|d s]; [done|].
      destruct (Ascii.eqb c "013" && Ascii.eqb d "010").
      * rewrite join_empty_cons, IH by (cbn [String.length] in Hn; lia). done.
      * rewrite join_empty_cons, IH by lia. done.
    + pose proof (IH s ltac:(lia)) as Hs.
      destruct (splitlines s) as [|x xs].
      * cbn in Hs. by subst s.
      * rewrite join_empty_cons in Hs. rewrite join_empty_cons.
        by rewrite append_cons, Hs.
Qed.

(** [splitlines(keepends=True)] loses nothing: the lines joined with the
    empty text are the text. *)
Lemma join_splitlines s : join "" (splitlines s) = s.
Proof. by apply (splitlines_join_bounded (String.length s)). Qed.

Lemma universal_newlines_no_cr_bounded (n : nat) s :
  (String.length s ≤ n)%nat →
  all_chars (λ c, negb (is_cr c)) (universal_newlines s) = true.
Proof.
  revert s. induction n as [|n IH]; intros s Hn.
  - destruct s; [done|]. cbn in Hn. lia.
  - destruct s as [|c s]; [done|]. cbn [String.length] in Hn.
    cbn [universal_newlines]. destruct (Ascii.eqb c "013") eqn:Hc.
    + cbn [all_chars]. change (negb (is_cr "010")) with true. cbn [andb].
      destruct s as [|d s]; [done|]. cbn [String.length] in Hn.
      destruct (Ascii.eqb d "010"); apply IH; cbn [String.length]; lia.
    + cbn [all_chars]. unfold is_cr at 1. rewrite Hc. cbn [negb andb].
      apply IH. lia.
Qed.

Lemma contains_inv sub s :
  contains sub s = true → ∃ a b, s = a ++ sub ++ b.
Proof.
  induction s as [|c s IH]; cbn [contains].
  - rewrite orb_false_r, startswith_strip_prefix.
    destruct (strip_prefix sub "") as [r|] eqn:E; [|done].
    intros _. apply strip_prefix_Some in E. by exists "", r.
  - intros [H|H]%orb_true_iff.
    + rewrite startswith_strip_prefix in H.
      destruct (strip_prefix sub (String c s)) as [r|] eqn:E; [|done].
      apply strip_prefix_Some in E. by exists "", r.
    + destruct (IH H) as (a & b & ->). by exists (String c a), b.
Qed.

Lemma contains_app sub a b : contains sub (a ++ sub ++ b) = true.
Proof.
  induction a as [|c a IH].
  - rewrite append_nil_l. destruct (sub ++ b) eqn:E; cbn [contains];
      rewrite <- E, startswith_strip_prefix, strip_prefix_append; done.
  - rewrite append_cons. cbn [contains]. rewrite IH. by rewrite orb_true_r.
Qed.

Lemma contains_part sub a s b :
  contains sub s = true → contains sub (a ++ s ++ b) = true.
Proof.
  intros (x & y & ->)%contains_inv.
  replace (a ++ (x ++ sub ++ y) ++ b) with ((a ++ x) ++ sub ++ (y ++ b))
    by by rewrite !append_assoc.
  apply contains_app.
Qed.

Lemma contains_longer sub t s :
  contains (sub ++ t) s = true → contains sub s = true.
Proof.
  intros (x & y & ->)%contains_inv. rewrite append_assoc. apply contains_app.
Qed.

(** X1.  What the fixer reads holds no carriage return, so the test for
    CR LF in [process_file] never succeeds on it: the newline of an inserted
    import is always LF. *)
Theorem read_source_no_cr (fs : tree) (p content : string) :
  read_source fs p = Some content →
  all_chars (λ c, negb (is_cr c)) content = true ∧
  contains CRLF content = false.
Proof.
  unfold read_source. destruct (fs !! p) as [v|]; [|done].
  cbn [fmap option_fmap option_map]. intros [= <-].
  assert (all_chars (λ c, negb (is_cr c)) (universal_newlines v) = true) as Hno
    by by apply (universal_newlines_no_cr_bounded (String.length v)).
  split; [done|].
  destruct (contains CRLF (universal_newlines v)) eqn:E; [|done].
  apply contains_inv in E as (a & b & Hab). rewrite Hab in Hno.
  rewrite !all_chars_app in Hno.
  apply andb_true_iff in Hno as [_ Hno]. by apply andb_true_iff in Hno as [Hno _].
Qed.

Lemma read_source_no_cr_witness :
  contains CRLF (universal_newlines ("x = 1" ++ CRLF ++ "y = 2" ++ CR)) = false.
Proof.
  apply (read_source_no_cr
           {[ "a.py" := "x = 1" ++ CRLF ++ "y = 2" ++ CR ]} "a.py").
  vm_compute. reflexivity.
Defined.

Lemma split_once_char_before (c : ascii) s a b :
  split_once (String c "") s = Some (a, b) →
  all_chars (λ x, negb (Ascii.eqb c x)) a = true.
Proof.
  revert a. induction s as [|d s IH]; intros a; cbn [split_once strip_prefix].
  - done.
  - destruct (Ascii.eqb c d) eqn:E; [by intros [= <- <-]|].
    destruct (split_once (String c "") s) as [[a' b']|]; [|done].
    intros [= <- <-]. cbn [all_chars]. rewrite E. by apply IH.
Qed.

Lemma split_once_char_None (c : ascii) s :
  split_once (String c "") s = None →
  all_chars (λ x, negb (Ascii.eqb c x)) s = true.
Proof.
  induction s as [|d s IH]; cbn [split_once strip_prefix]; [done|].
  destruct (Ascii.eqb c d) eqn:E; [done|].
  destruct (split_once (String c "") s) as [[a' b']|]; [done|].
  intros _. cbn [all_chars]. rewrite E. by apply IH.
Qed.

(** X2.  [split_comment] cuts a line at its first [#]: code and comment put
    together are the line, the code holds no [#], and the comment is empty
    or starts with [#]. *)
Theorem split_comment_parts (line : string) :
  let '(code, comment) := split_comment line in
  line = code ++ comment ∧
  all_chars (λ x, negb (Ascii.eqb "#" x)) code = true ∧
  (comment = "" ∨ startswith "#" comment = true).
Proof.
  pose proof (split_comment_join line) as Hjoin. unfold split_comment in *.
  destruct (split_once "#" line) as [[a b]|] eqn:E; cbn [fst snd] in Hjoin.
  - split; [done|]. split; [by eapply split_once_char_before|by right].
  - split; [done|]. split; [by apply split_once_char_None|by left].
Qed.

(** *** The usage substitution *)

Lemma sub_from_no_match (lit repl : string) (pw : bool) s :
  search_from lit pw s = false → sub_from lit repl pw 0 s = s.
Proof.
  revert pw. induction s as [|c s IH]; intros pw; [done|].
  cbn [search_from sub_from]. intros [Hm Hs]%orb_false_iff.
  rewrite Hm. by rewrite IH.
Qed.

Lemma replace_loop_quiet (table : list (string * string * string))
    (line : string) (n : nat) :
  (replace_loop table line n).2 = [] ↔
  existsb (λ e, re_search e.1.2 line) table = false.
Proof.
  induction table as [|[[pat lit] repl] table IH]; cbn [replace_loop existsb];
    [done|]. cbn [fst snd].
  destruct (re_search lit line); cbn [orb].
  - destruct (replace_loop table (re_sub lit repl line) n). cbn [snd]. done.
  - done.
Qed.

Lemma replace_loop_same (table : list (string * string * string))
    (line : string) (n : nat) :
  existsb (λ e, re_search e.1.2 line) table = false →
  replace_loop table line n = (line, []).
Proof.
  induction table as [|[[pat lit] repl] table IH]; cbn [replace_loop existsb];
    [done|]. cbn [fst snd].
  intros [-> H]%orb_false_iff. by apply IH.
Qed.

(** X3.  [replace_collections_usage] records no change exactly when none of
    the three patterns is found in the line, and then it returns the line as
    it is. *)
Theorem replace_collections_usage_quiet (line : string) (n : nat) :
  ((replace_collections_usage line n).2 = [] ↔
   existsb (λ e, re_search e.1.2 line) REPLACEMENTS = false) ∧
  ((replace_collections_usage line n).2 = [] →
   (replace_collections_usage line n).1 = line).
Proof.
  split; [apply replace_loop_quiet|].
  intros H%replace_loop_quiet. unfold replace_collections_usage.
  by rewrite replace_loop_same.
Qed.

Lemma replace_collections_usage_quiet_witness :
  (replace_collections_usage "x = collections.OrderedDict()" 3).1
  = "x = collections.OrderedDict()".
Proof.
  apply (replace_collections_usage_quiet "x = collections.OrderedDict()" 3).
  vm_compute. reflexivity.
Defined.

End TextProperties.

Section Untouched.

Import Fixer Shapes.

Implicit Types (s t a b l : string).

Lemma join_elem (l : string) (ls : list string) :
  l ∈ ls → ∃ a b, join "" ls = a ++ l ++ b.
Proof.
  induction ls as [|x ls IH]; [by intros ?%elem_of_nil|].
  rewrite join_empty_cons. intros [->|Hl]%elem_of_cons.
  - by exists "", (join "" ls).
  - destruct (IH Hl) as (a & b & ->). exists (x ++ a), b.
    by rewrite append_assoc.
Qed.

Lemma contains_skip (sub a t : string) :
  contains sub t = true → contains sub (a ++ t) = true.
Proof.
  intros H. pose proof (contains_part sub a t "" H) as Hp.
  by rewrite append_nil_r in Hp.
Qed.

Lemma contains_head (sub b : string) : contains sub (sub ++ b) = true.
Proof. apply (contains_app sub "" b). Qed.

Lemma contains_line sub (l s : string) :
  l ∈ splitlines s → contains sub l = true → contains sub s = true.
Proof.
  intros Hl Hc. destruct (join_elem _ _ Hl) as (a & b & Hs).
  rewrite join_splitlines in Hs. rewrite Hs. by apply contains_part.
Qed.

Lemma rstrip_chars_prefix (p : ascii → bool) s :
  ∃ t, s = rstrip_chars p s ++ t.
Proof.
  induction s as [|c s (t & Ht)]; [by exists ""|]. cbn [rstrip_chars].
  destruct (is_empty (rstrip_chars p s) && p c).
  - by exists (String c s).
  - exists t. by rewrite append_cons, <- Ht.
Qed.

Lemma span_space_join s indent r : span_space s = (indent, r) → s = indent ++ r.
Proof.
  revert indent. induction s as [|c s IH]; intros indent; cbn [span_space].
  - by intros [= <- <-].
  - destruct (isspace c); [|by intros [= <- <-]].
    destruct (span_space s) as [w r']. intros [= <- <-].
    by rewrite append_cons, <- (IH w).
Qed.

Lemma FROM_COLLECTIONS_RE_contains s x :
  FROM_COLLECTIONS_RE s = Some x → contains "collections" s = true.
Proof.
  unfold FROM_COLLECTIONS_RE.
  destruct (span_space s) as [indent r] eqn:Espan.
  apply span_space_join in Espan.
  destruct (strip_prefix "from" r) as [r1|] eqn:E1; [|done].
  cbn [mbind option_bind].
  destruct (space_plus r1) as [r2|] eqn:E2; [|done]. cbn [mbind option_bind].
  destruct (strip_prefix "collections" r2) as [r3|] eqn:E3; [|done].
  intros _. apply strip_prefix_Some in E1, E3.
  apply space_plus_inv in E2 as (w & -> & _).
  subst. do 3 apply contains_skip. apply contains_head.
Qed.

Lemma COLLECTIONS_IMPORT_RE_contains s :
  COLLECTIONS_IMPORT_RE s = true → contains "collections" s = true.
Proof.
  intros [H|H]%COLLECTIONS_IMPORT_RE_shape.
  - destruct H as (ws & w1 & w2 & t & _ & _ & _ & _ & _ & _ & ->).
    do 3 apply contains_skip. apply contains_head.
  - destruct H as (ws & w1 & t & _ & _ & _ & _ & ->).
    do 3 apply contains_skip. apply contains_head.
Qed.

Lemma search_from_contains (lit : string) (pw : bool) s :
  search_from lit pw s = true → contains lit s = true.
Proof.
  revert pw. induction s as [|c s IH]; intros pw; cbn [search_from contains].
  - rewrite !orb_false_r. unfold match_here.
    rewrite startswith_strip_prefix.
    destruct (strip_prefix lit ""); [done|]. by rewrite andb_false_r.
  - intros [H|H]%orb_true_iff.
    + unfold match_here in H. rewrite startswith_strip_prefix.
      destruct (strip_prefix lit (String c s)); [done|].
      by rewrite andb_false_r in H.
    + rewrite (IH _ H). by rewrite orb_true_r.
Qed.

Lemma table_mentions_collections (e : string * string * string) s :
  e ∈ REPLACEMENTS → re_search e.1.2 s = true →
  contains "collections" s = true.
Proof.
  intros He Hs. apply search_from_contains in Hs.
  unfold REPLACEMENTS in He.
  repeat (apply elem_of_cons in He as [->|He]); [| | |by apply elem_of_nil in He];
    cbn [fst snd] in Hs;
    by apply (contains_longer "collections" _ _ Hs).
Qed.

Lemma line_without_collections (l : string) (n : nat) :
  contains "collections" l = false →
  process_from_collections_import l n = ([l], []) ∧
  replace_collections_usage l n = (l, []) ∧
  COLLECTIONS_IMPORT_RE l = false.
Proof.
  intros Hno. split; [|split].
  - unfold process_from_collections_import.
    destruct (FROM_COLLECTIONS_RE _) as [x|] eqn:E; [|done].
    apply FROM_COLLECTIONS_RE_contains in E.
    destruct (rstrip_chars_prefix is_cr_or_lf l) as [t Ht].
    pose proof (contains_part "collections" "" _ t E) as Hyes.
    rewrite append_nil_l, <- Ht in Hyes. congruence.
  - apply replace_loop_same. apply not_true_iff_false.
    intros (e & He & Hs)%existsb_exists. apply list_elem_of_In in He.
    rewrite (table_mentions_collections e l He Hs) in Hno. done.
  - destruct (COLLECTIONS_IMPORT_RE l) eqn:E; [|done].
    apply COLLECTIONS_IMPORT_RE_contains in E. congruence.
Qed.

Lemma rewrite_lines_without_collections (lines : list string) (idx : nat) :
  (∀ l, l ∈ lines → contains "collections" l = false) →
  rewrite_lines lines idx = (lines, []) ∧ has_collections_import lines = false.
Proof.
  revert idx. induction lines as [|l lines IH]; intros idx Hall; [done|].
  destruct (line_without_collections l idx (Hall l ltac:(by left)))
    as (Hp & Hr & Hc).
  destruct (IH (S idx)) as [Hrest Himp];
    [intros x Hx; apply Hall; by right|].
  cbn [rewrite_lines has_collections_import].
  rewrite Hp, Hrest, Hc. cbn [map fst snd concat negb]. by rewrite Hr.
Qed.

(** X4.  A content in which the word [collections] does not occur comes out
    of the rewrite pass as it is, with no change recorded. *)
Theorem rewrite_without_collections (content : string) :
  contains "collections" content = false →
  rewrite content = (content, []).
Proof.
  intros Hno. unfold rewrite, updated_lines_of.
  destruct (rewrite_lines_without_collections (splitlines content) 1)
    as [-> ->].
  - intros l Hl. destruct (contains "collections" l) eqn:E; [|done].
    rewrite (contains_line _ _ _ Hl E) in Hno. done.
  - cbn [andb]. by rewrite join_splitlines.
Qed.

Lemma rewrite_without_collections_witness :
  rewrite ("import os" ++ LF ++ "x = os.getcwd()") =
  ("import os" ++ LF ++ "x = os.getcwd()", []).
Proof.
  apply rewrite_without_collections. vm_compute. reflexivity.
Defined.

End Untouched.

(** ** Further properties of the fixer on a tree *)

Section FixerFrame.

Import Fixer.

Implicit Types (fs : tree) (p q root ext : string).

Lemma startswith_app (pre p t : string) :
  startswith pre p = true → startswith pre (p ++ t) = true.
Proof.
  rewrite !startswith_strip_prefix.
  destruct (strip_prefix pre p) as [r|] eqn:E; [|done]. intros _.
  apply strip_prefix_Some in E. subst p.
  by rewrite append_assoc, strip_prefix_append.
Qed.

Lemma backup_path_extends fs p ext : ∃ t, backup_path fs p ext = p ++ t.
Proof.
  destruct (backup_path_spec fs p ext) as [_ [->|(_ & k & _ & -> & _)]];
    by eexists.
Qed.

Lemma process_file_frame fs p (dry_run : bool) ext pre q :
  startswith pre p = true → startswith pre q = false →
  (process_file fs p dry_run ext).1.1 !! q = fs !! q.
Proof.
  intros Hp Hq. unfold process_file.
  destruct (read_source fs p) as [content|]; [|done].
  destruct (rewrite content) as [uc cs].
  destruct (String.eqb uc content); [done|].
  destruct dry_run; cbn [fst]; [done|].
  destruct (backup_path_extends fs p ext) as [t Ht].
  assert (p ≠ q) by (intros ->; congruence).
  assert (backup_path fs p ext ≠ q).
  { intros <-. rewrite Ht, (startswith_app _ _ _ Hp) in Hq. done. }
  rewrite lookup_insert_ne by done. unfold copy2.
  destruct (fs !! p); [|done]. by rewrite lookup_insert_ne.
Qed.

Lemma process_file_keeps fs p (dry_run : bool) ext q :
  is_Some (fs !! q) → is_Some ((process_file fs p dry_run ext).1.1 !! q).
Proof.
  intros Hq. unfold process_file.
  destruct (read_source fs p) as [content|]; [|done].
  destruct (rewrite content) as [uc cs].
  destruct (String.eqb uc content); [done|].
  destruct dry_run; cbn [fst]; [done|].
  apply lookup_insert_is_Some'. right. unfold copy2.
  destruct (fs !! p); [|done]. apply lookup_insert_is_Some'. by right.
Qed.

Lemma process_file_dry_run fs p ext :
  (process_file fs p true ext).1.1 = fs.
Proof.
  unfold process_file. destruct (read_source fs p) as [content|]; [|done].
  destruct (rewrite content) as [uc cs]. by destruct (String.eqb uc content).
Qed.

Lemma process_files_frame fs (paths : list string) (dry_run : bool) ext pre q :
  (∀ p, p ∈ paths → startswith pre p = true) → startswith pre q = false →
  (process_files fs paths dry_run ext).1.1 !! q = fs !! q.
Proof.
  revert fs. induction paths as [|p paths IH]; intros fs Hall Hq; [done|].
  cbn [process_files].
  pose proof (process_file_frame fs p dry_run ext pre q
                (Hall p ltac:(by left)) Hq) as Hstep.
  destruct (process_file fs p dry_run ext) as [[fs1 r] log1]. cbn [fst] in Hstep.
  specialize (IH fs1).
  destruct (process_files fs1 paths dry_run ext) as [[fs2 rs] log2].
  cbn [fst] in *. rewrite IH; [done| |done].
  intros x Hx. apply Hall. by right.
Qed.

Lemma process_files_keeps fs (paths : list string) (dry_run : bool) ext q :
  is_Some (fs !! q) → is_Some ((process_files fs paths dry_run ext).1.1 !! q).
Proof.
  revert fs. induction paths as [|p paths IH]; intros fs Hq; [done|].
  cbn [process_files].
  pose proof (process_file_keeps fs p dry_run ext q Hq) as Hstep.
  destruct (process_file fs p dry_run ext) as [[fs1 r] log1]. cbn [fst] in Hstep.
  specialize (IH fs1 Hstep).
  by destruct (process_files fs1 paths dry_run ext) as [[fs2 rs] log2].
Qed.

Lemma process_files_dry_run fs (paths : list string) ext :
  (process_files fs paths true ext).1.1 = fs.
Proof.
  revert fs. induction paths as [|p paths IH]; intros fs; [done|].
  cbn [process_files].
  pose proof (process_file_dry_run fs p ext) as Hstep.
  destruct (process_file fs p true ext) as [[fs1 r] log1]. cbn [fst] in Hstep.
  subst fs1. specialize (IH fs).
  by destruct (process_files fs paths true ext) as [[fs2 rs] log2].
Qed.

Lemma open_log_other fs (log_file : option string) q :
  log_file ≠ Some q → open_log fs log_file !! q = fs !! q.
Proof.
  destruct log_file as [f|]; [|done]. intros Hne. cbn [open_log].
  apply lookup_insert_ne. congruence.
Qed.

Lemma append_log_other fs (log_file : option string) records q :
  log_file ≠ Some q → append_log fs log_file records !! q = fs !! q.
Proof.
  destruct log_file as [f|]; [|done]. intros Hne. cbn [append_log].
  apply lookup_insert_ne. congruence.
Qed.

Lemma open_log_keeps fs (log_file : option string) q :
  is_Some (fs !! q) → is_Some (open_log fs log_file !! q).
Proof.
  destruct log_file as [f|]; [|done]. intros Hq. cbn [open_log].
  apply lookup_insert_is_Some'. by right.
Qed.

Lemma append_log_keeps fs (log_file : option string) records q :
  is_Some (fs !! q) → is_Some (append_log fs log_file records !! q).
Proof.
  destruct log_file as [f|]; [|done]. intros Hq. cbn [append_log].
  apply lookup_insert_is_Some'. by right.
Qed.

(** X5.  A dry run of the fixer changes no file of the tree, the log file
    apart. *)
Theorem main_dry_run_keeps_tree fs root ext (log_file : option string) q :
  log_file ≠ Some q →
  (main fs root true ext log_file).1 !! q = fs !! q.
Proof.
  intros Hlog. unfold main.
  destruct (root_exists (open_log fs log_file) root); cbn [negb].
  - pose proof (process_files_dry_run (open_log fs log_file)
                  (iter_py_files (open_log fs log_file) root ext) ext) as Hdry.
    destruct (process_files _ _ true ext) as [[fs2 rs] recs].
    cbn [fst] in *. subst fs2.
    by rewrite append_log_other, open_log_other.
  - cbn [fst]. by rewrite append_log_other, open_log_other.
Qed.

Lemma main_dry_run_keeps_tree_witness :
  (main Examples.crowded_tree "ryu" true ".bak" (Some "fix.log")).1 !! "ryu/a.py"
  = Some Examples.a_py.
Proof.
  rewrite main_dry_run_keeps_tree by discriminate. vm_compute. reflexivity.
Defined.

Lemma main_outside_root fs root (dry_run : bool) ext
    (log_file : option string) q :
  (startswith (root ++ "/") q = false → log_file ≠ Some q →
   (main fs root dry_run ext log_file).1 !! q = fs !! q) ∧
  (is_Some (fs !! q) →
   is_Some ((main fs root dry_run ext log_file).1 !! q)).
Proof.
  unfold main. set (fsa := open_log fs log_file).
  destruct (root_exists fsa root); cbn [negb].
  - pose proof (process_files_frame fsa (iter_py_files fsa root ext) dry_run
                  ext (root ++ "/") q) as Hframe.
    pose proof (process_files_keeps fsa (iter_py_files fsa root ext) dry_run
                  ext q) as Hkeep.
    destruct (process_files fsa _ dry_run ext) as [[fs2 rs] recs].
    cbn [fst] in *. split.
    + intros Hq Hlog. rewrite append_log_other by done.
      rewrite Hframe; [by apply open_log_other| |done].
      intros p Hp. by apply elem_of_iter_py_files in Hp as (? & _).
    + intros Hq. apply append_log_keeps, Hkeep. by apply open_log_keeps.
  - cbn [fst]. unfold fsa. split.
    + intros _ Hlog. by rewrite append_log_other, open_log_other.
    + intros Hq. by apply append_log_keeps, open_log_keeps.
Qed.



End FixerFrame.

(** ** Further properties of the backup manager and of rollback *)

Section BackupManager.

Import Fixer Modernize Protocol Lossless.

Implicit Types (fs : tree) (st : State) (p q b : string).

(** X7.  [ensure_backup] called again on the same path, on the tree and the
    ledger the first call left, copies nothing and registers nothing. *)
Theorem ensure_backup_twice fs p st :
  ensure_backup (ensure_backup fs p st).1 p (ensure_backup fs p st).2
  = ensure_backup fs p st.
Proof.
  destruct (ensure_backup_cases fs p st)
    as [[Hb ->]|[(Hb & Hp & ->)|(v & Hb & Hp & ->)]]; cbn [fst snd].
  - unfold ensure_backup. apply exists_file_true in Hb. rewrite Hb.
    destruct (bool_decide (p ++ BACKUP_EXT ∈ backups st)) eqn:Hin.
    + by rewrite Hin.
    + rewrite bool_decide_eq_true_2; [done|]. apply backups_add_backup. by right.
  - unfold ensure_backup. apply exists_file_false in Hb, Hp. by rewrite Hb, Hp.
  - unfold ensure_backup.
    assert (exists_file (<[p ++ BACKUP_EXT := v]> fs) (p ++ BACKUP_EXT) = true)
      as -> by (apply exists_file_true; rewrite lookup_insert_eq; by eexists).
    rewrite bool_decide_eq_true_2; [done|]. apply backups_add_backup. by right.
Qed.

(** X8.  [ensure_backup] keeps every file of the tree with its content;
    when the file exists, its backup exists afterwards, and a backup made by
    this call holds the content of the file. *)
Theorem ensure_backup_keeps_files fs p st :
  (∀ q v, fs !! q = Some v → (ensure_backup fs p st).1 !! q = Some v) ∧
  (is_Some (fs !! p) →
   is_Some ((ensure_backup fs p st).1 !! (p ++ BACKUP_EXT))) ∧
  (fs !! (p ++ BACKUP_EXT) = None →
   (ensure_backup fs p st).1 !! (p ++ BACKUP_EXT) = fs !! p).
Proof.
  split; [|split].
  - intros q v Hq.
    destruct (ensure_backup_cases fs p st)
      as [[Hb ->]|[(Hb & Hp & ->)|(w & Hb & Hp & ->)]]; cbn [fst]; try done.
    rewrite lookup_insert_ne; [done|]. intros <-. congruence.
  - apply ensure_backup_present.
  - intros Hnone.
    destruct (ensure_backup_cases fs p st)
      as [[[w Hb] ->]|[(Hb & Hp & ->)|(w & Hb & Hp & ->)]]; cbn [fst].
    + congruence.
    + congruence.
    + by rewrite lookup_insert_eq.
Qed.

Lemma ensure_backup_keeps_files_witness :
  (ensure_backup Examples.fresh_tree "ryu/lib/hub.py" (mkState [] [])).1
    !! ("ryu/lib/hub.py" ++ BACKUP_EXT) = Some Examples.hub_py.
Proof.
  destruct (ensure_backup_keeps_files Examples.fresh_tree "ryu/lib/hub.py"
              (mkState [] [])) as (_ & _ & Hcopy).
  rewrite Hcopy; vm_compute; reflexivity.
Defined.

Lemma NoDup_add_backup b st :
  NoDup (backups st) → b ∉ backups st → NoDup (backups (add_backup b st)).
Proof.
  intros Hnd Hb. unfold add_backup. cbn [backups].
  apply NoDup_app. split; [done|]. split; [|apply NoDup_singleton].
  intros x Hx ->%list_elem_of_singleton. done.
Qed.

Lemma NoDup_register_backups (found : list string) st :
  NoDup (backups st) → NoDup (backups (register_backups found st)).
Proof.
  revert st. induction found as [|b found IH]; intros st Hnd; [done|].
  cbn [register_backups]. apply IH. case_bool_decide; [done|].
  by apply NoDup_add_backup.
Qed.

(** X9.  No backup is listed twice.  The registration after the
    collections fix keeps a ledger without repeated backups free of them,
    and so does [ensure_backup] as long as the backup it is about to list is
    not in the ledger with its file gone: the copy branch appends without
    looking. *)
Theorem backups_stay_distinct fs p st :
  NoDup (backups st) →
  NoDup (backups (apply_collections_fix fs st).1.2) ∧
  ((p ++ BACKUP_EXT ∈ backups st → is_Some (fs !! (p ++ BACKUP_EXT))) →
   NoDup (backups (ensure_backup fs p st).2)).
Proof.
  intros Hnd. split.
  - unfold apply_collections_fix.
    destruct (_ && _); cbn [fst snd]; [unfold add_created; cbn [backups]|];
      by apply NoDup_register_backups.
  - intros Hlisted.
    destruct (ensure_backup_cases fs p st)
      as [[Hb ->]|[(Hb & Hp & ->)|(w & Hb & Hp & ->)]]; cbn [snd].
    + case_bool_decide; [done|]. by apply NoDup_add_backup.
    + done.
    + apply NoDup_add_backup; [done|]. intros Hin.
      destruct (Hlisted Hin) as [x Hx]. congruence.
Qed.

Lemma backups_stay_distinct_witness :
  NoDup (backups (ensure_backup Examples.fresh_tree "ryu/lib/hub.py"
                    (mkState ["ryu/a.py.ryu-modernize.bak"] [])).2).
Proof.
  apply backups_stay_distinct.
  - apply NoDup_singleton.
  - intros Hin. apply list_elem_of_singleton in Hin. discriminate.
Defined.

(** The copy branch of [ensure_backup] does list a backup twice when the
    ledger names it and its file is gone. *)
Lemma ensure_backup_repeats_lost_backup :
  backups (ensure_backup Examples.fresh_tree "ryu/lib/hub.py"
             (mkState ["ryu/lib/hub.py.ryu-modernize.bak"] [])).2
  = ["ryu/lib/hub.py.ryu-modernize.bak"; "ryu/lib/hub.py.ryu-modernize.bak"].
Proof. vm_compute. reflexivity. Qed.

(** X10.  The backup name and the name [rollback] restores to are inverse:
    for a path whose final component is not empty, the original of its
    backup is the path; and whatever [original_of] returns is the backup
    string shortened by the length of the suffix. *)
Theorem original_of_round_trip p b :
  (has_name p = true → original_of (p ++ BACKUP_EXT) = inr p) ∧
  (original_of b = inr p →
   p = Py.take (String.length b - String.length BACKUP_EXT) b ∧
   (String.length BACKUP_EXT < String.length b)%nat).
Proof.
  split; [apply original_of_backup|].
  unfold original_of. pose proof (split_name_join b) as Hb.
  destruct (split_name b) as [d n]. cbn [fst snd] in Hb.
  destruct (Py.take (String.length n - String.length BACKUP_EXT) n) as [|c stem]
    eqn:Hstem; cbn [is_empty]; [done|].
  intros [= <-].
  assert (String.length BACKUP_EXT < String.length n)%nat as Hlen.
  { destruct (decide (String.length BACKUP_EXT < String.length n)%nat);
      [done|].
    replace (String.length n - String.length BACKUP_EXT)%nat with 0%nat
      in Hstem by lia. done. }
  subst b. rewrite length_append. split; [|lia].
  rewrite <- Hstem.
  replace (String.length d + String.length n - String.length BACKUP_EXT)%nat
    with (String.length d + (String.length n - String.length BACKUP_EXT))%nat
    by lia.
  generalize (String.length n - String.length BACKUP_EXT)%nat. intros k.
  clear. induction d as [|x d IH]; [done|].
  rewrite !append_cons. cbn [String.length Nat.add Py.take]. by rewrite IH.
Qed.

Lemma original_of_round_trip_witness :
  original_of ("ryu/lib/hub.py" ++ BACKUP_EXT) = inr "ryu/lib/hub.py".
Proof.
  by apply (original_of_round_trip "ryu/lib/hub.py" "").
Defined.

(** *** Rollback *)

Lemma restore_backups_frame fs (bs : list string) q :
  q ∉ bs → (∀ b, b ∈ bs → original_of b ≠ inr q) →
  (restore_backups fs bs).1 !! q = fs !! q.
Proof.
  revert fs. induction bs as [|b bs IH]; intros fs Hq Horig; [done|].
  cbn [restore_backups]. apply not_elem_of_cons in Hq as [Hne Hq].
  assert (∀ x, x ∈ bs → original_of x ≠ inr q) as Horig'
    by (intros x Hx; apply Horig; by right).
  destruct (exists_file fs b); cbn [negb]; [|by apply IH].
  destruct (original_of b) as [e|original] eqn:Ho; [done|].
  rewrite IH by done.
  assert (original ≠ q).
  { intros ->. by apply (Horig b ltac:(by left)). }
  rewrite lookup_delete_ne by done. unfold copy2.
  destruct (fs !! b); [|done]. by rewrite lookup_insert_ne.
Qed.

(** X11.  [rollback] touches only what the ledger names, and the ledger
    file: a path other than that of the ledger file that is neither a listed
    backup, nor the original of one, nor a listed created file, is left as
    it is, also when [rollback] stops on an error. *)
Theorem rollback_frame (w : World) st q :
  ledger w = Some st → q ≠ STATE_FILE →
  q ∉ backups st → q ∉ created_files st →
  (∀ b, b ∈ backups st → original_of b ≠ inr q) →
  on_disk (rollback w).1.1 q = on_disk w q.
Proof.
  intros Hl Hq Hb Hc Ho. unfold on_disk.
  apply String.eqb_neq in Hq. rewrite Hq. f_equal.
  unfold rollback. rewrite Hl.
  pose proof (restore_backups_frame (files w) (backups st) q Hb Ho) as Hr.
  destruct (restore_backups (files w) (backups st)) as [fs [e|]];
    cbn [fst files] in *; [done|].
  rewrite remove_created_lookup. by rewrite decide_False.
Qed.

Lemma rollback_frame_witness :
  on_disk (rollback (mkWorld Examples.tree_with_stale_backup
                       (Some (mkState ["ryu/lib/hub.py.ryu-modernize.bak"]
                                      ["requirements.txt"])))).1.1
    "ryu/a.py" = Some (Text Examples.a_py).
Proof.
  rewrite (rollback_frame _ (mkState ["ryu/lib/hub.py.ryu-modernize.bak"]
                                     ["requirements.txt"])).
  - vm_compute. reflexivity.
  - reflexivity.
  - discriminate.
  - intros Hin. apply list_elem_of_singleton in Hin. discriminate.
  - intros Hin. apply list_elem_of_singleton in Hin. discriminate.
  - intros b Hin. apply list_elem_of_singleton in Hin. subst b.
    vm_compute. discriminate.
Defined.

(** X12.  [rollback] can be run again: after a rollback that returned, the
    ledger file is gone, and a second rollback changes nothing and returns
    0. *)
Theorem rollback_twice (w w' : World) (out : list string) (code : nat) :
  rollback w = (w', out, Exit code) →
  code = 0 ∧ ledger w' = None ∧
  rollback w'
  = (w', ["No modernization state found; nothing to rollback."], Exit 0).
Proof.
  unfold rollback at 1. destruct (ledger w) as [st|] eqn:Hl.
  - destruct (restore_backups (files w) (backups st)) as [fs [e|]]; [done|].
    intros [= <- <- <-]. by repeat split.
  - intros [= <- <- <-]. split; [done|]. split; [done|].
    unfold rollback. by rewrite Hl.
Qed.

Lemma rollback_twice_witness :
  ledger (rollback (mkWorld Examples.fresh_tree (Some (mkState [] [])))).1.1
  = None.
Proof.
  destruct (rollback (mkWorld Examples.fresh_tree (Some (mkState [] []))))
    as [[w' out] code] eqn:Hr.
  assert (code = Exit 0) as -> by (vm_compute in Hr; congruence).
  by destruct (rollback_twice _ _ _ _ Hr) as (_ & Hl & _).
Defined.

End BackupManager.

Section Patches.

Import Fixer Modernize Protocol Lossless.

Implicit Types (fs : tree) (st : State) (p q b : string) (s : Session).

Lemma universal_newlines_no_cr (v : string) :
  all_chars (λ c, negb (is_cr c)) (universal_newlines v) = true.
Proof. by apply (universal_newlines_no_cr_bounded (String.length v)). Qed.

Lemma no_cr_no_CRLF (t : string) :
  all_chars (λ c, negb (is_cr c)) t = true → contains CRLF t = false.
Proof.
  intros Hno. destruct (contains CRLF t) eqn:E; [|done].
  apply contains_inv in E as (a & b & Hab). rewrite Hab in Hno.
  rewrite !all_chars_app in Hno.
  apply andb_true_iff in Hno as [_ Hno]. by apply andb_true_iff in Hno as [Hno _].
Qed.

Lemma universal_newlines_id (t : string) :
  all_chars (λ c, negb (is_cr c)) t = true → universal_newlines t = t.
Proof.
  induction t as [|c t IH]; [done|]. cbn [all_chars universal_newlines].
  intros [Hc Ht]%andb_true_iff. unfold is_cr in Hc.
  destruct (Ascii.eqb c "013"); [done|]. by rewrite IH.
Qed.

Lemma read_text_no_cr fs p content :
  read_text fs p = inr content →
  all_chars (λ c, negb (is_cr c)) content = true.
Proof.
  unfold read_text. destruct (fs !! p); [|done]. intros [= <-].
  apply universal_newlines_no_cr.
Qed.

Lemma split_once_present (old t : string) :
  contains old t = true → is_Some (split_once old t).
Proof.
  induction t as [|c t IH]; cbn [contains split_once];
    rewrite startswith_strip_prefix;
    destruct (strip_prefix old _); cbn [is_Some_b orb]; intros H;
    try discriminate; try by eexists.
  destruct (IH H) as [[a b] ->]. by eexists.
Qed.

Lemma replace_first_present (old new t : string) :
  contains old t = true →
  ∃ a b, t = a ++ old ++ b ∧ replace_first old new t = a ++ new ++ b.
Proof.
  intros [[a b] Hs]%split_once_present. exists a, b. split.
  - by apply split_once_Some.
  - unfold replace_first. by rewrite Hs.
Qed.

Lemma path_kept_by_ensure_backup fs p st v :
  fs !! p = Some v → (ensure_backup fs p st).1 !! p = Some v.
Proof.
  intros Hp.
  destruct (ensure_backup_cases fs p st)
    as [[Hb ->]|[(Hb & Hq & ->)|(w & Hb & Hq & ->)]]; cbn [fst]; try done.
  rewrite lookup_insert_ne; [done|]. intros Heq. congruence.
Qed.

(** X13.  The dnspython patch is idempotent: run again on the session it
    returned, it changes nothing.  What it wrote holds the call of the hook
    and no carriage return, whatever the line endings of the file were. *)
Theorem ensure_dnspython_compat_twice p s s' :
  ensure_dnspython_compat p s = Ok s' →
  ensure_dnspython_compat p s' = Ok s' ∧
  (s' = s ∨
   ∃ new, s_files s' !! p = Some new ∧
          contains "dnspython_compat.patch_eventlet_dnspython()" new = true ∧
          all_chars (λ c, negb (is_cr c)) new = true).
Proof.
  unfold ensure_dnspython_compat at 1.
  destruct (read_text (s_files s) p) as [e|content] eqn:Hread; [done|].
  pose proof (read_text_no_cr _ _ _ Hread) as Hno.
  destruct (contains "dnspython_compat.patch_eventlet_dnspython()" content)
    eqn:Hhook.
  { intros [= <-]. split; [|by left].
    unfold ensure_dnspython_compat. by rewrite Hread, Hhook. }
  destruct (contains ("    import eventlet" ++ LF) content) eqn:Htarget;
    cbn [negb].
  2:{ intros [= <-]. split; [|by left].
      unfold ensure_dnspython_compat. by rewrite Hread, Hhook, Htarget. }
  rewrite (no_cr_no_CRLF content Hno).
  destruct (ensure_backup (s_files s) p (s_state s)) as [fs st] eqn:Hb.
  intros [= <-].
  destruct (replace_first_present ("    import eventlet" ++ LF)
              (("    import eventlet" ++ LF)
               ++ "    from ryu.lib import dnspython_compat" ++ LF
               ++ "    dnspython_compat.patch_eventlet_dnspython()" ++ LF)
              content Htarget) as (a & b & Hab & Hnew).
  assert (contains "dnspython_compat.patch_eventlet_dnspython()"
            (replace_first ("    import eventlet" ++ LF)
               (("    import eventlet" ++ LF)
                ++ "    from ryu.lib import dnspython_compat" ++ LF
                ++ "    dnspython_compat.patch_eventlet_dnspython()" ++ LF)
               content) = true) as Hin.
  { rewrite Hnew.
    apply contains_part. vm_compute. reflexivity. }
  assert (all_chars (λ c, negb (is_cr c))
            (replace_first ("    import eventlet" ++ LF)
               (("    import eventlet" ++ LF)
                ++ "    from ryu.lib import dnspython_compat" ++ LF
                ++ "    dnspython_compat.patch_eventlet_dnspython()" ++ LF)
               content) = true) as Hnocr.
  { rewrite Hnew. rewrite Hab in Hno. rewrite !all_chars_app in Hno.
    apply andb_true_iff in Hno as [Ha Hno].
    apply andb_true_iff in Hno as [_ Hb'].
    rewrite !all_chars_app, Ha, Hb'. reflexivity. }
  split.
  - unfold ensure_dnspython_compat. unfold read_text, write_text.
    cbn [s_files]. rewrite lookup_insert_eq.
    rewrite (universal_newlines_id _ Hnocr). by rewrite Hin.
  - right. eexists. cbn [s_files]. unfold write_text.
    rewrite lookup_insert_eq. done.
Qed.

Lemma ensure_dnspython_compat_twice_witness :
  ∃ s', ensure_dnspython_compat "ryu/lib/hub.py"
          (mkSession Examples.fresh_tree (mkState [] []) []) = Ok s' ∧
        ensure_dnspython_compat "ryu/lib/hub.py" s' = Ok s'.
Proof.
  destruct (ensure_dnspython_compat "ryu/lib/hub.py"
              (mkSession Examples.fresh_tree (mkState [] []) []))
    as [s'|e fs|] eqn:Hrun; [|vm_compute in Hrun; discriminate..].
  exists s'. split; [reflexivity|].
  exact (proj1 (ensure_dnspython_compat_twice _ _ _ Hrun)).
Defined.

End Patches.

Section ClassBlock.

Import Fixer Modernize.

Lemma block_end_spec (rest : list string) (indent e : nat) :
  (e ≤ block_end rest indent e ≤ e + length rest)%nat ∧
  (∀ j l, (j < block_end rest indent e - e)%nat → rest !! j = Some l →
     is_empty (strip l) = true ∨ (indent < indent_width l)%nat) ∧
  (∀ l, rest !! (block_end rest indent e - e)%nat = Some l →
     is_empty (strip l) = false ∧ (indent_width l ≤ indent)%nat).
Proof.
  revert e. induction rest as [|x rest IH]; intros e; cbn [block_end length].
  - split; [lia|]. split; [intros j l Hj; lia|]. intros l. by rewrite lookup_nil.
  - destruct (IH (S e)) as (Hrange & Hin & Hout).
    assert (∀ j l,
      (j < block_end rest indent (S e) - e)%nat → (x :: rest) !! j = Some l →
      is_empty (strip x) = true ∨ (indent < indent_width x)%nat →
      is_empty (strip l) = true ∨ (indent < indent_width l)%nat) as Hstep.
    { intros [|j] l Hj Hl Hx; cbn in Hl; [by injection Hl as <-|].
      apply (Hin j); [lia|done]. }
    assert (∀ l,
      (x :: rest) !! (block_end rest indent (S e) - e)%nat = Some l →
      is_empty (strip l) = false ∧ (indent_width l ≤ indent)%nat) as Hlast.
    { intros l. replace (block_end rest indent (S e) - e)%nat
        with (S (block_end rest indent (S e) - S e)) by lia. apply Hout. }
    destruct (is_empty (strip x)) eqn:Hblank.
    + split; [lia|]. split; [|done]. intros j l Hj Hl. apply (Hstep j l Hj Hl).
      by left.
    + destruct (indent_width x <=? indent)%nat eqn:Hle.
      * apply Nat.leb_le in Hle. split; [lia|]. split; [intros j l Hj; lia|].
        replace (e - e)%nat with 0%nat by lia. intros l [= <-]. done.
      * apply Nat.leb_gt in Hle. split; [lia|]. split; [|done].
        intros j l Hj Hl. apply (Hstep j l Hj Hl). by right.
Qed.

Lemma find_class_block_from_spec (lines : list string) (name : string)
    (idx : nat) :
  match find_class_block_from lines name idx with
  | Some (start, end_) =>
      (idx ≤ start < end_)%nat ∧ (end_ ≤ idx + length lines)%nat ∧
      ∃ line, lines !! (start - idx)%nat = Some line ∧
        startswith ("class " ++ name) line = true ∧
        (∀ i l, (i < start - idx)%nat → lines !! i = Some l →
           startswith ("class " ++ name) l = false) ∧
        (∀ i l, (start - idx < i < end_ - idx)%nat → lines !! i = Some l →
           is_empty (strip l) = true ∨ (indent_width line < indent_width l)%nat) ∧
        (∀ l, lines !! (end_ - idx)%nat = Some l →
           is_empty (strip l) = false ∧ (indent_width l ≤ indent_width line)%nat)
  | None => Forall (λ l, startswith ("class " ++ name) l = false) lines
  end.
Proof.
  revert idx. induction lines as [|x lines IH]; intros idx;
    cbn [find_class_block_from]; [done|].
  destruct (startswith ("class " ++ name) x) eqn:Hx.
  - destruct (block_end_spec lines (indent_width x) (S idx))
      as (Hrange & Hin & Hout).
    cbn [length]. split; [lia|]. split; [lia|]. exists x.
    replace (idx - idx)%nat with 0%nat by lia. split; [done|]. split; [done|].
    split; [intros i l Hi; lia|]. split.
    + intros [|i] l Hi Hl; [lia|]. cbn in Hl. apply (Hin i); [lia|done].
    + intros l.
      replace (block_end lines (indent_width x) (S idx) - idx)%nat
        with (S (block_end lines (indent_width x) (S idx) - S idx)) by lia.
      apply Hout.
  - specialize (IH (S idx)).
    destruct (find_class_block_from lines name (S idx)) as [[start end_]|].
    + destruct IH as (Hr1 & Hr2 & line & Hline & Hcls & Hbefore & Hin & Hout).
      cbn [length]. split; [lia|]. split; [lia|]. exists line.
      replace (start - idx)%nat with (S (start - S idx)) by lia.
      replace (end_ - idx)%nat with (S (end_ - S idx)) by lia.
      split; [done|]. split; [done|]. split; [|split].
      * intros [|i] l Hi Hl; cbn in Hl; [by injection Hl as <-|].
        apply (Hbefore i); [lia|done].
      * intros [|i] l Hi Hl; [lia|]. cbn in Hl. apply (Hin i); [lia|done].
      * done.
    + by constructor.
Qed.

(** X14.  What [find_class_block] returns.  [None] means that no line starts
    with [class <name>].  Otherwise [start] is the first such line and
    [end_] is behind it and at most the number of lines; every line between
    them is blank or indented deeper than the class line, and the line at
    [end_], if there is one, is neither. *)
Theorem find_class_block_spec (lines : list string) (name : string) :
  match find_class_block lines name with
  | Some (start, end_) =>
      (start < end_ ≤ length lines)%nat ∧
      ∃ line, lines !! start = Some line ∧
        startswith ("class " ++ name) line = true ∧
        (∀ i l, (i < start)%nat → lines !! i = Some l →
           startswith ("class " ++ name) l = false) ∧
        (∀ i l, (start < i < end_)%nat → lines !! i = Some l →
           is_empty (strip l) = true ∨ (indent_width line < indent_width l)%nat) ∧
        (∀ l, lines !! end_ = Some l →
           is_empty (strip l) = false ∧ (indent_width l ≤ indent_width line)%nat)
  | None => Forall (λ l, startswith ("class " ++ name) l = false) lines
  end.
Proof.
  unfold find_class_block.
  pose proof (find_class_block_from_spec lines name 0) as H.
  destruct (find_class_block_from lines name 0) as [[start end_]|]; [|done].
  destruct H as (Hr1 & Hr2 & line & H). rewrite !Nat.sub_0_r in H.
  split; [lia|]. exists line.
  destruct H as (H1 & H2 & H3 & H4 & H5). split; [done|]. split; [done|].
  split; [done|]. split; done.
Qed.

End ClassBlock.

Section AliasImporter.

Import DnspythonCompat.

(** X15.  [_install_alias_importer] can be called any number of times: after
    a call, [sys.meta_path] holds a finder for the alias, a second call
    changes nothing, and the finders that are not for the alias are all
    kept, in their order. *)
Theorem install_alias_importer_once (meta_path : list finder) :
  existsb is_alias_finder (_install_alias_importer meta_path) = true ∧
  _install_alias_importer (_install_alias_importer meta_path)
  = _install_alias_importer meta_path ∧
  List.filter (λ f, negb (is_alias_finder f)) (_install_alias_importer meta_path)
  = List.filter (λ f, negb (is_alias_finder f)) meta_path.
Proof.
  assert (existsb is_alias_finder (_install_alias_importer meta_path) = true)
    as Hin.
  { unfold _install_alias_importer.
    destruct (existsb is_alias_finder meta_path) eqn:E; [done|].
    cbn [existsb]. reflexivity. }
  split; [done|]. split.
  - unfold _install_alias_importer at 1. by rewrite Hin.
  - unfold _install_alias_importer.
    destruct (existsb is_alias_finder meta_path); [done|].
    cbn [List.filter]. reflexivity.
Qed.

End AliasImporter.

(** ** The footprint of [apply] *)

Section Footprint.

Import Fixer Modernize Protocol.

Implicit Types (fs : tree) (st : State) (p q : string) (s : Session).

Lemma ensure_backup_other fs p st q :
  q ≠ p ++ BACKUP_EXT → (ensure_backup fs p st).1 !! q = fs !! q.
Proof.
  intros Hq.
  destruct (ensure_backup_cases fs p st)
    as [[Hb ->]|[(Hb & Hp & ->)|(v & Hb & Hp & ->)]]; cbn [fst]; try done.
  by rewrite lookup_insert_ne.
Qed.

Lemma ensure_backup_removes_nothing fs p st q :
  is_Some (fs !! q) → is_Some ((ensure_backup fs p st).1 !! q).
Proof.
  intros Hq.
  destruct (ensure_backup_cases fs p st)
    as [[Hb ->]|[(Hb & Hp & ->)|(v & Hb & Hp & ->)]]; cbn [fst]; try done.
  apply lookup_insert_is_Some'. by right.
Qed.

Lemma backup_or_register_other fs p st q :
  q ≠ p ++ BACKUP_EXT → (backup_or_register fs p st).1 !! q = fs !! q.
Proof.
  intros Hq. unfold backup_or_register.
  destruct (exists_file fs p); [by apply ensure_backup_other|done].
Qed.

Lemma backup_or_register_removes_nothing fs p st q :
  is_Some (fs !! q) → is_Some ((backup_or_register fs p st).1 !! q).
Proof.
  intros Hq. unfold backup_or_register.
  destruct (exists_file fs p); [by apply ensure_backup_removes_nothing|done].
Qed.

(** What a patch leaves of the tree it started on, whether it returns or
    raises: the files that were there are still there, and a file away from
    the paths [touched] is as it was. *)
Lemma footprint_refl fs (touched : list string) q :
  (is_Some (fs !! q) → is_Some (fs !! q)) ∧
  (q ∉ touched → fs !! q = fs !! q).
Proof. done. Qed.

Lemma ensure_eventlet_footprint p s q :
  match ensure_eventlet_already_handled p s with
  | Ok s' =>
      (is_Some (s_files s !! q) → is_Some (s_files s' !! q)) ∧
      (q ∉ [p; p ++ BACKUP_EXT] → s_files s' !! q = s_files s !! q)
  | Raised _ fs' => fs' = s_files s
  | Unparsable => True
  end.
Proof.
  unfold ensure_eventlet_already_handled.
  destruct (read_text (s_files s) p) as [e|content]; [done|].
  destruct (find_class_block _ _) as [[start end_]|]; [|done].
  by destruct (_ && _).
Qed.

Lemma ensure_dnspython_footprint p s q :
  match ensure_dnspython_compat p s with
  | Ok s' =>
      (is_Some (s_files s !! q) → is_Some (s_files s' !! q)) ∧
      (q ∉ [p; p ++ BACKUP_EXT] → s_files s' !! q = s_files s !! q)
  | Raised _ fs' => fs' = s_files s
  | Unparsable => True
  end.
Proof.
  unfold ensure_dnspython_compat.
  destruct (read_text (s_files s) p) as [e|content]; [done|].
  destruct (contains "dnspython_compat.patch_eventlet_dnspython()" content);
    [done|].
  destruct (negb _); [done|].
  pose proof (ensure_backup_other (s_files s) p (s_state s) q) as Hother.
  pose proof (ensure_backup_removes_nothing (s_files s) p (s_state s) q) as Hkeep.
  destruct (ensure_backup (s_files s) p (s_state s)) as [fs st].
  cbn [fst s_files] in *. unfold write_text. split.
  - intros Hq. apply lookup_insert_is_Some'. right. by apply Hkeep.
  - intros Hq. rewrite lookup_insert_ne by set_solver. apply Hother. set_solver.
Qed.

Lemma update_requirements_footprint p s q :
  match update_requirements p s with
  | Ok s' =>
      (is_Some (s_files s !! q) → is_Some (s_files s' !! q)) ∧
      (q ∉ [p; p ++ BACKUP_EXT] → s_files s' !! q = s_files s !! q)
  | Raised _ fs' => fs' = s_files s
  | Unparsable => True
  end.
Proof.
  unfold update_requirements.
  destruct (String.eqb _ _); [done|].
  pose proof (ensure_backup_other (s_files s) p (s_state s) q) as Hother.
  pose proof (ensure_backup_removes_nothing (s_files s) p (s_state s) q) as Hkeep.
  destruct (exists_file (s_files s) p).
  - destruct (ensure_backup (s_files s) p (s_state s)) as [fs st].
    cbn [fst s_files] in *. unfold write_text. split.
    + intros Hq. apply lookup_insert_is_Some'. right. by apply Hkeep.
    + intros Hq. rewrite lookup_insert_ne by set_solver. apply Hother.
      set_solver.
  - cbn [s_files]. unfold write_text. split.
    + intros Hq. apply lookup_insert_is_Some'. by right.
    + intros Hq. rewrite lookup_insert_ne by set_solver. done.
Qed.

Lemma write_report_footprint env tests s q :
  match write_report env tests s with
  | Ok s' =>
      (is_Some (s_files s !! q) → is_Some (s_files s' !! q)) ∧
      (q ∉ [REPORT_JSON; REPORT_JSON ++ BACKUP_EXT;
            REPORT_TXT; REPORT_TXT ++ BACKUP_EXT] →
       s_files s' !! q = s_files s !! q)
  | Raised _ fs' => fs' = s_files s
  | Unparsable => True
  end.
Proof.
  unfold write_report.
  pose proof (backup_or_register_other (s_files s) REPORT_JSON (s_state s) q)
    as Ho1.
  pose proof (backup_or_register_removes_nothing (s_files s) REPORT_JSON
                (s_state s) q) as Hk1.
  destruct (backup_or_register (s_files s) REPORT_JSON (s_state s))
    as [fs1 st1].
  pose proof (backup_or_register_other fs1 REPORT_TXT st1 q) as Ho2.
  pose proof (backup_or_register_removes_nothing fs1 REPORT_TXT st1 q) as Hk2.
  destruct (backup_or_register fs1 REPORT_TXT st1) as [fs2 st2].
  cbn [fst s_files] in *. unfold write_text. split.
  - intros Hq. apply lookup_insert_is_Some'. right.
    apply lookup_insert_is_Some'. right. by apply Hk2, Hk1.
  - intros Hq. rewrite !lookup_insert_ne by set_solver.
    rewrite Ho2, Ho1; [done|set_solver|set_solver].
Qed.

Lemma collections_patch_footprint s q :
  match collections_patch s with
  | Ok s' =>
      (is_Some (s_files s !! q) → is_Some (s_files s' !! q)) ∧
      (startswith "ryu/" q = false → q ≠ COLLECTIONS_LOG →
       s_files s' !! q = s_files s !! q)
  | Raised _ fs' => fs' = s_files s
  | Unparsable => True
  end.
Proof.
  unfold collections_patch.
  assert ((apply_collections_fix (s_files s) (s_state s)).1.1
          = (main (s_files s) "ryu" false BACKUP_EXT (Some COLLECTIONS_LOG)).1)
    as Hfs.
  { unfold apply_collections_fix. by destruct (_ && _). }
  destruct (apply_collections_fix (s_files s) (s_state s)) as [[fs st] l].
  cbn [fst s_files] in *. subst fs.
  destruct (main_outside_root (s_files s) "ryu" false BACKUP_EXT
              (Some COLLECTIONS_LOG) q) as [Hframe Hkeep].
  split; [done|]. intros Hq Hlog. apply Hframe; [done|congruence].
Qed.

Lemma apply_files_footprint (env : Env) (w : World)
    (test_command : option string) (skip_tests : bool) q :
  (apply env w test_command skip_tests).2 ≠ NoOutcome →
  (is_Some (files w !! q) →
   is_Some (files (apply env w test_command skip_tests).1.1 !! q)) ∧
  (startswith "ryu/" q = false →
   q ∉ [COLLECTIONS_LOG; "requirements.txt"; "requirements.txt" ++ BACKUP_EXT;
        REPORT_JSON; REPORT_JSON ++ BACKUP_EXT;
        REPORT_TXT; REPORT_TXT ++ BACKUP_EXT] →
   files (apply env w test_command skip_tests).1.1 !! q = files w !! q) ∧
  (is_Some (ledger w) →
   is_Some (ledger (apply env w test_command skip_tests).1.1)).
Proof.
  assert (startswith "ryu/" q = false → q ∉ ["ryu/app/wsgi.py";
            "ryu/app/wsgi.py" ++ BACKUP_EXT]) as Hwsgi.
  { intros Hq [->| ->%list_elem_of_singleton]%elem_of_cons;
      vm_compute in Hq; discriminate. }
  assert (startswith "ryu/" q = false → q ∉ ["ryu/lib/hub.py";
            "ryu/lib/hub.py" ++ BACKUP_EXT]) as Hhub.
  { intros Hq [->| ->%list_elem_of_singleton]%elem_of_cons;
      vm_compute in Hq; discriminate. }
  unfold apply, patches. cbn [run_patches].
  pose proof (collections_patch_footprint (start w) q) as H1.
  destruct (collections_patch (start w)) as [s1|e1 fs1|];
    [|subst fs1; cbn [fst snd files ledger start s_files]; done
     |intros Hout; by destruct Hout].
  pose proof (ensure_eventlet_footprint "ryu/app/wsgi.py" s1 q) as H2.
  destruct (ensure_eventlet_already_handled "ryu/app/wsgi.py" s1)
    as [s2|e2 fs2|];
    [|subst fs2; cbn [fst snd files ledger start s_files] in *; intros _;
      split; [tauto|]; split; [|done];
      intros Hq Hin; apply H1; [done|set_solver]
     |intros Hout; by destruct Hout].
  pose proof (ensure_dnspython_footprint "ryu/lib/hub.py" s2 q) as H3.
  destruct (ensure_dnspython_compat "ryu/lib/hub.py" s2) as [s3|e3 fs3|];
    [| |intros Hout; by destruct Hout].
  2:{ subst fs3. cbn [fst snd files ledger start s_files] in *. intros _.
      split; [tauto|]. split; [|done].
      intros Hq Hin. destruct H2 as [_ ->]; [|by apply Hwsgi].
      apply H1; [done|set_solver]. }
  pose proof (update_requirements_footprint "requirements.txt" s3 q) as H4.
  destruct (update_requirements "requirements.txt" s3) as [s4|e4 fs4|];
    [| |intros Hout; by destruct Hout].
  2:{ subst fs4. cbn [fst snd files ledger start s_files] in *. intros _.
      split; [tauto|]. split; [|done].
      intros Hq Hin. destruct H3 as [_ ->]; [|by apply Hhub].
      destruct H2 as [_ ->]; [|by apply Hwsgi].
      apply H1; [done|set_solver]. }
  pose proof (write_report_footprint env
                (tests_of env test_command skip_tests) s4 q) as H5.
  destruct (write_report env (tests_of env test_command skip_tests) s4)
    as [s5|e5 fs5|]; [| |intros Hout; by destruct Hout].
  2:{ subst fs5. cbn [fst snd files ledger start s_files] in *. intros _.
      split; [tauto|]. split; [|done].
      intros Hq Hin. destruct H4 as [_ ->]; [|set_solver].
      destruct H3 as [_ ->]; [|by apply Hhub].
      destruct H2 as [_ ->]; [|by apply Hwsgi].
      apply H1; [done|set_solver]. }
  cbn [fst snd files ledger start s_files save_state] in *. intros _.
  split; [tauto|]. split; [|by eexists].
  intros Hq Hin. destruct H5 as [_ ->]; [|set_solver].
  destruct H4 as [_ ->]; [|set_solver].
  destruct H3 as [_ ->]; [|by apply Hhub].
  destruct H2 as [_ ->]; [|by apply Hwsgi].
  apply H1; [done|set_solver].
Qed.

(** X16.  The footprint of [apply], for a run that does not reach the
    expression without value.  Whether it completes or stops on an
    exception, [apply] removes nothing from the disk, the ledger file
    included, and it leaves as it is every path that is not under [ryu/] and
    is not the ledger file, the log of the collections fix, the requirements
    file, one of the two reports, or the backup of one of the last three.
    The test command is taken not to write into the tree. *)
Theorem apply_footprint (env : Env) (w : World)
    (test_command : option string) (skip_tests : bool) q :
  (apply env w test_command skip_tests).2 ≠ NoOutcome →
  (is_Some (on_disk w q) →
   is_Some (on_disk (apply env w test_command skip_tests).1.1 q)) ∧
  (startswith "ryu/" q = false →
   q ∉ [STATE_FILE; COLLECTIONS_LOG;
        "requirements.txt"; "requirements.txt" ++ BACKUP_EXT;
        REPORT_JSON; REPORT_JSON ++ BACKUP_EXT;
        REPORT_TXT; REPORT_TXT ++ BACKUP_EXT] →
   on_disk (apply env w test_command skip_tests).1.1 q = on_disk w q).
Proof.
  intros Hout.
  destruct (apply_files_footprint env w test_command skip_tests q Hout)
    as (Hkeep & Hframe & Hledger).
  unfold on_disk. destruct (String.eqb q STATE_FILE) eqn:Hq.
  - split.
    + rewrite !fmap_is_Some. exact Hledger.
    + intros _ Hin. apply String.eqb_eq in Hq. subst q.
      exfalso. apply Hin. left.
  - split.
    + rewrite !fmap_is_Some. exact Hkeep.
    + intros Hryu Hin. rewrite Hframe; [done|done|].
      intros Hin'. apply Hin. by right.
Qed.

Lemma apply_footprint_witness :
  on_disk (apply Examples.env0 (mkWorld Examples.ready_tree None) None true).1.1
    "README.rst" = Some (Text ("Ryu" ++ LF)).
Proof.
  destruct (apply_footprint Examples.env0 (mkWorld Examples.ready_tree None)
              None true "README.rst") as [_ Hframe].
  - vm_compute. discriminate.
  - rewrite Hframe.
    + vm_compute. reflexivity.
    + vm_compute. reflexivity.
    + intros Hin. repeat (apply elem_of_cons in Hin as [Hin|Hin];
        [vm_compute in Hin; discriminate|]). by apply elem_of_nil in Hin.
Defined.

End Footprint.

(** ** The requirements file *)

Section Requirements.

Import Fixer Modernize RequirementsText.

Implicit Types (s t a b c x : string) (L : list string).

Local Abbreviation nolb := (all_chars (λ ch, negb (islinebreak ch))).
Local Abbreviation ended := (λ l : string, l ++ LF).

Lemma rstrip_rstrip_chars s : rstrip s = rstrip_chars isspace s.
Proof. induction s as [|ch s IH]; [done|]. cbn [rstrip rstrip_chars]. by rewrite IH. Qed.

Lemma rstrip_chars_after (p : ascii → bool) x b ch :
  last_char x = Some ch → p ch = false →
  rstrip_chars p (x ++ b) = x ++ rstrip_chars p b.
Proof.
  intros Hlast Hp. induction x as [|d x IH]; [done|].
  rewrite !append_cons. cbn [rstrip_chars].
  destruct x as [|e x].
  - injection Hlast as ->. rewrite !append_nil_l, Hp, andb_false_r. done.
  - rewrite IH by done. rewrite append_cons. done.
Qed.

Lemma all_chars_rstrip_chars (p q : ascii → bool) s :
  all_chars p s = true → all_chars p (rstrip_chars q s) = true.
Proof.
  induction s as [|ch s IH]; [done|]. cbn [all_chars rstrip_chars].
  intros [Hc Hs]%andb_true_iff.
  destruct (is_empty (rstrip_chars q s) && q ch); [done|].
  cbn [all_chars]. by rewrite Hc, IH.
Qed.

Lemma splitlines_line x c :
  nolb x = true → splitlines (x ++ LF ++ c) = (x ++ LF) :: splitlines c.
Proof.
  intros Hx. induction x as [|d x IH].
  - rewrite !append_nil_l. change (LF ++ c) with (String "010" c).
    cbn [splitlines]. change (islinebreak "010") with true. cbv iota.
    destruct c as [|e c]; [done|]. done.
  - cbn [all_chars] in Hx. apply andb_true_iff in Hx as [Hd Hx].
    rewrite !append_cons. cbn [splitlines].
    apply negb_true_iff in Hd. rewrite Hd. by rewrite IH.
Qed.

Lemma splitlines_lines L c :
  Forall (λ l, nolb l = true) L →
  splitlines (join "" (map ended L) ++ c)
  = (map ended L ++ splitlines c)%list.
Proof.
  induction 1 as [|l L Hl HL IH]; [by rewrite append_nil_l|].
  cbn [map]. rewrite join_empty_cons. cbn beta. rewrite !append_assoc.
  rewrite splitlines_line by done. by rewrite IH.
Qed.

Lemma join_LF_split (L1 L2 : list string) x :
  join LF (L1 ++ x :: L2)
  = join "" (map ended L1) ++ x
    ++ match L2 with [] => "" | _ => LF ++ join LF L2 end.
Proof.
  induction L1 as [|l L1 IH].
  - cbn [app map join]. rewrite append_nil_l.
    destruct L2; [by rewrite append_nil_r|done].
  - cbn [app map]. rewrite join_empty_cons. cbn beta.
    rewrite !append_assoc, <- IH.
    destruct (L1 ++ x :: L2)%list eqn:E; [by destruct L1|]. done.
Qed.

(** A line of a list of lines is a line of the text the list is written
    as, when it is not cut by the [rstrip] of the text. *)
Lemma line_of_written L x ch :
  Forall (λ l, nolb l = true) L → x ∈ L →
  last_char x = Some ch → isspace ch = false →
  x ∈ splitlines_plain (rstrip (join LF L) ++ LF).
Proof.
  intros HL Hx Hlast Hch.
  apply list_elem_of_split in Hx as (L1 & L2 & ->).
  rewrite join_LF_split, rstrip_rstrip_chars.
  set (b := match L2 with [] => "" | _ => LF ++ join LF L2 end).
  rewrite <- (append_assoc _ x b).
  assert (last_char (join "" (map ended L1) ++ x) = Some ch) as Hl2.
  { rewrite last_char_app; [done|]. by destruct x. }
  rewrite (rstrip_chars_after isspace _ b ch Hl2 Hch).
  assert (∃ c, rstrip_chars isspace b ++ LF = LF ++ c) as [c Hc].
  { destruct b as [|d b'] eqn:Hb; [by exists ""|].
    assert (d = "010"%char) as ->.
    { unfold b in Hb. destruct L2; [done|].
      change (LF ++ join LF (s :: L2)) with (String "010" (join LF (s :: L2)))
        in Hb. by injection Hb. }
    cbn [rstrip_chars].
    destruct (is_empty (rstrip_chars isspace b') && isspace "010");
      [by exists ""|].
    exists (rstrip_chars isspace b' ++ LF). done. }
  rewrite !append_assoc, Hc.
  apply Forall_app in HL as [HL1 HL2]. apply Forall_cons in HL2 as [Hx _].
  unfold splitlines_plain.
  rewrite splitlines_lines by done. rewrite splitlines_line by done.
  rewrite map_app. apply elem_of_app. right.
  cbn [map]. rewrite rstrip_chars_app_r by reflexivity.
  rewrite rstrip_chars_keep by done. left.
Qed.

Lemma splitlines_body_bounded (n : nat) s :
  (String.length s ≤ n)%nat →
  Forall (λ l, nolb (rstrip_chars islinebreak l) = true) (splitlines s).
Proof.
  revert s. induction n as [|n IH]; intros s Hn.
  - destruct s; [constructor|]. cbn in Hn. lia.
  - destruct s as [|ch s]; [constructor|]. cbn [String.length] in Hn.
    cbn [splitlines]. destruct (islinebreak ch) eqn:Hch.
    + destruct s as [|d s].
      * constructor; [|constructor]. cbn [rstrip_chars]. by rewrite Hch.
      * cbn [String.length] in Hn.
        destruct (Ascii.eqb ch "013" && Ascii.eqb d "010") eqn:Hcrlf.
        -- apply andb_true_iff in Hcrlf as [->%Ascii.eqb_eq ->%Ascii.eqb_eq].
           constructor; [done|]. apply IH. lia.
        -- constructor; [|apply IH; cbn [String.length]; lia].
           cbn [rstrip_chars]. by rewrite Hch.
    + pose proof (IH s ltac:(lia)) as Hs.
      destruct (splitlines s) as [|x xs].
      * constructor; [|constructor]. cbn [rstrip_chars]. rewrite Hch.
        cbn [is_empty andb all_chars]. by rewrite Hch.
      * apply Forall_cons in Hs as [Hx Hxs]. constructor; [|done].
        cbn [rstrip_chars]. rewrite Hch, andb_false_r. cbn [all_chars].
        by rewrite Hch, Hx.
Qed.

Lemma splitlines_plain_nolb s :
  Forall (λ l, nolb l = true) (splitlines_plain s).
Proof.
  unfold splitlines_plain. apply Forall_map.
  apply (splitlines_body_bounded (String.length s)). done.
Qed.

(** The table of required dependencies: no name is listed twice, and every
    line [name + spec] is a single line that has its name, and that ends in a
    character other than white space. *)
Lemma required_line_ok (name spec : string) :
  (name, spec) ∈ REQUIRED_DEPENDENCIES →
  required_spec name = Some spec ∧ nolb (name ++ spec) = true ∧
  normalize_requirement_line (name ++ spec) = Some name ∧
  is_empty name = false ∧ rstrip (name ++ spec) = name ++ spec ∧
  ∃ ch, last_char (name ++ spec) = Some ch ∧ isspace ch = false.
Proof.
  unfold REQUIRED_DEPENDENCIES. intros Hin.
  repeat (apply elem_of_cons in Hin as [[= -> ->]|Hin];
    [split; [reflexivity|]; split; [reflexivity|]; split; [reflexivity|];
     split; [reflexivity|]; split; [reflexivity|]; eexists; split;
       [reflexivity|reflexivity]|]).
  by apply elem_of_nil in Hin.
Qed.

Lemma required_spec_listed (name spec : string) :
  required_spec name = Some spec → (name, spec) ∈ REQUIRED_DEPENDENCIES.
Proof.
  unfold required_spec.
  destruct (List.find _ REQUIRED_DEPENDENCIES) as [[n sp]|] eqn:E; [|done].
  cbn [fmap option_fmap option_map snd]. intros [= ->].
  apply find_some in E as [Hin Heq]. cbn [fst] in Heq.
  apply String.eqb_eq in Heq as ->. by apply list_elem_of_In.
Qed.

Lemma update_lines_updated (lines : list string) :
  (update_lines lines).1 = map updated_line lines.
Proof.
  induction lines as [|line lines IH]; [done|]. cbn [update_lines map].
  destruct (update_lines lines) as [updated existing]. cbn [fst] in IH.
  unfold updated_line. destruct (normalize_requirement_line line) as [name|];
    [|by rewrite IH].
  destruct (if is_empty name then None else required_spec name);
    by rewrite IH.
Qed.

Lemma update_lines_existing (lines : list string) (name : string) :
  name ∈ (update_lines lines).2 ↔
  ∃ line, line ∈ lines ∧ normalize_requirement_line line = Some name ∧
          is_empty name = false ∧ is_Some (required_spec name).
Proof.
  induction lines as [|line lines IH]; cbn [update_lines].
  - split; [by intros ?%elem_of_nil|]. by intros (l & ?%elem_of_nil & _).
  - destruct (update_lines lines) as [updated existing]. cbn [snd] in IH.
    assert ((∃ l, l ∈ lines ∧ normalize_requirement_line l = Some name ∧
                  is_empty name = false ∧ is_Some (required_spec name)) →
            ∃ l, l ∈ line :: lines ∧ normalize_requirement_line l = Some name ∧
                 is_empty name = false ∧ is_Some (required_spec name)) as Hup.
    { intros (l & Hl & H). exists l. split; [by right|done]. }
    destruct (normalize_requirement_line line) as [n|] eqn:Hn; cbn [snd].
    2:{ rewrite IH. split; [done|].
        intros (l & [->|Hl]%elem_of_cons & Hl2 & H); [congruence|by exists l]. }
    destruct (if is_empty n then None else required_spec n) as [sp|] eqn:Hsp;
      cbn [snd].
    + assert (is_empty n = false ∧ required_spec n = Some sp) as [Hne Hreq]
        by (by destruct (is_empty n)).
      rewrite elem_of_cons, IH. split.
      * intros [->|H]; [|by apply Hup]. exists line.
        split; [by left|]. split; [done|]. split; [done|]. by eexists.
      * intros (l & [->|Hl]%elem_of_cons & Hl2 & H).
        -- left. congruence.
        -- right. by exists l.
    + rewrite IH. split; [done|].
      intros (l & [->|Hl]%elem_of_cons & Hl2 & Hne & [sp Hreq]); [|by exists l].
      rewrite Hn in Hl2. injection Hl2 as ->. rewrite Hne in Hsp. congruence.
Qed.

Lemma updated_line_nolb (line : string) :
  nolb line = true → nolb (updated_line line) = true.
Proof.
  intros Hline. unfold updated_line.
  destruct (normalize_requirement_line line) as [name|]; [|done].
  destruct (if is_empty name then None else required_spec name)
    as [spec|] eqn:Hspec; [|done].
  assert (required_spec name = Some spec) as Hreq
    by (by destruct (is_empty name)).
  by destruct (required_line_ok _ _ (required_spec_listed _ _ Hreq))
    as (_ & ? & _).
Qed.

Lemma updated_line_required (name spec : string) :
  (name, spec) ∈ REQUIRED_DEPENDENCIES →
  updated_line (name ++ spec) = name ++ spec.
Proof.
  intros Hreq.
  destruct (required_line_ok _ _ Hreq) as (Hsp & _ & Hnorm & Hne & _).
  unfold updated_line. by rewrite Hnorm, Hne, Hsp.
Qed.

Lemma updated_line_twice (line : string) :
  updated_line (updated_line line) = updated_line line.
Proof.
  destruct (normalize_requirement_line line) as [name|] eqn:Hn.
  2:{ assert (updated_line line = line) as H; [|by rewrite !H].
      unfold updated_line. by rewrite Hn. }
  destruct (if is_empty name then None else required_spec name)
    as [spec|] eqn:Hspec.
  2:{ assert (updated_line line = line) as H; [|by rewrite !H].
      unfold updated_line. by rewrite Hn, Hspec. }
  assert (updated_line line = name ++ spec) as ->
    by (unfold updated_line; by rewrite Hn, Hspec).
  assert (required_spec name = Some spec) as Hreq
    by (by destruct (is_empty name)).
  by apply updated_line_required, required_spec_listed.
Qed.

(** The text [new_requirements] returns, as the list of lines it is written
    from: every line is a single line that the loop of [update_requirements]
    leaves as it is, and every required line is among them. *)
Lemma new_requirements_form (lines : list string) :
  Forall (λ l, nolb l = true) lines →
  ∃ L, new_requirements lines = rstrip (join LF L) ++ LF ∧
       Forall (λ l, nolb l = true) L ∧
       Forall (λ l, updated_line l = l) L ∧
       ∀ name spec, (name, spec) ∈ REQUIRED_DEPENDENCIES → name ++ spec ∈ L.
Proof.
  intros Hlines. unfold new_requirements.
  pose proof (update_lines_updated lines) as Hup.
  pose proof (update_lines_existing lines) as Hex.
  destruct (update_lines lines) as [updated existing]. cbn [fst snd] in *.
  subst updated.
  set (missing := List.filter _ REQUIRED_DEPENDENCIES).
  set (L := if bool_decide (missing = []) then map updated_line lines else _).
  exists L. split; [done|].
  assert (Forall (λ l, nolb l = true) (map updated_line lines)) as Hn1.
  { apply Forall_map. eapply Forall_impl; [done|].
    intros l Hl. by apply updated_line_nolb. }
  assert (Forall (λ l, updated_line l = l) (map updated_line lines)) as Hs1.
  { apply Forall_map. apply Forall_forall. intros l _. cbn beta.
    apply updated_line_twice. }
  assert (∀ P : string → Prop, P "" → P REQUIREMENTS_HEADER →
            (∀ name spec, (name, spec) ∈ REQUIRED_DEPENDENCIES →
                          P (name ++ spec)) →
            Forall P (map updated_line lines) → Forall P L) as HL.
  { intros P Pe Ph Pr Pu. unfold L. case_bool_decide; [done|].
    apply Forall_app. split.
    - destruct (is_empty _); [done|]. apply Forall_app. split; [done|].
      by constructor.
    - constructor; [done|]. constructor; [done|].
      apply Forall_map. apply Forall_forall. intros [n sp] Hin.
      cbn [fst snd]. by apply Pr. }
  split; [|split].
  - apply HL; [reflexivity|reflexivity| |done].
    intros n sp Hr. by destruct (required_line_ok _ _ Hr) as (_ & ? & _).
  - apply HL; [reflexivity|reflexivity| |done].
    intros n sp Hr. by apply updated_line_required.
  - intros name spec Hreq. unfold L. case_bool_decide as Hmiss.
    + destruct (decide (name ∈ existing)) as [Hin|Hno].
      * apply Hex in Hin as (l & Hl & Hnorm & Hne & _).
        destruct (required_line_ok _ _ Hreq) as (Hsp & _).
        apply list_elem_of_fmap. exists l. split; [|done].
        unfold updated_line. by rewrite Hnorm, Hne, Hsp.
      * assert ((name, spec) ∈ missing) as Hm.
        { unfold missing. apply list_elem_of_In, filter_In. split.
          - by apply list_elem_of_In.
          - cbn [fst]. by rewrite bool_decide_eq_false_2. }
        rewrite Hmiss in Hm. by apply elem_of_nil in Hm.
    + apply elem_of_app. right. right. right.
      apply (list_elem_of_fmap_2 (λ e, e.1 ++ e.2) _ (name, spec)). done.
Qed.

Lemma nolb_no_cr t :
  nolb t = true → all_chars (λ ch, negb (is_cr ch)) t = true.
Proof.
  induction t as [|d t IH]; [done|]. cbn [all_chars].
  intros [Hd Ht]%andb_true_iff. rewrite IH by done.
  rewrite andb_true_r. unfold is_cr.
  destruct (Ascii.eqb d "013") eqn:E; [|done].
  apply Ascii.eqb_eq in E as ->. done.
Qed.

Lemma join_LF_no_cr L :
  Forall (λ l, nolb l = true) L →
  all_chars (λ ch, negb (is_cr ch)) (join LF L) = true.
Proof.
  induction 1 as [|l L Hl HL IH]; [done|].
  destruct L as [|l' L]; [by apply nolb_no_cr|].
  change (join LF (l :: l' :: L)) with (l ++ LF ++ join LF (l' :: L)).
  rewrite !all_chars_app, nolb_no_cr, IH by done. reflexivity.
Qed.

Lemma new_requirements_lists (lines : list string) (name spec : string) :
  Forall (λ l, nolb l = true) lines →
  (name, spec) ∈ REQUIRED_DEPENDENCIES →
  name ++ spec ∈ splitlines_plain (new_requirements lines) ∧
  all_chars (λ ch, negb (is_cr ch)) (new_requirements lines) = true.
Proof.
  intros Hlines Hreq.
  destruct (new_requirements_form lines Hlines) as (L & -> & HL & _ & Hin).
  destruct (required_line_ok _ _ Hreq) as (_ & _ & _ & _ & _ & ch & Hlast & Hch).
  split.
  - apply (line_of_written L _ ch); [done|by apply Hin|done|done].
  - rewrite all_chars_app. apply andb_true_iff. split; [|reflexivity].
    rewrite rstrip_rstrip_chars. apply all_chars_rstrip_chars.
    by apply join_LF_no_cr.
Qed.

Lemma rstrip_chars_empty (p : ascii → bool) t :
  rstrip_chars p t = "" → all_chars p t = true.
Proof.
  induction t as [|d t IH]; [done|]. cbn [rstrip_chars all_chars].
  destruct (rstrip_chars p t) as [|e r]; [|done]. cbn [is_empty andb].
  destruct (p d); [|done]. intros _. by rewrite IH.
Qed.

Lemma rstrip_chars_twice (p : ascii → bool) t :
  rstrip_chars p (rstrip_chars p t) = rstrip_chars p t.
Proof.
  induction t as [|d t IH]; [done|]. cbn [rstrip_chars].
  destruct (is_empty (rstrip_chars p t) && p d) eqn:E; [done|].
  cbn [rstrip_chars]. by rewrite IH, E.
Qed.

Lemma rstrip_twice t : rstrip (rstrip t) = rstrip t.
Proof. rewrite !rstrip_rstrip_chars. apply rstrip_chars_twice. Qed.

Lemma rstrip_join L :
  rstrip (join LF L) = join LF (rstrip_lines L) ∧
  (rstrip_lines L ≠ [] → join LF (rstrip_lines L) ≠ "").
Proof.
  induction L as [|l L [IH1 IH2]]; [done|]. cbn [rstrip_lines].
  destruct (rstrip_lines L) as [|r R] eqn:HR.
  - assert (rstrip (join LF (l :: L)) = rstrip l) as ->.
    { destruct L as [|l' L]; [done|].
      change (join LF (l :: l' :: L)) with (l ++ LF ++ join LF (l' :: L)).
      rewrite !rstrip_rstrip_chars. apply rstrip_chars_app_r.
      rewrite all_chars_app. apply andb_true_iff. split; [reflexivity|].
      apply rstrip_chars_empty. by rewrite <- rstrip_rstrip_chars. }
    destruct (rstrip l) eqn:Hl; cbn [is_empty]; [done|]. split; done.
  - destruct L as [|l' L]; [done|].
    change (join LF (l :: l' :: L)) with (l ++ LF ++ join LF (l' :: L)).
    change (join LF (l :: r :: R)) with (l ++ LF ++ join LF (r :: R)).
    split; [|by destruct l].
    rewrite <- IH1, <- !append_assoc, !rstrip_rstrip_chars.
    apply rstrip_chars_app_l. rewrite <- rstrip_rstrip_chars, IH1.
    by apply IH2.
Qed.

Lemma rstrip_lines_Forall (P : string → Prop) L :
  (∀ l, P l → P (rstrip l)) → Forall P L → Forall P (rstrip_lines L).
Proof.
  intros HP. induction 1 as [|l L Hl HL IH]; [constructor|].
  cbn [rstrip_lines]. destruct (rstrip_lines L) as [|r R].
  - destruct (is_empty (rstrip l)); constructor; [by apply HP|constructor].
  - by constructor.
Qed.

Lemma rstrip_lines_keeps L x :
  x ∈ L → rstrip x = x → x ≠ "" → x ∈ rstrip_lines L.
Proof.
  intros Hin Hx Hne. induction L as [|l L IH]; [by apply elem_of_nil in Hin|].
  cbn [rstrip_lines]. apply elem_of_cons in Hin as [<-|Hin].
  - destruct (rstrip_lines L) as [|r R]; [|by left].
    rewrite Hx. destruct x; [done|]. cbn [is_empty]. by left.
  - specialize (IH Hin). destruct (rstrip_lines L) as [|r R];
      [by apply elem_of_nil in IH|]. by right.
Qed.

Lemma join_LF_ended L :
  L ≠ [] → join LF L ++ LF = join "" (map ended L).
Proof.
  induction L as [|l L IH]; [done|]. intros _.
  destruct L as [|l' L]; [done|].
  change (join LF (l :: l' :: L)) with (l ++ LF ++ join LF (l' :: L)).
  change (map ended (l :: l' :: L)) with ((l ++ LF) :: map ended (l' :: L)).
  rewrite join_empty_cons, <- IH by done. by rewrite !append_assoc.
Qed.

Lemma splitlines_plain_written L :
  Forall (λ l, nolb l = true) L → L ≠ [] →
  splitlines_plain (join LF L ++ LF) = L.
Proof.
  intros HL Hne. unfold splitlines_plain. rewrite join_LF_ended by done.
  rewrite <- (append_nil_r (join "" (map ended L))).
  rewrite splitlines_lines by done. cbn [splitlines]. rewrite app_nil_r.
  clear Hne. induction HL as [|l L Hl HL IH]; [done|]. cbn [map].
  rewrite IH. rewrite rstrip_chars_app_r by reflexivity.
  by rewrite rstrip_chars_keep.
Qed.

Lemma normalize_requirement_line_rstrip (line : string) :
  normalize_requirement_line (rstrip line) = normalize_requirement_line line.
Proof. unfold normalize_requirement_line, strip. by rewrite rstrip_twice. Qed.

Lemma updated_line_rstrip (line : string) :
  updated_line line = line → updated_line (rstrip line) = rstrip line.
Proof.
  unfold updated_line. rewrite normalize_requirement_line_rstrip.
  destruct (normalize_requirement_line line) as [name|]; [|done].
  destruct (if is_empty name then None else required_spec name)
    as [spec|] eqn:Hspec; [|done].
  assert (required_spec name = Some spec) as Hreq
    by (by destruct (is_empty name)).
  intros <-.
  by destruct (required_line_ok _ _ (required_spec_listed _ _ Hreq))
    as (_ & _ & _ & _ & -> & _).
Qed.

Lemma filter_none {A} (f : A → bool) (l : list A) :
  Forall (λ e, f e = false) l → List.filter f l = [].
Proof.
  induction 1 as [|e l He Hl IH]; [done|]. cbn [List.filter].
  by rewrite He.
Qed.

Lemma map_fixed {A} (f : A → A) (l : list A) :
  Forall (λ e, f e = e) l → map f l = l.
Proof.
  induction 1 as [|e l He Hl IH]; [done|]. cbn [map]. by rewrite He, IH.
Qed.

(** The text [new_requirements] returns is a fixed point: from its own
    lines it is returned again. *)
Lemma new_requirements_fixed (lines : list string) :
  Forall (λ l, nolb l = true) lines →
  new_requirements (splitlines_plain (new_requirements lines))
  = new_requirements lines.
Proof.
  intros Hlines.
  destruct (new_requirements_form lines Hlines)
    as (L & -> & HL & Hstable & Hreq).
  destruct (rstrip_join L) as [Hjoin Hne].
  assert (Forall (λ l, nolb l = true) (rstrip_lines L)) as HR.
  { apply rstrip_lines_Forall; [|done]. intros l Hl.
    rewrite rstrip_rstrip_chars. by apply all_chars_rstrip_chars. }
  assert (Forall (λ l, updated_line l = l) (rstrip_lines L)) as HRs.
  { apply rstrip_lines_Forall; [|done]. apply updated_line_rstrip. }
  assert (∀ name spec, (name, spec) ∈ REQUIRED_DEPENDENCIES →
            name ++ spec ∈ rstrip_lines L) as HRreq.
  { intros name spec Hr.
    destruct (required_line_ok _ _ Hr) as (_ & _ & _ & Hn & Hrs & _).
    apply rstrip_lines_keeps; [by apply Hreq|done|].
    destruct name; [done|]. by rewrite append_cons. }
  assert (rstrip_lines L ≠ []) as HRne.
  { intros HR0. specialize (HRreq "eventlet" ">=0.33.3").
    rewrite HR0 in HRreq. eapply elem_of_nil, HRreq.
    unfold REQUIRED_DEPENDENCIES. left. }
  rewrite Hjoin. rewrite splitlines_plain_written by done.
  unfold new_requirements.
  pose proof (update_lines_updated (rstrip_lines L)) as Hup.
  pose proof (update_lines_existing (rstrip_lines L)) as Hex.
  destruct (update_lines (rstrip_lines L)) as [updated existing].
  cbn [fst snd] in *. subst updated. rewrite (map_fixed _ _ HRs).
  rewrite filter_none.
  - rewrite bool_decide_eq_true_2 by done.
    by rewrite <- Hjoin, rstrip_twice.
  - apply Forall_forall. intros [name spec] Hr. cbn [fst].
    apply negb_false_iff, bool_decide_eq_true_2, Hex.
    destruct (required_line_ok _ _ Hr) as (Hsp & _ & Hnorm & Hn & _).
    exists (name ++ spec). split; [by apply HRreq|]. split; [done|].
    split; [done|]. by eexists.
Qed.

(** X17.  After [update_requirements], the requirements file holds, for every
    required dependency, the line made of its name and its version
    specifier, and it reads back as it was written. *)
Theorem update_requirements_lists_required (p : string) (s s' : Session)
    (name spec : string) :
  update_requirements p s = Ok s' →
  (name, spec) ∈ REQUIRED_DEPENDENCIES →
  ∃ text, read_text (s_files s') p = inr text ∧
          name ++ spec ∈ splitlines_plain text.
Proof.
  intros Hrun Hreq. unfold update_requirements in Hrun.
  set (present := exists_file (s_files s) p) in Hrun.
  set (content := if present then _ else "") in Hrun.
  set (lines := if present then splitlines_plain content else []) in Hrun.
  assert (Forall (λ l, nolb l = true) lines) as Hlines.
  { unfold lines. destruct present; [apply splitlines_plain_nolb|constructor]. }
  destruct (new_requirements_lists lines name spec Hlines Hreq) as [Hin Hcr].
  exists (new_requirements lines). split; [|done].
  destruct (String.eqb (new_requirements lines) content) eqn:Heq.
  - injection Hrun as <-. apply String.eqb_eq in Heq.
    unfold read_text. unfold content, present in Heq.
    destruct (exists_file (s_files s) p) eqn:Hex.
    + apply exists_file_true in Hex as [v Hv]. rewrite Hv in Heq |- *.
      cbn [default] in Heq. by rewrite Heq.
    + exfalso. unfold new_requirements in Heq.
      destruct (update_lines lines) as [u e].
      destruct (rstrip _) in Heq; discriminate.
  - destruct (if present then ensure_backup (s_files s) p (s_state s)
              else (s_files s, add_created p (s_state s))) as [fs st].
    injection Hrun as <-. cbn [s_files]. unfold read_text, write_text.
    rewrite lookup_insert_eq. by rewrite universal_newlines_id.
Qed.

Lemma update_requirements_lists_required_witness :
  ∃ (s' : Session) (text : string),
    update_requirements "requirements.txt"
      (mkSession
         (<["requirements.txt" := "eventlet==0.30.2" ++ LF ++ "six" ++ LF]>
            Examples.fresh_tree)
         (mkState [] []) []) = Ok s' ∧
    read_text (s_files s') "requirements.txt" = inr text ∧
    "webob" ++ ">=1.8.7" ∈ splitlines_plain text.
Proof.
  destruct (update_requirements "requirements.txt"
              (mkSession
                 (<["requirements.txt" := "eventlet==0.30.2" ++ LF ++ "six" ++ LF]>
                    Examples.fresh_tree)
                 (mkState [] []) [])) as [s'|e fs|] eqn:Hrun;
    [|vm_compute in Hrun; discriminate..].
  destruct (update_requirements_lists_required _ _ _ "webob" ">=1.8.7" Hrun)
    as (text & Hread & Hin).
  - unfold REQUIRED_DEPENDENCIES. do 8 right. left.
  - exists s', text. split; [reflexivity|]. split; [exact Hread|exact Hin].
Defined.

(** X18.  [update_requirements] is idempotent: run again on the session it
    returned, it finds the requirements file as it wants it and changes
    nothing. *)
Theorem update_requirements_twice (p : string) (s s' : Session) :
  update_requirements p s = Ok s' → update_requirements p s' = Ok s'.
Proof.
  intros Hrun. pose proof Hrun as Hrun0. unfold update_requirements in Hrun.
  set (present := exists_file (s_files s) p) in Hrun.
  set (content := if present then _ else "") in Hrun.
  set (lines := if present then splitlines_plain content else []) in Hrun.
  assert (Forall (λ l, nolb l = true) lines) as Hlines.
  { unfold lines. destruct present; [apply splitlines_plain_nolb|constructor]. }
  destruct (String.eqb (new_requirements lines) content) eqn:Heq.
  { injection Hrun as <-. exact Hrun0. }
  destruct (if present then ensure_backup (s_files s) p (s_state s)
            else (s_files s, add_created p (s_state s))) as [fs st].
  injection Hrun as <-. unfold update_requirements. cbv zeta. cbn [s_files].
  assert (exists_file (write_text fs p (new_requirements lines)) p = true)
    as ->.
  { apply exists_file_true. unfold write_text. rewrite lookup_insert_eq.
    by eexists. }
  assert (write_text fs p (new_requirements lines) !! p
          = Some (new_requirements lines)) as ->
    by (unfold write_text; by rewrite lookup_insert_eq).
  cbn [default].
  assert (all_chars (λ ch, negb (is_cr ch)) (new_requirements lines) = true)
    as Hcr.
  { apply (new_requirements_lists lines "eventlet" ">=0.33.3" Hlines).
    unfold REQUIRED_DEPENDENCIES. left. }
  unfold id. rewrite (universal_newlines_id _ Hcr).
  rewrite (new_requirements_fixed lines Hlines).
  by rewrite String.eqb_refl.
Qed.

Lemma update_requirements_twice_witness :
  ∃ (s' : Session),
    update_requirements "requirements.txt"
      (mkSession
         (<["requirements.txt" := "eventlet==0.30.2" ++ LF ++ "six  " ++ LF ++ LF]>
            Examples.fresh_tree)
         (mkState [] []) []) = Ok s' ∧
    update_requirements "requirements.txt" s' = Ok s'.
Proof.
  destruct (update_requirements "requirements.txt"
              (mkSession
                 (<["requirements.txt" := "eventlet==0.30.2" ++ LF ++ "six  " ++ LF ++ LF]>
                    Examples.fresh_tree)
                 (mkState [] []) [])) as [s'|e fs|] eqn:Hrun;
    [|vm_compute in Hrun; discriminate..].
  exists s'. split; [reflexivity|].
  exact (update_requirements_twice _ _ _ Hrun).
Defined.

End Requirements.

(** ** The log of the fixer, the items of an import, the created files *)

Section LogAndItems.

Import Fixer Modernize.

Implicit Types (fs : tree) (st : State) (p q f : string).




(** X20.  After a rollback that returned, no file registered as created is
    left in the tree. *)
Theorem rollback_removes_created (w w' : World) st (out : list string)
    (code : nat) c :
  ledger w = Some st → rollback w = (w', out, Exit code) →
  c ∈ created_files st → files w' !! c = None.
Proof.
  intros Hl Hrun Hc. unfold rollback in Hrun. rewrite Hl in Hrun.
  destruct (restore_backups (files w) (backups st)) as [fs [e|]]; [done|].
  injection Hrun as <- _ _. cbn [files].
  rewrite remove_created_lookup. by rewrite decide_True.
Qed.

Lemma rollback_removes_created_witness :
  files (rollback (mkWorld (<["requirements.txt" := "six"]> Examples.fresh_tree)
                     (Some (mkState [] ["requirements.txt"])))).1.1
    !! "requirements.txt" = None.
Proof.
  destruct (rollback (mkWorld (<["requirements.txt" := "six"]> Examples.fresh_tree)
                        (Some (mkState [] ["requirements.txt"]))))
    as [[w' out] code] eqn:Hr.
  assert (code = Exit 0) as -> by (vm_compute in Hr; congruence).
  apply (rollback_removes_created
           (mkWorld (<["requirements.txt" := "six"]> Examples.fresh_tree)
              (Some (mkState [] ["requirements.txt"])))
           w' (mkState [] ["requirements.txt"]) out 0
           "requirements.txt" eq_refl Hr).
  cbn [created_files]. left.
Defined.

Lemma all_chars_lstrip (pr : ascii → bool) (t : string) :
  all_chars pr t = true → all_chars pr (lstrip t) = true.
Proof.
  induction t as [|d t IH]; [done|]. cbn [lstrip].
  destruct (isspace d); [|done]. cbn [all_chars].
  intros [_ Ht]%andb_true_iff. by apply IH.
Qed.

Lemma all_chars_rstrip (pr : ascii → bool) (t : string) :
  all_chars pr t = true → all_chars pr (rstrip t) = true.
Proof. rewrite rstrip_rstrip_chars. apply all_chars_rstrip_chars. Qed.

Lemma split_char_items (ch : ascii) (t : string) :
  Forall (λ item, all_chars (λ d, negb (Ascii.eqb d ch)) item = true)
         (split_char ch t).
Proof.
  induction t as [|d t IH]; cbn [split_char]; [by repeat constructor|].
  destruct (Ascii.eqb d ch) eqn:Hd; [by constructor|].
  destruct (split_char ch t) as [|x xs].
  { constructor; [|constructor]. cbn [all_chars]. by rewrite Hd. }
  apply Forall_cons in IH as [Hx Hxs]. constructor; [|done].
  cbn [all_chars]. by rewrite Hd, Hx.
Qed.

Lemma lstrip_head (t : string) : head_not_space (lstrip t) = true.
Proof.
  induction t as [|d t IH]; [done|]. cbn [lstrip].
  destruct (isspace d) eqn:Hd; [done|]. cbn [head_not_space]. by rewrite Hd.
Qed.

Lemma lstrip_fixed (t : string) : head_not_space t = true → lstrip t = t.
Proof.
  destruct t as [|d t]; [done|]. cbn [head_not_space lstrip].
  by intros ->%negb_true_iff.
Qed.

Lemma rstrip_lstrip (t : string) :
  rstrip t = t → rstrip (lstrip t) = lstrip t.
Proof.
  induction t as [|d t IH]; [done|]. cbn [lstrip].
  destruct (isspace d) eqn:Hd; [|done]. intros H. cbn [rstrip] in H.
  rewrite Hd, andb_true_r in H.
  destruct (rstrip t) as [|e r] eqn:Hr; cbn [is_empty] in H; [done|].
  injection H as Ht. by apply IH.
Qed.

Lemma strip_twice (t : string) : strip (strip t) = strip t.
Proof.
  unfold strip. rewrite rstrip_lstrip by apply rstrip_twice.
  apply lstrip_fixed, lstrip_head.
Qed.

(** X21.  The items [parse_import_items] returns are ready to use: none is
    empty, none has white space at either end, and none holds a comma. *)
Theorem parse_import_items_clean (imports_part item : string) :
  item ∈ parse_import_items imports_part →
  item ≠ "" ∧ strip item = item ∧
  all_chars (λ d, negb (Ascii.eqb d ",")) item = true.
Proof.
  unfold parse_import_items. cbv zeta.
  set (part := if _ && _ then _ else _).
  intros Hin. apply list_elem_of_filter in Hin as [Hne Hin].
  apply list_elem_of_fmap in Hin as (raw & -> & Hraw).
  split; [by destruct (strip raw)|]. split; [apply strip_twice|].
  pose proof (split_char_items "," part) as Hall.
  rewrite Forall_forall in Hall. specialize (Hall raw Hraw).
  unfold strip. by apply all_chars_lstrip, all_chars_rstrip.
Qed.

Lemma parse_import_items_clean_witness :
  strip "OrderedDict" = "OrderedDict".
Proof.
  apply (parse_import_items_clean "( OrderedDict , MutableMapping as MM,)"
           "OrderedDict").
  vm_compute. left.
Defined.

End LogAndItems.

(** ** The text report *)

Section ReportText.

Import Fixer Modernize.

Implicit Types (t x title mark : string) (P Q R : list string).

Local Abbreviation ended := (λ l : string, l ++ LF).

Lemma join_LF_marked Q R mark :
  ∃ u v, join LF (Q ++ mark :: R) = u ++ mark ++ v.
Proof. rewrite join_LF_split. by eexists _, _. Qed.

(** A line in the middle of a text is a line of the stripped text: between
    a first line that starts with a character other than white space and a
    later line that holds such a character, nothing is cut. *)
Lemma contains_line_of_stripped title P x Q R mark :
  head_not_space title = true → title ≠ "" → all_space mark = false →
  contains (LF ++ x ++ LF)
    (strip (join LF ((title :: P) ++ x :: (Q ++ mark :: R))) ++ LF) = true.
Proof.
  intros Htitle Hne Hmark.
  rewrite join_LF_split. rewrite <- join_LF_ended by done.
  assert (match (Q ++ mark :: R)%list with
          | [] => ""
          | _ => LF ++ join LF (Q ++ mark :: R)
          end = LF ++ join LF (Q ++ mark :: R)) as ->
    by (by destruct Q).
  destruct (join_LF_marked Q R mark) as (u & v & HJ).
  set (J2 := join LF (Q ++ mark :: R)) in *.
  assert (rstrip J2 ≠ "") as HJ2.
  { intros Hr. rewrite rstrip_rstrip_chars in Hr.
    apply rstrip_chars_empty in Hr. rewrite HJ, !all_chars_app in Hr.
    apply andb_true_iff in Hr as [_ Hr].
    apply andb_true_iff in Hr as [Hr _]. unfold all_space in Hmark.
    congruence. }
  set (T := join LF (title :: P)).
  assert (head_not_space T = true ∧ T ≠ "") as [HT HTne].
  { unfold T. destruct title as [|ch title]; [done|].
    destruct P as [|l P]; [done|].
    change (join LF (String ch title :: l :: P))
      with (String ch title ++ LF ++ join LF (l :: P)).
    rewrite append_cons. done. }
  replace ((T ++ LF) ++ x ++ LF ++ J2) with ((T ++ LF ++ x ++ LF) ++ J2)
    by (by rewrite !append_assoc).
  unfold strip. rewrite rstrip_rstrip_chars.
  rewrite rstrip_chars_app_l by (by rewrite <- rstrip_rstrip_chars).
  rewrite !append_assoc. rewrite lstrip_fixed.
  - rewrite !append_assoc.
    replace (T ++ LF ++ x ++ LF ++ rstrip_chars isspace J2 ++ LF)
      with (T ++ (LF ++ x ++ LF) ++ (rstrip_chars isspace J2 ++ LF))
      by (by rewrite !append_assoc).
    apply contains_app.
  - destruct T as [|ch T']; [done|]. by rewrite append_cons.
Qed.

(** X22.  Every change of the session is in the text report: after
    [write_report], the file of the text report holds, for every change
    record, the line made of its path and its description. *)
Theorem write_report_lists_changes (env : Env) (tests : Tests)
    (s s' : Session) (c : ChangeRecord) :
  write_report env tests s = Ok s' → c ∈ s_changes s →
  ∃ text, s_files s' !! REPORT_TXT = Some text ∧
    contains (LF ++ ("- " ++ path c ++ ": " ++ description c) ++ LF) text
    = true.
Proof.
  intros Hrun Hc. unfold write_report in Hrun.
  destruct (backup_or_register (s_files s) REPORT_JSON (s_state s))
    as [fs1 st1].
  destruct (backup_or_register fs1 REPORT_TXT st1) as [fs2 st2].
  injection Hrun as <-. cbn [s_files]. unfold write_text.
  rewrite lookup_insert_eq. eexists. split; [reflexivity|].
  apply list_elem_of_split in Hc as (c1 & c2 & Hsplit).
  unfold report_text. cbv zeta. cbn [r_changes r_timestamp]. rewrite Hsplit.
  set (f := λ c : ChangeRecord, "- " ++ path c ++ ": " ++ description c).
  match goal with
  | |- context [concat [[?title; ?e; ?py]; ?b; ?d; ?deps; ?h; ?ch;
                        [?e2; ?tests_; ?tl]; ?out; ?sm]] =>
      replace (concat [[title; e; py]; b; d; deps; h; ch;
                       [e2; tests_; tl]; out; sm])
        with ((title :: ([e; py] ++ b ++ d ++ deps ++ h ++ map f c1))
                ++ f c :: ((map f c2 ++ [e2]) ++ tests_ :: (tl :: out ++ sm)))%list
  end.
  - apply contains_line_of_stripped; [reflexivity| |reflexivity].
    by rewrite append_cons.
  - assert (∀ none : list string,
              match (c1 ++ c :: c2)%list with
              | [] => none
              | x :: l => map f (x :: l)
              end = (map f c1 ++ f c :: map f c2)%list) as ->.
    { intros none. destruct c1; cbn [app map]; by rewrite ?map_app. }
    cbn [concat].
    repeat first [rewrite <- app_assoc | progress cbn [app]].
    rewrite ?app_nil_r. reflexivity.
Qed.

Lemma write_report_lists_changes_witness :
  ∃ (s' : Session) (text : string),
    write_report Examples.env0 (mkTests "" "skipped" "")
      (mkSession Examples.fresh_tree (mkState [] [])
         [mkChangeRecord "ryu/lib/hub.py"
            "Inserted dnspython tlsabase compatibility hook"]) = Ok s' ∧
    s_files s' !! REPORT_TXT = Some text ∧
    contains (LF ++ ("- " ++ "ryu/lib/hub.py" ++ ": "
                     ++ "Inserted dnspython tlsabase compatibility hook") ++ LF)
      text = true.
Proof.
  destruct (write_report Examples.env0 (mkTests "" "skipped" "")
              (mkSession Examples.fresh_tree (mkState [] [])
                 [mkChangeRecord "ryu/lib/hub.py"
                    "Inserted dnspython tlsabase compatibility hook"]))
    as [s'|e fs|] eqn:Hrun; [|vm_compute in Hrun; discriminate..].
  destruct (write_report_lists_changes _ _ _ _
              (mkChangeRecord "ryu/lib/hub.py"
                 "Inserted dnspython tlsabase compatibility hook") Hrun)
    as (text & Hfile & Hin).
  - cbn [s_changes]. left.
  - exists s', text. split; [reflexivity|]. split; [exact Hfile|exact Hin].
Defined.

End ReportText.
